(** * France Travail ETL: extraction, normalisation and loading

    A shallow embedding of [src/etl/api/extraction.py],
    [src/etl/api/transformation.py] and [src/etl/api/loading.py], and the
    properties of the pipeline proved over it.

    Python values are a small inductive type, Python exceptions an error
    monad, [str] a list of code points, a [set()] of ids a [gset], a
    DataFrame an ordered list of named columns. *)

From Stdlib Require Import ZArith NArith QArith String Ascii Bool.
From stdpp Require Import base option list gmap.

Local Open Scope N_scope.
Local Open Scope list_scope.

(** ** Python values and exceptions *)

Module Py.

(** A Python [str]: its code points. *)
Definition str := list N.

(** An ASCII literal as a [str]. *)
Definition u (s : string) : str := map N_of_ascii (list_ascii_of_string s).

(** Scalars that [json.load] yields and that can be members of a [set]
    (floats aside). *)
Inductive scalar :=
| SNone
| SBool (b : bool)
| SInt (z : Z)
| SStr (s : str).

#[warnings="-register-all"]
Inductive pyval :=
| PScalar (a : scalar)
| PFloat (q : Q)
| PList (l : list pyval).

Abbreviation PNone := (PScalar SNone).
Abbreviation PBool b := (PScalar (SBool b)).
Abbreviation PInt z := (PScalar (SInt z)).
Abbreviation PStr s := (PScalar (SStr s)).

Inductive exn := TypeError | ValueError | AttributeError | IndexError | KeyError.

Inductive exc (A : Type) :=
| Ok (a : A)
| Raise (e : exn).
Arguments Ok {A} a.
Arguments Raise {A} e.

#[global] Instance exc_ret : MRet exc := fun A a => Ok a.
#[global] Instance exc_bind : MBind exc := fun A B f m =>
  match m with
  | Ok a => f a
  | Raise e => Raise e
  end.

Definition exn_eqb (a b : exn) : bool :=
  match a, b with
  | TypeError, TypeError | ValueError, ValueError
  | AttributeError, AttributeError | IndexError, IndexError
  | KeyError, KeyError => true
  | _, _ => false
  end.

(** [for x in xs: f x], stopping at the first exception. *)
Fixpoint mapM {A B} (f : A -> exc B) (xs : list A) : exc (list B) :=
  match xs with
  | [] => Ok []
  | x :: xs' => y ← f x; ys ← mapM f xs'; Ok (y :: ys)
  end.

(** [bool(v)] for a scalar. *)
Definition scalar_truthy (a : scalar) : bool :=
  match a with
  | SNone => false
  | SBool b => b
  | SInt z => negb (z =? 0)%Z
  | SStr s => match s with [] => false | _ => true end
  end.

(** [bool(v)]. *)
Definition truthy (v : pyval) : bool :=
  match v with
  | PScalar a => scalar_truthy a
  | PFloat q => negb (Qeq_bool q 0)
  | PList l => match l with [] => false | _ => true end
  end.

Definition isinstance_str (v : pyval) : bool :=
  match v with PStr _ => true | _ => false end.

Fixpoint str_eqb (a b : str) : bool :=
  match a, b with
  | [], [] => true
  | x :: a', y :: b' => (x =? y) && str_eqb a' b'
  | _, _ => false
  end.

(** [==] on values: [True == 1], [1 == 1.0], lists element by element. *)
Definition num_of (v : pyval) : option Q :=
  match v with
  | PBool b => Some (if b then 1%Q else 0%Q)
  | PInt z => Some (inject_Z z)
  | PFloat q => Some q
  | _ => None
  end.

Fixpoint py_eq (a b : pyval) : bool :=
  match a, b with
  | PNone, PNone => true
  | PStr s, PStr t => str_eqb s t
  | PList l, PList m =>
      (fix go (l : list pyval) (m : list pyval) : bool :=
         match l, m with
         | [], [] => true
         | x :: l', y :: m' => py_eq x y && go l' m'
         | _, _ => false
         end) l m
  | _, _ =>
      match num_of a, num_of b with
      | Some x, Some y => Qeq_bool x y
      | _, _ => false
      end
  end.

(** *** String primitives *)

Fixpoint is_prefix (p s : str) : bool :=
  match p, s with
  | [], _ => true
  | a :: p', b :: s' => (a =? b) && is_prefix p' s'
  | _ :: _, [] => false
  end.

(** [needle in hay] for two strings. *)
Fixpoint substr (needle hay : str) : bool :=
  is_prefix needle hay ||
  match hay with
  | [] => false
  | _ :: hay' => substr needle hay'
  end.

(** [needle in hay]: substring test on a [str], membership by [==] on a
    list, [TypeError] on anything that is not a container. *)
Definition contains (needle hay : pyval) : exc bool :=
  match hay with
  | PStr h =>
      match needle with
      | PStr n => Ok (substr n h)
      | _ => Raise TypeError
      end
  | PList l => Ok (existsb (py_eq needle) l)
  | _ => Raise TypeError
  end.

(** [len(v)]. *)
Definition len (v : pyval) : exc pyval :=
  match v with
  | PStr s => Ok (PInt (Z.of_nat (length s)))
  | PList l => Ok (PInt (Z.of_nat (length l)))
  | _ => Raise TypeError
  end.

(** [s.replace(old, new)] for a one-character [old]. *)
Definition replace_char (old : N) (new : str) (s : str) : str :=
  flat_map (fun c => if c =? old then new else [c]) s.

Fixpoint drop_while (p : N -> bool) (s : str) : str :=
  match s with
  | [] => []
  | c :: s' => if p c then drop_while p s' else s
  end.

(** The character tables of the interpreter's Unicode database which the
    code consults through [\d], [\s], [\w], [\b], [str.lower], [str.strip]
    and [float]. *)
Class Unicode := {
  u_decimal : N -> option N;   (* value of a decimal digit (category Nd) *)
  u_space : N -> bool;         (* whitespace *)
  u_word : N -> bool;          (* alphanumeric or underscore *)
  u_lower : str -> str         (* str.lower *)
}.

Definition is_decimal `{Unicode} (c : N) : bool :=
  match u_decimal c with Some _ => true | None => false end.

(** [v.lower()]. *)
Definition lower `{Unicode} (v : pyval) : exc str :=
  match v with
  | PStr s => Ok (u_lower s)
  | _ => Raise AttributeError
  end.

(** [s.strip()]. *)
Definition strip `{Unicode} (s : str) : str :=
  rev (drop_while u_space (rev (drop_while u_space s))).

(** [float(s)] on a text of decimal digits and dots, the only texts the
    salary parser passes to it: an integer part, then at most one dot and a
    fraction; at least one digit overall.  The value is the exact decimal
    (the interpreter rounds it to the nearest double). *)
Fixpoint digits_value `{Unicode} (acc : N) (s : str) : N * str :=
  match s with
  | [] => (acc, [])
  | c :: s' =>
      match u_decimal c with
      | Some d => digits_value (10 * acc + d) s'
      | None => (acc, s)
      end
  end.

Definition pow10 (n : nat) : positive :=
  match n with
  | O => 1%positive
  | S _ => Pos.pow 10 (Pos.of_nat n)
  end.

Definition float_of_text `{Unicode} (s : str) : exc Q :=
  match digits_value 0 s with
  | (ip, []) =>
      match s with
      | [] => Raise ValueError
      | _ => Ok (inject_Z (Z.of_N ip))
      end
  | (ip, c :: frac) =>
      if c =? 46 then
        match digits_value ip frac with
        | (n, []) =>
            match s with
            | [_] => Raise ValueError
            | _ => Ok (Qmake (Z.of_N n) (pow10 (length frac)))
            end
        | _ => Raise ValueError
        end
      else Raise ValueError
  end.

(** [l[i]]. *)
Definition index {A} (l : list A) (i : nat) : exc A :=
  match l !! i with
  | Some x => Ok x
  | None => Raise IndexError
  end.

(** The tables on the code points below 256 (Basic Latin and Latin-1
    Supplement), where they are those of CPython; a code point above is
    taken as a caseless symbol that is neither digit, space nor letter,
    which is what the euro sign is.  The whitespace table is complete. *)
Definition between (lo hi c : N) : bool := (lo <=? c) && (c <=? hi).

Definition latin1_lower_char (c : N) : N :=
  if between 65 90 c || between 192 214 c || between 216 222 c
  then c + 32 else c.

#[global] Instance latin1 : Unicode := {|
  u_decimal c := if between 48 57 c then Some (c - 48) else None;
  u_space c :=
    between 9 13 c || between 28 32 c || (c =? 133) || (c =? 160) ||
    (c =? 5760) || between 8192 8202 c || (c =? 8232) || (c =? 8233) ||
    (c =? 8239) || (c =? 8287) || (c =? 12288);
  u_word c :=
    between 48 57 c || between 65 90 c || (c =? 95) || between 97 122 c ||
    (c =? 170) || (c =? 178) || (c =? 179) || (c =? 181) || (c =? 185) ||
    (c =? 186) || between 188 190 c || between 192 214 c ||
    between 216 246 c || between 248 255 c;
  u_lower s := map latin1_lower_char s
|}.

End Py.

(** ** The fragment of [re] the code uses

    A backtracking matcher in continuation-passing style: alternatives are
    tried left to right, a greedy star tries one more iteration before it
    tries to stop, a lazy star the other way round; the first success
    wins. *)

Module Re.
Import Py.

Inductive regex :=
| Chr (p : N -> bool)          (* one character of a class *)
| Eps
| Seq (r1 r2 : regex)
| Alt (r1 r2 : regex)
| Star (greedy : bool) (r : regex)
| Group (r : regex)            (* the capturing group *)
| WordB.                       (* \b *)

Definition Plus (r : regex) : regex := Seq r (Star true r).
Definition Opt (r : regex) : regex := Alt r Eps.
Definition lit (s : str) : regex :=
  fold_right (fun c r => Seq (Chr (N.eqb c)) r) Eps s.

(** Where the matcher stands: the character before, the text ahead, how
    many characters the match has consumed, the text of the group. *)
Record mstate := MState {
  m_prev : option N;
  m_rest : str;
  m_len : nat;
  m_group : option str
}.

Definition word_at `{Unicode} (c : option N) : bool :=
  match c with Some x => u_word x | None => false end.

Fixpoint rmatch `{Unicode} (r : regex) (st : mstate)
    (k : mstate -> option mstate) : option mstate :=
  match r with
  | Chr p =>
      match m_rest st with
      | c :: s' =>
          if p c then k (MState (Some c) s' (S (m_len st)) (m_group st))
          else None
      | [] => None
      end
  | Eps => k st
  | Seq a b => rmatch a st (fun st' => rmatch b st' k)
  | Alt a b =>
      match rmatch a st k with
      | Some x => Some x
      | None => rmatch b st k
      end
  | Star greedy a =>
      (fix loop (fuel : nat) (st : mstate) : option mstate :=
         match fuel with
         | O => k st
         | S fuel' =>
             let again :=
               rmatch a st (fun st' =>
                 if (m_len st <? m_len st')%nat then loop fuel' st' else None) in
             if greedy then
               match again with Some x => Some x | None => k st end
             else
               match k st with Some x => Some x | None => again end
         end) (S (length (m_rest st))) st
  | Group a =>
      rmatch a st (fun st' =>
        k (MState (m_prev st') (m_rest st') (m_len st')
             (Some (take (m_len st' - m_len st) (m_rest st)))))
  | WordB =>
      if xorb (word_at (m_prev st)) (word_at (head (m_rest st)))
      then k st else None
  end.

(** A match: its whole text and the text of its group, if it has one. *)
Record rmatched := Matched { whole : str; group1 : option str }.

(** The text cut into unmatched characters and the successive
    non-overlapping matches, leftmost first.  [skip] counts the characters
    of the last match still to be passed over.  No pattern of this program
    matches the empty string. *)
Fixpoint scan `{Unicode} (r : regex) (skip : nat) (prev : option N) (s : str)
    : list (N + rmatched) :=
  match skip with
  | S n =>
      match s with
      | [] => []
      | c :: s' => scan r n (Some c) s'
      end
  | O =>
      match rmatch r (MState prev s 0 None) Some with
      | Some st =>
          inr (Matched (take (m_len st) s) (m_group st)) ::
          match s with
          | [] => []
          | c :: s' =>
              match m_len st with
              | O => inl c :: scan r 0 (Some c) s'
              | S n => scan r n (Some c) s'
              end
          end
      | None =>
          match s with
          | [] => []
          | c :: s' => inl c :: scan r 0 (Some c) s'
          end
      end
  end.

Definition matches `{Unicode} (r : regex) (s : str) : list rmatched :=
  omap (fun x => match x with inr m => Some m | inl _ => None end)
    (scan r 0 None s).

(** [re.sub(r, repl, s)]. *)
Definition sub_str `{Unicode} (r : regex) (repl : str) (s : str) : str :=
  flat_map (fun x => match x with inl c => [c] | inr _ => repl end)
    (scan r 0 None s).

Definition sub `{Unicode} (r : regex) (repl : str) (v : pyval) : exc str :=
  match v with
  | PStr s => Ok (sub_str r repl s)
  | _ => Raise TypeError
  end.

(** [re.findall(r, s)]: the group of each match when the pattern has one,
    the whole match otherwise. *)
Definition findall_str `{Unicode} (r : regex) (s : str) : list str :=
  map (fun m => match group1 m with Some g => g | None => whole m end)
    (matches r s).

Definition findall `{Unicode} (r : regex) (v : pyval) : exc (list str) :=
  match v with
  | PStr s => Ok (findall_str r s)
  | _ => Raise TypeError
  end.

(** [re.search(r, s)], as the truth value of its result. *)
Definition search_str `{Unicode} (r : regex) (s : str) : bool :=
  match matches r s with
  | [] => false
  | _ :: _ => true
  end.

(** Compiling a pattern written with ordinary characters, backslash
    escapes of punctuation and [\b]; [plain] tells whether a pattern stays
    within that syntax. *)
Definition metachar (c : N) : bool :=
  existsb (N.eqb c) (u ".^$*+?{}[]|()").

Fixpoint compile (p : str) : regex :=
  match p with
  | [] => Eps
  | 92 :: 98 :: p' => Seq WordB (compile p')
  | 92 :: c :: p' => Seq (Chr (N.eqb c)) (compile p')
  | c :: p' => Seq (Chr (N.eqb c)) (compile p')
  end.

Fixpoint plain (p : str) : bool :=
  match p with
  | [] => true
  | 92 :: 98 :: p' => plain p'
  | 92 :: c :: p' => metachar c && plain p'
  | c :: p' => negb (metachar c) && negb (c =? 92) && plain p'
  end.

End Re.

(** ** pandas DataFrames

    The columns in their order, each with its cells; [nrows] is the length
    of the index.  Column labels are unique, so a label names the first
    column that carries it. *)

Module Frame.
Import Py.

Record DataFrame := mkFrame {
  nrows : nat;
  columns : list (str * list pyval)
}.

(** [col in df.columns]. *)
Definition has_column (df : DataFrame) (col : str) : bool :=
  existsb (fun c => str_eqb (fst c) col) (columns df).

Fixpoint lookup_column (cs : list (str * list pyval)) (col : str)
    : option (list pyval) :=
  match cs with
  | [] => None
  | (name, cells) :: cs' =>
      if str_eqb name col then Some cells else lookup_column cs' col
  end.

(** [df[col]]. *)
Definition get_column (df : DataFrame) (col : str) : exc (list pyval) :=
  match lookup_column (columns df) col with
  | Some cells => Ok cells
  | None => Raise KeyError
  end.

Fixpoint assign (cs : list (str * list pyval)) (col : str) (cells : list pyval)
    : list (str * list pyval) :=
  match cs with
  | [] => [(col, cells)]
  | (name, old) :: cs' =>
      if str_eqb name col then (name, cells) :: cs'
      else (name, old) :: assign cs' col cells
  end.

(** [df[col] = cells]: in place when the column exists, a new last column
    otherwise. *)
Definition set_column (df : DataFrame) (col : str) (cells : list pyval)
    : DataFrame :=
  mkFrame (nrows df) (assign (columns df) col cells).

(** [df[col] = value] for a single value: one cell per row. *)
Definition set_constant (df : DataFrame) (col : str) (v : pyval) : DataFrame :=
  set_column df col (replicate (nrows df) v).

End Frame.

(** ** transformation.py *)

Module Transformation.
Import Py Re Frame.

Section Normalizers.
Context `{Unicode}.

(** [r'<.*?>']: the dot does not match a newline. *)
Definition tag_re : regex :=
  Seq (Chr (N.eqb 60))
    (Seq (Star false (Chr (fun c => negb (c =? 10)))) (Chr (N.eqb 62))).

(** [r'\s+'] *)
Definition spaces_re : regex := Plus (Chr u_space).

Definition clean_text_field (text : pyval) : exc pyval :=
  if negb (isinstance_str text) then Ok (PStr [])
  else
    text1 ← sub tag_re (u " ") text;
    text2 ← sub spaces_re (u " ") (PStr text1);
    Ok (PStr (strip text2)).

(** The pattern of the amounts: a capturing group made of [\d+], then
    [[\s\d]] any number of times, then [[\d,.]] any number of times; after
    the group one of three alternatives, each after optional whitespace: a
    euro, dollar or pound sign, then [euros?], then [euro]. *)
Definition amount_re : regex :=
  Seq
    (Group
       (Seq (Plus (Chr is_decimal))
          (Seq (Star true (Chr (fun c => u_space c || is_decimal c)))
             (Star true
                (Chr (fun c => is_decimal c || (c =? 44) || (c =? 46)))))))
    (Alt
       (Seq (Star true (Chr u_space))
          (Chr (fun c => (c =? 8364) || (c =? 36) || (c =? 163))))
       (Alt
          (Seq (Star true (Chr u_space))
             (Seq (lit (u "euro")) (Opt (Chr (N.eqb 115)))))
          (Seq (Star true (Chr u_space)) (lit (u "euro"))))).

(** [r'[^\d.]'] *)
Definition not_digit_dot_re : regex :=
  Chr (fun c => negb (is_decimal c || (c =? 46))).

(** [float(re.sub(r'[^\d.]', '', amount.replace(',', '.')))] *)
Definition amount_value (amount : str) : exc pyval :=
  q ← float_of_text (sub_str not_digit_dot_re [] (replace_char 44 [46] amount));
  Ok (PFloat q).

(** The local variables of [extract_salary_info].  A statement maps them
    to their new values and an outcome; what was assigned before an
    exception stays assigned. *)
Record locals := mkLocals {
  min_salary : pyval;
  max_salary : pyval;
  periodicity : pyval;
  currency : pyval
}.

Definition stmt := locals -> locals * exc unit.

Definition seq_stmt (a b : stmt) : stmt := fun l =>
  match a l with
  | (l', Ok _) => b l'
  | (l', Raise e) => (l', Raise e)
  end.

(** [try: body except e: pass] *)
Definition try_pass (e : exn) (body : stmt) : stmt := fun l =>
  match body l with
  | (l', Raise e') => if exn_eqb e e' then (l', Ok tt) else (l', Raise e')
  | r => r
  end.

Definition skip : stmt := fun l => (l, Ok tt).

Definition assign_to (set : pyval -> locals -> locals) (rhs : exc pyval)
    : stmt := fun l =>
  match rhs with
  | Ok v => (set v l, Ok tt)
  | Raise e => (l, Raise e)
  end.

Definition set_min (v : pyval) (l : locals) : locals :=
  mkLocals v (max_salary l) (periodicity l) (currency l).
Definition set_max (v : pyval) (l : locals) : locals :=
  mkLocals (min_salary l) v (periodicity l) (currency l).

(** The statement "Extraire min et max". *)
Definition extract_min_max (amounts : list str) : stmt :=
  if (2 <=? length amounts)%nat then
    try_pass ValueError
      (seq_stmt
         (assign_to set_min (a ← index amounts 0; amount_value a))
         (assign_to set_max (a ← index amounts 1; amount_value a)))
  else if (length amounts =? 1)%nat then
    try_pass ValueError
      (assign_to set_min (a ← index amounts 0; amount_value a))
  else skip.

Definition extract_salary_info (salary_text : pyval)
    : exc (pyval * pyval * pyval * pyval) :=
  if negb (isinstance_str salary_text) || negb (truthy salary_text) then
    Ok (PNone, PNone, PNone, PStr (u "EUR"))
  else
    low ← lower salary_text;
    amounts ← findall amount_re (PStr low);
    let periodicity' :=
      if substr (u "annuel") low || substr (u "par an") low then u "yearly"
      else if substr (u "mensuel") low || substr (u "par mois") low
      then u "monthly"
      else if substr (u "horaire") low || substr (u "de l'heure") low
      then u "hourly"
      else u "monthly" in
    pound ← contains (PStr [163]) salary_text;
    currency' ←
      (if pound : bool then Ok (u "GBP")
       else
         dollar ← contains (PStr [36]) salary_text;
         Ok (if dollar : bool then u "USD" else u "EUR"));
    match extract_min_max amounts
            (mkLocals PNone PNone (PStr periodicity') (PStr currency')) with
    | (l, Ok _) => Ok (min_salary l, max_salary l, periodicity l, currency l)
    | (_, Raise e) => Raise e
    end.

Definition interim : str := u "int" ++ [233] ++ u "rim".
Definition independant : str := u "ind" ++ [233] ++ u "pendant".

Definition categorize_contract_type (contract_text : pyval) : exc pyval :=
  if negb (isinstance_str contract_text) then Ok (PStr (u "UNKNOWN"))
  else
    contract_text ← lower contract_text;
    if substr (u "cdi") contract_text then Ok (PStr (u "CDI"))
    else if substr (u "cdd") contract_text then Ok (PStr (u "CDD"))
    else if substr interim contract_text || substr (u "interim") contract_text
    then Ok (PStr (u "INTERIM"))
    else if substr (u "apprentissage") contract_text
    then Ok (PStr (u "APPRENTICESHIP"))
    else if substr (u "stage") contract_text then Ok (PStr (u "INTERNSHIP"))
    else if substr (u "freelance") contract_text
            || substr independant contract_text
    then Ok (PStr (u "FREELANCE"))
    else if substr (u "temps partiel") contract_text
    then Ok (PStr (u "PART_TIME"))
    else if substr (u "temps plein") contract_text
    then Ok (PStr (u "FULL_TIME"))
    else Ok (PStr (u "OTHER")).

(** [any(term in description for term in terms)] *)
Definition any_in (terms : list str) (description : str) : bool :=
  existsb (fun term => substr term description) terms.

Definition entry_terms : list str :=
  [u "d" ++ [233] ++ u "butant"; u "junior"; u "0-2 ans";
   u "0 " ++ [224] ++ u " 2 ans"].
Definition mid_terms : list str :=
  [u "confirm" ++ [233]; u "2-5 ans"; u "2 " ++ [224] ++ u " 5 ans";
   u "3 ans"].
Definition senior_terms : list str :=
  [u "senior"; u "5-10 ans"; u "5 " ++ [224] ++ u " 10 ans";
   u "exp" ++ [233] ++ u "riment" ++ [233]].
Definition expert_terms : list str :=
  [u "expert"; u "+ de 10 ans"; u "plus de 10 ans"].

Definition extract_experience_level (description : pyval) : exc pyval :=
  if negb (isinstance_str description) then Ok (PStr (u "NOT_SPECIFIED"))
  else
    description ← lower description;
    if any_in entry_terms description then Ok (PStr (u "ENTRY"))
    else if any_in mid_terms description then Ok (PStr (u "MID"))
    else if any_in senior_terms description then Ok (PStr (u "SENIOR"))
    else if any_in expert_terms description then Ok (PStr (u "EXPERT"))
    else Ok (PStr (u "NOT_SPECIFIED")).

(** The default [keyword_list]. *)
Definition default_keywords : list str :=
  map u
    ["python"; "java"; "javascript"; "c\+\+"; "c#"; "php"; "ruby"; "swift";
     "django"; "flask"; "spring"; "react"; "angular"; "vue"; "laravel";
     "sql"; "postgresql"; "mysql"; "mongodb"; "oracle"; "sqlite";
     "aws"; "azure"; "gcp"; "cloud";
     "data science"; "machine learning"; "deep learning"; "ai"; "big data";
     "devops"; "docker"; "kubernetes"; "jenkins"; "git"; "ci/cd"]%string.

(** [extract_keywords(description)], with the default [keyword_list]. *)
Definition extract_keywords (description : pyval) : exc pyval :=
  if negb (isinstance_str description) || negb (truthy description) then
    Ok (PList [])
  else
    description_lower ← lower description;
    Ok (PList
          (map (fun k => PStr k)
             (List.filter
                (fun keyword =>
                   search_str (compile (u "\b" ++ keyword ++ u "\b"))
                     description_lower)
                default_keywords))).

Definition main_techs : list str :=
  map u ["python"; "java"; "javascript"; "sql"; "aws"; "machine learning"]%string.

(** [f'has_{tech.replace(" ", "_")}'] *)
Definition has_column_name (tech : str) : str :=
  u "has_" ++ replace_char 32 [95] tech.

(** One turn of the loop over [main_techs]. *)
Definition flag_tech (df : DataFrame) (tech : str) : exc DataFrame :=
  kws ← get_column df (u "extracted_keywords");
  flags ← mapM (fun x => b ← contains (PStr tech) x;
                         Ok (PInt (if b : bool then 1 else 0))) kws;
  Ok (set_column df (has_column_name tech) flags).

Fixpoint for_each {A S} (f : S -> A -> exc S) (xs : list A) (s : S) : exc S :=
  match xs with
  | [] => Ok s
  | x :: xs' => s' ← f s x; for_each f xs' s'
  end.

Definition apply_keyword_analysis (df : option DataFrame)
    : exc (option DataFrame) :=
  match df with
  | None => Ok None
  | Some d =>
      if negb (has_column d (u "description_clean")) then Ok (Some d)
      else
        descriptions ← get_column d (u "description_clean");
        kws ← mapM extract_keywords descriptions;
        let d := set_column d (u "extracted_keywords") kws in
        d ← for_each flag_tech main_techs d;
        kws ← get_column d (u "extracted_keywords");
        counts ← mapM len kws;
        Ok (Some (set_column d (u "keyword_count") counts))
  end.

End Normalizers.
End Transformation.

(** ** extraction.py *)

Module Extraction.
Import Py.

(** What a [set] of ids compares: [==] identifies [True] with [1] and
    [False] with [0]. *)
Abbreviation key := (option (Z + list N)).

Definition set_key (a : scalar) : key :=
  match a with
  | SNone => None
  | SBool b => Some (inl (if b then 1 else 0)%Z)
  | SInt z => Some (inl z)
  | SStr s => Some (inr s)
  end.

Section Extract.

(** A path, and what a posting holds besides its id. *)
Variable path : Type.
Variable payload : Type.

(** A posting: a JSON object, with its ['id'] entry when it has one. *)
Record offer := mkOffer {
  offer_id : option scalar;
  offer_rest : payload
}.

(** [offer.get('id')] *)
Definition get_id (o : offer) : scalar :=
  match offer_id o with
  | Some a => a
  | None => SNone
  end.

(** A batch document: a JSON object, with its ['resultats'] array when it
    has one. *)
Record document := mkDocument {
  resultats : option (list offer)
}.

(** The file system: what [read_json_file] returns for a path ([None] for
    a file that cannot be read or parsed), and the listing
    [list_raw_data_files()] of the default directory. *)
Variable read_json_file : path -> option document.
Variable list_raw_data_files : list path.

(** [extract_job_offers]: an empty document is falsy and has no
    ['resultats'], so both guards of the source give the empty list. *)
Definition extract_job_offers (file_path : path) : list offer :=
  match read_json_file file_path with
  | None => []
  | Some data =>
      match resultats data with
      | Some offers => offers
      | None => []
      end
  end.

(** The body of the inner loop, on [(all_offers, job_ids)]. *)
Definition visit (st : list offer * gset key) (o : offer)
    : list offer * gset key :=
  let offer_id := get_id o in
  if scalar_truthy offer_id && bool_decide (set_key offer_id ∉ st.2)
  then (st.1 ++ [o], {[set_key offer_id]} ∪ st.2)
  else st.

(** [extract_jobs_to_dataframe]; the DataFrame is given by its rows, one
    per collected posting. *)
Definition extract_jobs_to_dataframe (file_list : option (list path))
    : option (list offer) :=
  let file_list :=
    match file_list with
    | None | Some [] => list_raw_data_files
    | Some l => l
    end in
  match file_list with
  | [] => None
  | _ =>
      let '(all_offers, _) :=
        fold_left
          (fun st file_path => fold_left visit (extract_job_offers file_path) st)
          file_list ([], ∅) in
      match all_offers with
      | [] => None
      | _ => Some all_offers
      end
  end.

(** The batches that a call processes, and their postings in the order of
    iteration. *)
Definition processed (file_list : option (list path)) : list path :=
  match file_list with
  | None | Some [] => list_raw_data_files
  | Some l => l
  end.

Definition postings (files : list path) : list offer :=
  flat_map extract_job_offers files.

End Extract.

Arguments mkOffer {payload} _ _.
Arguments offer_id {payload} _.
Arguments offer_rest {payload} _.
Arguments get_id {payload} _.
Arguments mkDocument {payload} _.
Arguments resultats {payload} _.
Arguments extract_job_offers {path payload} _ _.
Arguments visit {payload} _ _.
Arguments extract_jobs_to_dataframe {path payload} _ _ _.
Arguments processed {path} _ _.
Arguments postings {path payload} _ _.

End Extraction.

(** ** loading.py *)

Module Loading.
Import Py Frame.

Definition column_mapping : list (str * str) :=
  map (fun p => (u (fst p), u (snd p)))
    [("id", "id");
     ("intitule", "intitule");
     ("description_clean", "description_clean");
     ("entreprise_clean", "entreprise_clean");
     ("lieuTravail", "lieu_travail");
     ("typeContrat", "type_contrat");
     ("contract_type_std", "contract_type_std");
     ("experience_level", "experience_level");
     ("min_salary", "min_salary");
     ("max_salary", "max_salary");
     ("salary_periodicity", "salary_periodicity");
     ("currency", "currency");
     ("dateCreation_iso", "date_creation");
     ("dateActualisation_iso", "date_actualisation");
     ("keyword_count", "keyword_count");
     ("has_python", "has_python");
     ("has_java", "has_java");
     ("has_javascript", "has_javascript");
     ("has_sql", "has_sql");
     ("has_aws", "has_aws");
     ("has_machine_learning", "has_machine_learning");
     ("etl_timestamp", "etl_timestamp")]%string.

Definition date_columns : list str :=
  map u ["date_creation"; "date_actualisation"; "etl_timestamp"]%string.

(** [column_mapping[col]] *)
Fixpoint mapping_get (m : list (str * str)) (col : str) : exc str :=
  match m with
  | [] => Raise KeyError
  | (k, v) :: m' => if str_eqb k col then Ok v else mapping_get m' col
  end.

Section Prepare.

(** [pd.to_datetime(column, errors='coerce')], on the cells of a column. *)
Variable to_datetime : list pyval -> list pyval.

(** [df[columns_to_keep].copy()] with its columns renamed. *)
Definition select_renamed (df : DataFrame) (columns_to_keep : list str)
    : exc DataFrame :=
  cols ← mapM (fun col =>
                 cells ← get_column df col;
                 name ← mapping_get column_mapping col;
                 Ok (name, cells)) columns_to_keep;
  Ok (mkFrame (nrows df) cols).

Definition fill_missing (result_df : DataFrame) (target_col : str)
    : DataFrame :=
  if negb (has_column result_df target_col)
  then set_constant result_df target_col PNone
  else result_df.

Definition convert_date (result_df : DataFrame) (col : str) : exc DataFrame :=
  if has_column result_df col then
    cells ← get_column result_df col;
    Ok (set_column result_df col (to_datetime cells))
  else Ok result_df.

Definition prepare_job_data_for_loading (df : option DataFrame)
    : exc (option DataFrame) :=
  match df with
  | None => Ok None
  | Some df =>
      if (nrows df =? 0)%nat then Ok None
      else
        let columns_to_keep :=
          List.filter (fun col => has_column df col)
            (map fst column_mapping) in
        if (length columns_to_keep =? 0)%nat then Ok None
        else
          result_df ← select_renamed df columns_to_keep;
          let result_df :=
            fold_left fill_missing (map snd column_mapping) result_df in
          let result_df :=
            set_constant result_df (u "source") (PStr (u "FRANCE_TRAVAIL")) in
          result_df ← Transformation.for_each convert_date date_columns result_df;
          Ok (Some result_df)
  end.

End Prepare.

(** *** The orchestrator

    [execute_etl_pipeline] sees its stages as black boxes; each call of a
    stage is recorded. *)

Inductive stage :=
| extract_by_date_range
| transform_job_dataframe
| apply_keyword_analysis
| prepare_job_data
| get_db_connection
| create_jobs_table
| load_jobs_to_database.

(** A computation with the stages it ran, in order. *)
Definition traced (A : Type) : Type := A * list stage.

#[global] Instance traced_ret : MRet traced := fun A a => (a, []).
#[global] Instance traced_bind : MBind traced := fun A B f m =>
  let '(b, t) := f m.1 in (b, m.2 ++ t).

Definition call {A} (s : stage) (result : A) : traced A := (result, [s]).

Section Pipeline.

Variables frame engine : Type.

(** The outcomes of the stages, and the day [datetime.now()] gives. *)
Variable today : str.
Variable run_extract_by_date_range : str -> option str -> option frame.
Variable run_transform_job_dataframe : frame -> option frame.
Variable run_apply_keyword_analysis : frame -> option frame.
Variable run_prepare_job_data_for_loading : frame -> option frame.
Variable run_get_db_connection : option engine.
Variable run_create_jobs_table : engine -> bool.
Variable run_load_jobs_to_database : frame -> engine -> Z.

Definition execute_etl_pipeline (start_date end_date : option str)
    : traced Z :=
  let start_date :=
    match start_date with
    | None | Some [] => today
    | Some d => d
    end in
  raw_df ← call extract_by_date_range
             (run_extract_by_date_range start_date end_date);
  match raw_df with
  | None => mret 0%Z
  | Some raw_df =>
      transformed_df ← call transform_job_dataframe
                         (run_transform_job_dataframe raw_df);
      transformed_df ←
        match transformed_df with
        | Some t => call apply_keyword_analysis (run_apply_keyword_analysis t)
        | None => mret None
        end;
      match transformed_df with
      | None => mret 0%Z
      | Some transformed_df =>
          load_ready_df ← call prepare_job_data
                            (run_prepare_job_data_for_loading transformed_df);
          match load_ready_df with
          | None => mret 0%Z
          | Some load_ready_df =>
              engine ← call get_db_connection run_get_db_connection;
              match engine with
              | None => mret 0%Z
              | Some engine =>
                  table_exists ← call create_jobs_table
                                   (run_create_jobs_table engine);
                  if negb table_exists then mret 0%Z
                  else
                    call load_jobs_to_database
                      (run_load_jobs_to_database load_ready_df engine)
              end
          end
      end
  end.

End Pipeline.

End Loading.

(** * Properties *)

(** ** The normalisers *)

Section NormalizerFacts.
Import Py Re Frame Transformation.
Context {U : Unicode}.

Lemma amount_value_raises (a : str) (e : exn) :
  amount_value a = Raise e -> e = ValueError.
Proof.
  unfold amount_value, float_of_text.
  destruct (digits_value 0 _) as [ip [|c frac]]; cbn.
  - destruct (sub_str _ _ _); cbn; congruence.
  - destruct (c =? 46); cbn; [|congruence].
    destruct (digits_value ip frac) as [n [|? ?]]; cbn; [|congruence].
    destruct (sub_str _ _ _) as [|? [|? ?]]; cbn; congruence.
Qed.

(** What the statement "Extraire min et max" leaves in [min_salary] and
    [max_salary], read off the matched amounts: only the first two are
    looked at, and the second only after the first has parsed. *)
Definition min_max_of (amounts : list str) : pyval * pyval :=
  match amounts with
  | [] => (PNone, PNone)
  | [a] =>
      match amount_value a with
      | Ok v => (v, PNone)
      | Raise _ => (PNone, PNone)
      end
  | a :: b :: _ =>
      match amount_value a with
      | Ok v =>
          match amount_value b with
          | Ok w => (v, w)
          | Raise _ => (v, PNone)
          end
      | Raise _ => (PNone, PNone)
      end
  end.

Lemma extract_min_max_run (amounts : list str) (p c : pyval) :
  extract_min_max amounts (mkLocals PNone PNone p c) =
  (mkLocals (min_max_of amounts).1 (min_max_of amounts).2 p c, Ok tt).
Proof.
  unfold extract_min_max.
  destruct amounts as [|a [|b rest]]; cbn.
  - reflexivity.
  - unfold try_pass, assign_to; cbn.
    destruct (amount_value a) as [v|e] eqn:E; cbn; [reflexivity|].
    apply amount_value_raises in E; subst e; reflexivity.
  - unfold try_pass, seq_stmt, assign_to; cbn.
    destruct (amount_value a) as [v|e] eqn:E; cbn.
    + destruct (amount_value b) as [w|e] eqn:E'; cbn; [reflexivity|].
      apply amount_value_raises in E'; subst e; reflexivity.
    + apply amount_value_raises in E; subst e; reflexivity.
Qed.

(** The guess of the periodicity and the currency, as the source orders
    its tests. *)
Definition periodicity_of (low : str) : str :=
  if substr (u "annuel") low || substr (u "par an") low then u "yearly"
  else if substr (u "mensuel") low || substr (u "par mois") low
  then u "monthly"
  else if substr (u "horaire") low || substr (u "de l'heure") low
  then u "hourly"
  else u "monthly".

Definition currency_of (text : str) : str :=
  if substr [163] text then u "GBP"
  else if substr [36] text then u "USD" else u "EUR".

Lemma extract_salary_info_str (c : N) (s : str) :
  extract_salary_info (PStr (c :: s)) =
  Ok ((min_max_of (findall_str amount_re (u_lower (c :: s)))).1,
      (min_max_of (findall_str amount_re (u_lower (c :: s)))).2,
      PStr (periodicity_of (u_lower (c :: s))),
      PStr (currency_of (c :: s))).
Proof.
  unfold extract_salary_info; cbn -[findall_str amount_re substr u].
  unfold currency_of.
  destruct (substr [163] (c :: s)); cbn -[findall_str amount_re substr u].
  - rewrite extract_min_max_run. reflexivity.
  - destruct (substr [36] (c :: s)); cbn -[findall_str amount_re substr u];
      rewrite extract_min_max_run; reflexivity.
Qed.

Lemma extract_salary_info_degenerate (v : pyval) :
  isinstance_str v = false \/ v = PStr [] ->
  extract_salary_info v = Ok (PNone, PNone, PNone, PStr (u "EUR")).
Proof.
  intros [Hv | ->]; [|reflexivity].
  unfold extract_salary_info. rewrite Hv. reflexivity.
Qed.

End NormalizerFacts.

Section SalaryClaims.
Import Py Re Frame Transformation.

(** C2, as the code has it: when exactly one amount is matched in a
    non-empty salary text and it parses as the number [q],
    [extract_salary_info] returns [q] as the minimum and leaves the maximum
    at [None]. *)
Theorem extract_salary_info_single_amount
    (U : Unicode) (c : N) (s : str) (t : str) (q : Q) :
  findall_str amount_re (u_lower (c :: s)) = [t] ->
  amount_value t = Ok (PFloat q) ->
  exists p cur,
    extract_salary_info (PStr (c :: s)) = Ok (PFloat q, PNone, PStr p, PStr cur).
Proof.
  intros Hfind Hval.
  exists (periodicity_of (u_lower (c :: s))), (currency_of (c :: s)).
  rewrite extract_salary_info_str, Hfind.
  unfold min_max_of. rewrite Hval. reflexivity.
Qed.

Lemma extract_salary_info_single_amount_witness :
  findall_str amount_re (u_lower (u "45000 euros")) = [u "45000 "] /\
  amount_value (u "45000 ") = Ok (PFloat 45000) /\
  exists p cur,
    extract_salary_info (PStr (u "45000 euros")) =
    Ok (PFloat 45000, PNone, PStr p, PStr cur).
Proof.
  split; [vm_compute; reflexivity|].
  split; [vm_compute; reflexivity|].
  apply (extract_salary_info_single_amount latin1 52 (u "5000 euros")
           (u "45000 ") 45000); vm_compute; reflexivity.
Defined.

(** C2 as stated fails: on ["45000 euros"] one amount is matched, it parses
    as 45000, and the maximum returned is [None], not 45000. *)
Lemma single_amount_leaves_max_none :
  findall_str amount_re (u_lower (u "45000 euros")) = [u "45000 "] /\
  amount_value (u "45000 ") = Ok (PFloat 45000) /\
  extract_salary_info (PStr (u "45000 euros")) =
    Ok (PFloat 45000, PNone, PStr (u "monthly"), PStr (u "EUR")) /\
  PNone <> PFloat 45000.
Proof.
  repeat split; try (vm_compute; reflexivity). discriminate.
Qed.

(** C3, as the code has it: an amount that does not parse never raises and
    never fails the record, and only the first two matched amounts are
    looked at.  If the first does not parse, minimum and maximum both stay
    [None]; if the first parses and the second does not, the minimum is set
    and the maximum stays [None]; if both parse they are the minimum and
    the maximum; a single amount that parses is the minimum alone. *)
Theorem extract_salary_info_unparseable_amount
    (U : Unicode) (c : N) (s : str) :
  exists mn mx p cur,
    extract_salary_info (PStr (c :: s)) = Ok (mn, mx, PStr p, PStr cur) /\
    (findall_str amount_re (u_lower (c :: s)) = [] ->
       mn = PNone /\ mx = PNone) /\
    (forall a rest,
       findall_str amount_re (u_lower (c :: s)) = a :: rest ->
       amount_value a = Raise ValueError -> mn = PNone /\ mx = PNone) /\
    (forall a v,
       findall_str amount_re (u_lower (c :: s)) = [a] ->
       amount_value a = Ok v -> mn = v /\ mx = PNone) /\
    (forall a b rest v,
       findall_str amount_re (u_lower (c :: s)) = a :: b :: rest ->
       amount_value a = Ok v -> amount_value b = Raise ValueError ->
       mn = v /\ mx = PNone) /\
    (forall a b rest v w,
       findall_str amount_re (u_lower (c :: s)) = a :: b :: rest ->
       amount_value a = Ok v -> amount_value b = Ok w ->
       mn = v /\ mx = w).
Proof.
  eexists _, _, _, _. split; [apply extract_salary_info_str|].
  repeat split; intros;
    repeat match goal with
           | E : findall_str _ _ = _ |- _ => rewrite E; clear E
           end;
    unfold min_max_of;
    repeat match goal with
           | E : amount_value _ = _ |- _ => rewrite E; clear E
           end;
    try reflexivity;
    match goal with
    | |- context [match ?l with [] => _ | _ :: _ => _ end] =>
        destruct l; reflexivity
    end.
Qed.

(** C3 as stated fails: in ["1.2.3 € 500 €"] two amounts are matched, the
    first does not parse and the second parses as 500; the code returns no
    minimum, whereas the amounts with the unparseable one removed give the
    minimum 500. *)
Lemma unparseable_first_amount_hides_second :
  findall_str amount_re
    (u_lower (u "1.2.3 " ++ [8364] ++ u " 500 " ++ [8364])) =
    [u "1.2.3"; u "500 "] /\
  amount_value (u "1.2.3") = Raise ValueError /\
  amount_value (u "500 ") = Ok (PFloat 500) /\
  extract_salary_info (PStr (u "1.2.3 " ++ [8364] ++ u " 500 " ++ [8364])) =
    Ok (PNone, PNone, PStr (u "monthly"), PStr (u "EUR")) /\
  min_salary
    (extract_min_max [u "500 "]
       (mkLocals PNone PNone (PStr (u "monthly")) (PStr (u "EUR")))).1 =
    PFloat 500.
Proof.
  repeat split; vm_compute; reflexivity.
Qed.

(** C10: on a value that is not a string, and on the empty string,
    [extract_salary_info] returns [(None, None, None, "EUR")]; on a
    non-empty string the periodicity is never [None], and it is the
    default ["monthly"] when the text has no periodicity marker. *)
Theorem extract_salary_info_no_text (U : Unicode) :
  (forall v,
     isinstance_str v = false \/ v = PStr [] ->
     extract_salary_info v = Ok (PNone, PNone, PNone, PStr (u "EUR"))) /\
  (forall c s,
     exists mn mx cur,
       extract_salary_info (PStr (c :: s)) =
       Ok (mn, mx, PStr (periodicity_of (u_lower (c :: s))), cur)) /\
  (forall low,
     substr (u "annuel") low = false -> substr (u "par an") low = false ->
     substr (u "mensuel") low = false -> substr (u "par mois") low = false ->
     substr (u "horaire") low = false -> substr (u "de l'heure") low = false ->
     periodicity_of low = u "monthly").
Proof.
  split; [apply extract_salary_info_degenerate|].
  split.
  - intros c s. eexists _, _, _. apply extract_salary_info_str.
  - intros low H1 H2 H3 H4 H5 H6. unfold periodicity_of.
    rewrite H1, H2, H3, H4, H5, H6. reflexivity.
Qed.

End SalaryClaims.

Section ClassifierClaims.
Import Py Re Frame Transformation.

(** The contract-type markers in their priority order, each group with
    its standardized type. *)
Definition contract_markers : list (list str * str) :=
  [([u "cdi"], u "CDI");
   ([u "cdd"], u "CDD");
   ([interim; u "interim"], u "INTERIM");
   ([u "apprentissage"], u "APPRENTICESHIP");
   ([u "stage"], u "INTERNSHIP");
   ([u "freelance"; independant], u "FREELANCE");
   ([u "temps partiel"], u "PART_TIME");
   ([u "temps plein"], u "FULL_TIME")].

(** The type of the first group one of whose markers occurs in the
    lowercased text; [OTHER] when there is none. *)
Definition first_marker_type (low : str) : str :=
  match List.find (fun g => existsb (fun m => substr m low) g.1)
          contract_markers with
  | Some g => g.2
  | None => u "OTHER"
  end.

(** C4: on a string, [categorize_contract_type] returns the type of the
    first marker group, in the priority order, with a marker that is a
    substring of the lowercased text, and [OTHER] when no marker occurs;
    on anything but a string it returns [UNKNOWN]; and
    [categorize_contract_type("CDI temps plein")] is ["CDI"]. *)
Theorem categorize_contract_type_first_marker :
  (forall (U : Unicode) (s : str),
     categorize_contract_type (PStr s) =
     Ok (PStr (first_marker_type (u_lower s)))) /\
  (forall low : str,
     Forall (fun g => Forall (fun m => substr m low = false) g.1)
       contract_markers ->
     first_marker_type low = u "OTHER") /\
  (forall (U : Unicode) (v : pyval),
     isinstance_str v = false ->
     categorize_contract_type v = Ok (PStr (u "UNKNOWN"))) /\
  @categorize_contract_type latin1 (PStr (u "CDI temps plein")) =
    Ok (PStr (u "CDI")).
Proof.
  split; [|split; [|split]].
  - intros U s. unfold categorize_contract_type, first_marker_type.
    cbn -[substr u interim independant].
    repeat (destruct (substr _ (u_lower s));
            cbn -[substr u interim independant]; try reflexivity).
  - intros low Hall. unfold first_marker_type, contract_markers in *.
    repeat match goal with
           | H : Forall _ (_ :: _) |- _ =>
               apply Forall_cons_1 in H; destruct H;
               cbn -[substr u interim independant] in *
           end.
    cbn -[substr u interim independant] in *.
    repeat match goal with
           | H : substr _ low = false |- _ => rewrite H; clear H
           end.
    reflexivity.
  - intros U v Hv. unfold categorize_contract_type. rewrite Hv. reflexivity.
  - vm_compute. reflexivity.
Qed.

(** C7: whatever the value, [None] and the other non-strings included,
    each normaliser returns and does not raise; a value that is not a
    string gives the empty string, [(None, None, None, "EUR")], [UNKNOWN],
    [NOT_SPECIFIED] and the empty list. *)
Theorem normalizers_never_raise (U : Unicode) (v : pyval) :
  ((exists r, clean_text_field v = Ok (PStr r)) /\
   (isinstance_str v = false -> clean_text_field v = Ok (PStr []))) /\
  ((exists mn mx p cur, extract_salary_info v = Ok (mn, mx, p, PStr cur)) /\
   (isinstance_str v = false ->
    extract_salary_info v = Ok (PNone, PNone, PNone, PStr (u "EUR")))) /\
  ((exists r, categorize_contract_type v = Ok (PStr r)) /\
   (isinstance_str v = false ->
    categorize_contract_type v = Ok (PStr (u "UNKNOWN")))) /\
  ((exists r, extract_experience_level v = Ok (PStr r)) /\
   (isinstance_str v = false ->
    extract_experience_level v = Ok (PStr (u "NOT_SPECIFIED")))) /\
  ((exists l, extract_keywords v = Ok (PList l)) /\
   (isinstance_str v = false -> extract_keywords v = Ok (PList []))).
Proof.
  repeat split.
  - unfold clean_text_field.
    destruct (isinstance_str v) eqn:Hv; cbn; [|eauto].
    destruct v as [[| | |s]| |]; try discriminate. cbn. eauto.
  - intros Hv. unfold clean_text_field. rewrite Hv. reflexivity.
  - destruct (isinstance_str v) eqn:Hv.
    + destruct v as [[| | |[|c s]]| |]; try discriminate.
      * eexists _, _, _, _. reflexivity.
      * rewrite extract_salary_info_str. eauto.
    + rewrite extract_salary_info_degenerate by auto. eauto.
  - intros Hv. apply extract_salary_info_degenerate. auto.
  - destruct v as [[| | |s]| |]; try (cbn; eauto; fail).
    unfold categorize_contract_type. cbn -[substr u interim independant].
    repeat (destruct (substr _ (u_lower s));
            cbn -[substr u interim independant]; eauto).
  - intros Hv. unfold categorize_contract_type. rewrite Hv. reflexivity.
  - destruct v as [[| | |s]| |]; try (cbn; eauto; fail).
    unfold extract_experience_level. cbn -[any_in u].
    repeat (destruct (any_in _ (u_lower s)); cbn -[any_in u]; eauto).
  - intros Hv. unfold extract_experience_level. rewrite Hv. reflexivity.
  - destruct v as [[| | |s]| |]; try (cbn; eauto; fail).
    unfold extract_keywords. cbn -[default_keywords search_str truthy].
    destruct (truthy (PStr s)); cbn -[default_keywords search_str]; eauto.
  - intros Hv. unfold extract_keywords. rewrite Hv. reflexivity.
Qed.

End ClassifierClaims.

(** ** Columns of a DataFrame *)

Section FrameFacts.
Import Py Frame.

Lemma str_eqb_eq (a b : str) : str_eqb a b = true <-> a = b.
Proof.
  revert b; induction a as [|x a IH]; intros [|y b]; cbn; split;
    try congruence; try discriminate.
  - intros [Hxy Hab]%andb_prop. apply N.eqb_eq in Hxy. apply IH in Hab.
    congruence.
  - intros [= -> ->]. rewrite N.eqb_refl. apply IH. reflexivity.
Qed.

Lemma str_eqb_refl (a : str) : str_eqb a a = true.
Proof. apply str_eqb_eq. reflexivity. Qed.

Lemma str_eqb_neq (a b : str) : str_eqb a b = false <-> a <> b.
Proof.
  rewrite <- str_eqb_eq. destruct (str_eqb a b); split; congruence.
Qed.

Lemma has_column_lookup (df : DataFrame) (col : str) :
  has_column df col = true <-> exists cells, lookup_column (columns df) col = Some cells.
Proof.
  unfold has_column. induction (columns df) as [|[name cells] cs IH]; cbn.
  - split; [discriminate | intros [? [=]]].
  - destruct (str_eqb name col); cbn; [split; eauto | exact IH].
Qed.

Lemma has_column_false (df : DataFrame) (col : str) :
  has_column df col = false <-> lookup_column (columns df) col = None.
Proof.
  pose proof (has_column_lookup df col) as [Hl Hr].
  destruct (has_column df col), (lookup_column (columns df) col) eqn:E;
    split; intros; try congruence.
  - destruct (Hl eq_refl); congruence.
  - assert (false = true) by eauto. discriminate.
Qed.

Lemma lookup_assign cs col cells col' :
  lookup_column (assign cs col cells) col' =
  if str_eqb col col' then Some cells else lookup_column cs col'.
Proof.
  induction cs as [|[name old] cs IH]; cbn.
  - destruct (str_eqb col col'); reflexivity.
  - destruct (str_eqb name col) eqn:E; cbn.
    + apply str_eqb_eq in E; subst name.
      destruct (str_eqb col col'); reflexivity.
    + rewrite IH. destruct (str_eqb name col') eqn:E'; [|reflexivity].
      destruct (str_eqb col col') eqn:E''; [|reflexivity].
      apply str_eqb_eq in E', E''. subst.
      rewrite str_eqb_refl in E. discriminate.
Qed.

Lemma assign_same cs col cells :
  lookup_column cs col = Some cells -> assign cs col cells = cs.
Proof.
  induction cs as [|[name old] cs IH]; cbn; [discriminate|].
  destruct (str_eqb name col).
  - intros [= ->]. reflexivity.
  - intros Hl. rewrite IH by assumption. reflexivity.
Qed.

Lemma names_assign cs col cells name :
  In name (map fst (assign cs col cells)) ->
  name = col \/ In name (map fst cs).
Proof.
  induction cs as [|[n old] cs IH]; cbn.
  - intros [<-|[]]. auto.
  - destruct (str_eqb n col); cbn; intros [<-|Hin]; auto.
    destruct (IH Hin); auto.
Qed.

(** Some assignments in a row: the last one to a label is the one a
    lookup finds. *)
Definition assign_all (cs new : list (str * list pyval)) :=
  fold_left (fun cs p => assign cs p.1 p.2) new cs.

Lemma lookup_column_app cs cs' col :
  lookup_column (cs ++ cs') col =
  match lookup_column cs col with
  | Some cells => Some cells
  | None => lookup_column cs' col
  end.
Proof.
  induction cs as [|[name cells] cs IH]; cbn; [reflexivity|].
  destruct (str_eqb name col); auto.
Qed.

Lemma lookup_assign_all new cs col :
  lookup_column (assign_all cs new) col =
  match lookup_column (rev new) col with
  | Some cells => Some cells
  | None => lookup_column cs col
  end.
Proof.
  unfold assign_all. revert cs.
  induction new as [|[name cells] new IH]; intros cs; cbn; [reflexivity|].
  rewrite IH, lookup_column_app, lookup_assign. cbn.
  destruct (lookup_column (rev new) col); [reflexivity|].
  destruct (str_eqb name col); reflexivity.
Qed.

Lemma assign_all_same new cs :
  Forall (fun p => lookup_column cs p.1 = Some p.2) new ->
  assign_all cs new = cs.
Proof.
  unfold assign_all. induction 1 as [|[name cells] new Hp _ IH]; cbn.
  - reflexivity.
  - cbn in Hp. rewrite assign_same by assumption. exact IH.
Qed.

Lemma bind_ok {A B} (a : A) (f : A -> exc B) : (Ok a ≫= f) = f a.
Proof. reflexivity. Qed.

Lemma mapM_pure {A B} (f : A -> exc B) (g : A -> B) (xs : list A) :
  (forall x, In x xs -> f x = Ok (g x)) -> mapM f xs = Ok (map g xs).
Proof.
  induction xs as [|x xs IH]; cbn; intros Hf; [reflexivity|].
  rewrite Hf by auto. cbn. rewrite IH by auto. reflexivity.
Qed.

End FrameFacts.

(** ** The keyword pass *)

Section KeywordAnalysis.
Import Py Re Frame Transformation.
Context {U : Unicode}.

(** The keywords [extract_keywords] finds in a cell. *)
Definition keyword_list (v : pyval) : list pyval :=
  match extract_keywords v with
  | Ok (PList l) => l
  | _ => []
  end.

Lemma extract_keywords_list (v : pyval) :
  extract_keywords v = Ok (PList (keyword_list v)).
Proof.
  assert (exists l, extract_keywords v = Ok (PList l)) as [l Hl].
  { destruct v as [[| | |s]| |]; try (cbn; eauto; fail).
    unfold extract_keywords. cbn -[default_keywords search_str truthy].
    destruct (truthy (PStr s)); cbn -[default_keywords search_str]; eauto. }
  unfold keyword_list. rewrite Hl. reflexivity.
Qed.

Definition flag (tech : str) (keywords : list pyval) : pyval :=
  PInt (if existsb (py_eq (PStr tech)) keywords then 1 else 0).

Definition count (keywords : list pyval) : pyval :=
  PInt (Z.of_nat (length keywords)).

Definition flag_columns (techs : list str) (kws : list (list pyval)) :=
  map (fun t => (has_column_name t, map (flag t) kws)) techs.

(** The columns the pass writes, in the order it writes them, from the
    cells of [description_clean]. *)
Definition derived_columns (cells : list pyval) : list (str * list pyval) :=
  (u "extracted_keywords", map PList (map keyword_list cells)) ::
  flag_columns main_techs (map keyword_list cells) ++
  [(u "keyword_count", map count (map keyword_list cells))].

Definition keyword_columns : list str :=
  u "extracted_keywords" :: map has_column_name main_techs ++
  [u "keyword_count"].

Lemma mapM_flags tech kws :
  mapM (fun x => b ← contains (PStr tech) x;
                 Ok (PInt (if b : bool then 1 else 0))) (map PList kws) =
  Ok (map (flag tech) kws).
Proof.
  induction kws as [|l kws IH]; [reflexivity|].
  cbn [map mapM]. rewrite IH. reflexivity.
Qed.

Lemma mapM_len kws : mapM len (map PList kws) = Ok (map count kws).
Proof.
  induction kws as [|l kws IH]; [reflexivity|].
  cbn [map mapM]. rewrite IH. reflexivity.
Qed.

Lemma has_name_not_keywords tech :
  str_eqb (has_column_name tech) (u "extracted_keywords") = false.
Proof. reflexivity. Qed.

Lemma flag_tech_step kws d t :
  lookup_column (columns d) (u "extracted_keywords") = Some (map PList kws) ->
  flag_tech d t = Ok (set_column d (has_column_name t) (map (flag t) kws)).
Proof.
  intros Hk. unfold flag_tech, get_column. rewrite Hk.
  cbn [mbind exc_bind]. rewrite mapM_flags. reflexivity.
Qed.

Lemma for_each_flag_tech kws techs d :
  lookup_column (columns d) (u "extracted_keywords") = Some (map PList kws) ->
  for_each flag_tech techs d =
  Ok (mkFrame (nrows d) (assign_all (columns d) (flag_columns techs kws))).
Proof.
  revert d. induction techs as [|t techs IH]; intros d Hk.
  - destruct d. reflexivity.
  - cbn [for_each]. rewrite (flag_tech_step kws) by assumption.
    cbn [mbind exc_bind]. rewrite IH; [reflexivity|].
    cbn [set_column columns nrows].
    rewrite lookup_assign, has_name_not_keywords. exact Hk.
Qed.

(** Comparing two labels that are both known. *)
Ltac label_eq :=
  repeat match goal with
         | |- context [str_eqb ?a ?b] =>
             let r := eval vm_compute in (str_eqb a b) in
             change (str_eqb a b) with r
         end.

Ltac lookup_derived :=
  unfold derived_columns, flag_columns, main_techs;
  repeat (cbn [rev app map lookup_column fst snd]; label_eq).

Lemma get_column_found d col cells :
  lookup_column (columns d) col = Some cells -> get_column d col = Ok cells.
Proof. intros Hl. unfold get_column. rewrite Hl. reflexivity. Qed.

Lemma apply_keyword_analysis_columns d cells :
  lookup_column (columns d) (u "description_clean") = Some cells ->
  apply_keyword_analysis (Some d) =
  Ok (Some (mkFrame (nrows d) (assign_all (columns d) (derived_columns cells)))).
Proof.
  intros Hd. unfold apply_keyword_analysis.
  assert (has_column d (u "description_clean") = true) as ->
    by (apply has_column_lookup; eauto).
  cbn [negb]. rewrite (get_column_found _ _ _ Hd). cbn [mbind exc_bind].
  rewrite (mapM_pure _ (fun v => PList (keyword_list v)))
    by (intros; apply extract_keywords_list).
  cbn [mbind exc_bind]. rewrite <- map_map.
  rewrite (for_each_flag_tech (map keyword_list cells))
    by (cbn [set_column columns]; rewrite lookup_assign, str_eqb_refl;
        reflexivity).
  cbn [mbind exc_bind set_column columns nrows].
  erewrite get_column_found; cycle 1.
  { cbn [columns]. rewrite lookup_assign_all.
    assert (lookup_column
              (rev (flag_columns main_techs (map keyword_list cells)))
              (u "extracted_keywords") = None) as ->
      by (lookup_derived; reflexivity).
    rewrite lookup_assign, str_eqb_refl. reflexivity. }
  cbn [mbind exc_bind]. rewrite mapM_len.
  cbn [mbind exc_bind set_column columns nrows].
  unfold derived_columns, assign_all. cbn [fold_left fst snd].
  rewrite fold_left_app. reflexivity.
Qed.

Lemma derived_columns_found (cs : list (str * list pyval)) (cells : list pyval) :
  Forall (fun p => lookup_column (assign_all cs (derived_columns cells)) p.1
                   = Some p.2)
    (derived_columns cells).
Proof.
  unfold derived_columns at 2, flag_columns, main_techs.
  cbn [map app].
  repeat (constructor; [rewrite lookup_assign_all; cbn [fst snd];
                        lookup_derived; reflexivity|]).
  constructor.
Qed.

Lemma description_kept (cs : list (str * list pyval)) (cells : list pyval) :
  lookup_column (assign_all cs (derived_columns cells)) (u "description_clean")
  = lookup_column cs (u "description_clean").
Proof.
  rewrite lookup_assign_all. lookup_derived. reflexivity.
Qed.

Lemma keyword_columns_found (cells : list pyval) (c : str) :
  In c keyword_columns ->
  exists v, lookup_column (rev (derived_columns cells)) c = Some v.
Proof.
  unfold keyword_columns, main_techs. cbn [map app In].
  intros Hc.
  repeat (destruct Hc as [<-|Hc]; [lookup_derived; eauto|]).
  destruct Hc.
Qed.

End KeywordAnalysis.

Section KeywordClaims.
Import Py Re Frame Transformation.

(** C8: [apply_keyword_analysis] returns [None] and a dataset without a
    [description_clean] column unchanged; on a dataset with that column a
    second application changes nothing of what the first one returned; and
    two datasets with the same [description_clean] column get the same
    [extracted_keywords], [has_*] and [keyword_count] columns. *)
Theorem apply_keyword_analysis_idempotent (U : Unicode) :
  apply_keyword_analysis None = Ok None /\
  (forall df,
     has_column df (u "description_clean") = false ->
     apply_keyword_analysis (Some df) = Ok (Some df)) /\
  (forall df,
     has_column df (u "description_clean") = true ->
     exists r,
       apply_keyword_analysis (Some df) = Ok (Some r) /\
       apply_keyword_analysis (Some r) = Ok (Some r)) /\
  (forall df1 df2,
     has_column df1 (u "description_clean") = true ->
     get_column df1 (u "description_clean") =
       get_column df2 (u "description_clean") ->
     exists r1 r2,
       apply_keyword_analysis (Some df1) = Ok (Some r1) /\
       apply_keyword_analysis (Some df2) = Ok (Some r2) /\
       forall c, In c keyword_columns ->
         exists cells,
           get_column r1 c = Ok cells /\ get_column r2 c = Ok cells).
Proof.
  split; [reflexivity|]. split; [|split].
  - intros df Hno. unfold apply_keyword_analysis. rewrite Hno. reflexivity.
  - intros df [cells Hd]%has_column_lookup.
    eexists. split; [apply (apply_keyword_analysis_columns _ _ Hd)|].
    erewrite apply_keyword_analysis_columns
      by (cbn [columns]; rewrite description_kept; exact Hd).
    cbn [columns nrows].
    rewrite assign_all_same by apply derived_columns_found.
    reflexivity.
  - intros df1 df2 [cells Hd]%has_column_lookup Hsame.
    assert (lookup_column (columns df2) (u "description_clean") = Some cells)
      as Hd2.
    { unfold get_column in Hsame. rewrite Hd in Hsame.
      destruct (lookup_column (columns df2) _); congruence. }
    eexists _, _.
    split; [apply (apply_keyword_analysis_columns _ _ Hd)|].
    split; [apply (apply_keyword_analysis_columns _ _ Hd2)|].
    intros c Hc. destruct (keyword_columns_found cells c Hc) as [v Hv].
    exists v. split; apply get_column_found; cbn [columns];
      rewrite lookup_assign_all, Hv; reflexivity.
Qed.

End KeywordClaims.

(** ** The unified set of postings *)

Section ExtractionFacts.
Import Py Extraction.
Context {path payload : Type}.
Variable read_json_file : path -> option (document payload).
Variable list_raw_data_files : list path.

(** The id of a posting as the set of ids compares it. *)
Definition id_key (o : offer payload) : key := set_key (get_id o).

(** Whether a posting has an id, that is a truthy ['id']. *)
Definition has_id (o : offer payload) : bool := scalar_truthy (get_id o).

(** The postings the loop collects from a sequence, given the ids it has
    seen. *)
Fixpoint collected (ids : gset key) (l : list (offer payload))
    : list (offer payload) :=
  match l with
  | [] => []
  | o :: l' =>
      if has_id o && bool_decide (id_key o ∉ ids)
      then o :: collected ({[id_key o]} ∪ ids) l'
      else collected ids l'
  end.

Lemma visit_eq (acc : list (offer payload)) (ids : gset key) o :
  visit (acc, ids) o =
  if has_id o && bool_decide (id_key o ∉ ids)
  then (acc ++ [o], {[id_key o]} ∪ ids)
  else (acc, ids).
Proof. reflexivity. Qed.

Lemma fold_visit (l : list (offer payload))
    (st : list (offer payload) * gset key) :
  (fold_left visit l st).1 = st.1 ++ collected st.2 l.
Proof.
  revert st. induction l as [|o l IH]; intros [acc ids]; cbn [fold_left].
  - cbn. rewrite app_nil_r. reflexivity.
  - rewrite IH, visit_eq. cbn [fst snd collected].
    destruct (has_id o && bool_decide (id_key o ∉ ids)); cbn [fst snd].
    + rewrite <- app_assoc. reflexivity.
    + reflexivity.
Qed.

Lemma fold_files (files : list path)
    (st : list (offer payload) * gset key) :
  fold_left
    (fun st file_path =>
       fold_left visit (extract_job_offers read_json_file file_path) st)
    files st =
  fold_left visit (postings read_json_file files) st.
Proof.
  revert st. induction files as [|f files IH]; intros st; cbn; [reflexivity|].
  rewrite IH. unfold postings. rewrite fold_left_app. reflexivity.
Qed.

Lemma extract_jobs_to_dataframe_collected file_list :
  extract_jobs_to_dataframe read_json_file list_raw_data_files file_list =
  match collected ∅ (postings read_json_file
                       (processed list_raw_data_files file_list)) with
  | [] => None
  | rows => Some rows
  end.
Proof.
  unfold extract_jobs_to_dataframe.
  fold (processed list_raw_data_files file_list).
  destruct (processed list_raw_data_files file_list) as [|f files] eqn:E;
    [reflexivity|].
  rewrite fold_files.
  pose proof (fold_visit (postings read_json_file (f :: files)) ([], ∅)) as Hf.
  destruct (fold_left visit _ _) as [all_offers ids].
  cbn [fst snd app] in Hf. rewrite Hf.
  destruct (collected _ _); reflexivity.
Qed.

Lemma key_truthy (a b : scalar) :
  set_key a = set_key b -> scalar_truthy a = scalar_truthy b.
Proof.
  destruct a as [|[]|z|s], b as [|[]|z'|s']; cbn; try congruence;
    try (intros [= <-]; reflexivity); try (intros [= ->]; reflexivity).
Qed.

Lemma collected_fresh (ids : gset key) (l : list (offer payload)) r :
  In r (collected ids l) -> has_id r = true /\ id_key r ∉ ids.
Proof.
  revert ids. induction l as [|o l IH]; intros ids; cbn; [tauto|].
  destruct (has_id o) eqn:Ho; cbn [andb]; [|apply IH].
  destruct (bool_decide_reflect (id_key o ∉ ids)) as [Hn|Hn]; [|apply IH].
  intros [<-|Hin]; [auto|].
  destruct (IH _ Hin) as [? ?]. split; [assumption|set_solver].
Qed.

Lemma collected_NoDup (ids : gset key) (l : list (offer payload)) : NoDup (map id_key (collected ids l)).
Proof.
  revert ids. induction l as [|o l IH]; intros ids; cbn; [constructor|].
  destruct (has_id o && bool_decide (id_key o ∉ ids)); [|apply IH].
  cbn. constructor; [|apply IH].
  intros Hin. apply list_elem_of_In, in_map_iff in Hin as [r [Hr Hin]].
  apply collected_fresh in Hin as [_ Hin]. set_solver.
Qed.

Lemma collected_sublist (ids : gset key) (l : list (offer payload)) : sublist (collected ids l) l.
Proof.
  revert ids. induction l as [|o l IH]; intros ids; cbn; [constructor|].
  destruct (has_id o && bool_decide (id_key o ∉ ids)).
  - apply sublist_skip, IH.
  - apply sublist_cons, IH.
Qed.

Lemma collected_covers (ids : gset key) (l : list (offer payload)) o :
  In o l -> has_id o = true -> id_key o ∉ ids ->
  exists r, In r (collected ids l) /\ id_key r = id_key o.
Proof.
  revert ids. induction l as [|x l IH]; intros ids; cbn; [tauto|].
  intros [->|Hin] Ho Hn.
  - rewrite Ho, bool_decide_true by assumption. cbn. eauto.
  - destruct (has_id x) eqn:Hx; cbn [andb]; [|auto].
    destruct (bool_decide_reflect (id_key x ∉ ids)) as [Hx'|Hx']; [|auto].
    destruct (decide (id_key x = id_key o)) as [He|He].
    + exists x. cbn. auto.
    + assert (id_key o ∉ {[id_key x]} ∪ ids) as Hn' by set_solver.
      destruct (IH _ Hin Ho Hn') as [r [Hr Hk]].
      exists r. cbn. auto.
Qed.

Lemma collected_first (ids : gset key) (l : list (offer payload)) r :
  In r (collected ids l) ->
  exists pre post,
    l = pre ++ r :: post /\ forall x, In x pre -> id_key x <> id_key r.
Proof.
  revert ids. induction l as [|o l IH]; intros ids; cbn; [tauto|].
  destruct (has_id o) eqn:Ho; cbn [andb].
  - destruct (bool_decide_reflect (id_key o ∉ ids)) as [Hn|Hn].
    + intros [<-|Hin].
      * exists [], l. split; [reflexivity|]. intros x [].
      * pose proof (collected_fresh _ _ _ Hin) as [_ Hfresh].
        destruct (IH _ Hin) as [pre [post [-> Hpre]]].
        exists (o :: pre), post. split; [reflexivity|].
        intros x [<-|Hx]; [set_solver|auto].
    + intros Hin. pose proof (collected_fresh _ _ _ Hin) as [_ Hfresh].
      destruct (IH _ Hin) as [pre [post [-> Hpre]]].
      exists (o :: pre), post. split; [reflexivity|].
      intros x [<-|Hx]; [|auto].
      intros He. rewrite <- He in Hfresh. contradiction.
  - intros Hin. pose proof (collected_fresh _ _ _ Hin) as [Hr _].
    destruct (IH _ Hin) as [pre [post [-> Hpre]]].
    exists (o :: pre), post. split; [reflexivity|].
    intros x [<-|Hx]; [|auto].
    intros He. apply key_truthy in He. unfold has_id in *. congruence.
Qed.

End ExtractionFacts.

Section ExtractionClaims.
Import Py Extraction.
Context {path payload : Type}.
Variable read_json_file : path -> option (document payload).
Variable list_raw_data_files : list path.

(** C1: over the postings of the processed batches, in the order of
    iteration, [extract_jobs_to_dataframe] returns a dataset whose rows
    have pairwise different ids, in which every id of a posting is
    present, and each of whose rows is the posting itself that comes first
    with its id, no earlier posting having that id; later postings with a
    known id are left out, the order of the rows is that of the postings;
    and it returns [None] when there is no posting at all. *)
Theorem extract_jobs_to_dataframe_first_wins (file_list : option (list path)) :
  let all :=
    postings read_json_file (processed list_raw_data_files file_list) in
  match
    extract_jobs_to_dataframe read_json_file list_raw_data_files file_list
  with
  | Some rows =>
      rows <> [] /\
      NoDup (map id_key rows) /\
      sublist rows all /\
      (forall o, In o all -> has_id o = true ->
         exists r, In r rows /\ id_key r = id_key o) /\
      (forall r, In r rows ->
         exists pre post,
           all = pre ++ r :: post /\
           forall x, In x pre -> id_key x <> id_key r)
  | None =>
      (forall o, In o all -> has_id o = false) /\
      (extract_jobs_to_dataframe read_json_file list_raw_data_files file_list
         = None)
  end /\
  (all = [] ->
   extract_jobs_to_dataframe read_json_file list_raw_data_files file_list
     = None).
Proof.
  intros all. rewrite extract_jobs_to_dataframe_collected. fold all.
  split.
  - destruct (collected ∅ all) as [|r rows] eqn:E.
    + split; [|reflexivity]. intros o Ho.
      destruct (has_id o) eqn:Hid; [|reflexivity].
      destruct (collected_covers ∅ all o Ho Hid) as [r [Hr _]];
        [set_solver|].
      rewrite E in Hr. destruct Hr.
    + rewrite <- E. split; [rewrite E; discriminate|].
      split; [apply collected_NoDup|].
      split; [apply collected_sublist|].
      split.
      * intros o Ho Hid. apply collected_covers; [assumption..|set_solver].
      * intros r' Hr'. eapply collected_first, Hr'.
  - intros ->. reflexivity.
Qed.

(** C9: a posting whose ['id'] is missing, [None] or the empty string has
    no id; a posting without id is in no dataset that
    [extract_jobs_to_dataframe] returns; and when no posting of the
    batches has an id the result is [None], as when there is no posting. *)
Theorem postings_without_id_dropped :
  (forall o : offer payload,
     offer_id o = None \/ offer_id o = Some SNone \/
     offer_id o = Some (SStr []) ->
     has_id o = false) /\
  (forall file_list rows o,
     extract_jobs_to_dataframe read_json_file list_raw_data_files file_list
       = Some rows ->
     has_id o = false -> ~ In o rows) /\
  (forall file_list,
     (forall o,
        In o (postings read_json_file
                (processed list_raw_data_files file_list)) ->
        has_id o = false) ->
     extract_jobs_to_dataframe read_json_file list_raw_data_files file_list
       = None) /\
  (forall file_list,
     postings read_json_file (processed list_raw_data_files file_list) = [] ->
     extract_jobs_to_dataframe read_json_file list_raw_data_files file_list
       = None).
Proof.
  split; [|split; [|split]].
  - intros o [Ho|[Ho|Ho]]; unfold has_id, get_id; rewrite Ho; reflexivity.
  - intros file_list rows o. rewrite extract_jobs_to_dataframe_collected.
    destruct (collected ∅ _) as [|r rows'] eqn:E; [discriminate|].
    intros [= <-] Hid Hin. rewrite <- E in Hin.
    apply collected_fresh in Hin as [Hid' _]. congruence.
  - intros file_list Hall. rewrite extract_jobs_to_dataframe_collected.
    destruct (collected ∅ _) as [|r rows'] eqn:E; [reflexivity|].
    assert (In r (r :: rows')) as Hin by (left; reflexivity).
    rewrite <- E in Hin.
    pose proof (collected_fresh _ _ _ Hin) as [Hid _].
    destruct (collected_first _ _ _ Hin) as [pre [post [Heq _]]].
    assert (In r (postings read_json_file
                    (processed list_raw_data_files file_list))) as Hr
      by (rewrite Heq; apply in_or_app; right; left; reflexivity).
    rewrite (Hall r Hr) in Hid. discriminate.
  - intros file_list Hnone. rewrite extract_jobs_to_dataframe_collected, Hnone.
    reflexivity.
Qed.

End ExtractionClaims.

(** ** Preparing the rows for the table *)

(** The source columns of the mapping, their persisted names, and the
    source columns a frame has. *)
Abbreviation sources := (map fst Loading.column_mapping).
Abbreviation targets := (map snd Loading.column_mapping).
Abbreviation kept_columns df :=
  (List.filter (fun col => Frame.has_column df col) sources).

Section PrepareFacts.
Import Py Frame Loading.
Variable to_datetime : list pyval -> list pyval.


(** The persisted name of a source column. *)
Definition target_of (s : str) : str :=
  match mapping_get column_mapping s with
  | Ok t => t
  | Raise _ => []
  end.

Definition cells_of (df : DataFrame) (col : str) : list pyval :=
  match lookup_column (columns df) col with
  | Some cells => cells
  | None => []
  end.

Definition is_date (col : str) : bool :=
  existsb (fun d => str_eqb d col) date_columns.

(** What [prepare_job_data_for_loading] does to the cells of a column. *)
Definition convert (col : str) (cells : list pyval) : list pyval :=
  if is_date col then to_datetime cells else cells.

Lemma existsb_str_In (l : list str) (x : str) :
  existsb (fun d => str_eqb d x) l = true <-> In x l.
Proof.
  rewrite existsb_exists. split.
  - intros [d [Hd ->%str_eqb_eq]]. exact Hd.
  - intros Hx. exists x. split; [exact Hx | apply str_eqb_refl].
Qed.

Lemma mapping_get_source (s : str) :
  In s sources -> mapping_get column_mapping s = Ok (target_of s).
Proof.
  unfold target_of.
  induction column_mapping as [|[k v] m IH]; cbn; [tauto|].
  destruct (str_eqb k s) eqn:E; [reflexivity|].
  intros [->|Hin]; [rewrite str_eqb_refl in E; discriminate|].
  exact (IH Hin).
Qed.

Lemma mapping_pairs (s t : str) :
  In (s, t) column_mapping -> In s sources /\ target_of s = t.
Proof.
  intros Hin. split; [apply (in_map fst _ _ Hin)|].
  assert (forallb (fun p => str_eqb (target_of p.1) p.2) column_mapping = true)
    as Hall by (vm_compute; reflexivity).
  rewrite forallb_forall in Hall. apply str_eqb_eq, (Hall _ Hin).
Qed.

Lemma target_of_injective (s s' : str) :
  In s sources -> In s' sources -> target_of s = target_of s' -> s = s'.
Proof.
  intros Hs Hs' Ht.
  assert (forallb (fun a => forallb (fun b =>
            implb (str_eqb (target_of a) (target_of b)) (str_eqb a b))
            sources) sources = true) as Hall by (vm_compute; reflexivity).
  rewrite forallb_forall in Hall. specialize (Hall _ Hs).
  rewrite forallb_forall in Hall. specialize (Hall _ Hs').
  apply str_eqb_eq in Ht. rewrite Ht in Hall. apply str_eqb_eq, Hall.
Qed.

Lemma target_of_target (s : str) : In s sources -> In (target_of s) targets.
Proof.
  intros Hs.
  assert (forallb (fun a => existsb (fun d => str_eqb d (target_of a)) targets)
            sources = true) as Hall by (vm_compute; reflexivity).
  rewrite forallb_forall in Hall. apply existsb_str_In, Hall, Hs.
Qed.

Lemma source_not_target : ~ In (u "source") targets.
Proof.
  intros Hin%existsb_str_In. vm_compute in Hin. discriminate.
Qed.

Lemma dates_are_targets (d : str) : In d date_columns -> In d targets.
Proof.
  intros Hd.
  assert (forallb (fun a => existsb (fun d => str_eqb d a) targets)
            date_columns = true) as Hall by (vm_compute; reflexivity).
  rewrite forallb_forall in Hall. apply existsb_str_In, Hall, Hd.
Qed.

(** *** Selecting and renaming *)

Definition selected (df : DataFrame) (kept : list str) : list (str * list pyval) :=
  map (fun s => (target_of s, cells_of df s)) kept.

Lemma select_renamed_ok (df : DataFrame) (kept : list str) :
  (forall s, In s kept -> In s sources /\ has_column df s = true) ->
  select_renamed df kept = Ok (mkFrame (nrows df) (selected df kept)).
Proof.
  intros Hk. unfold select_renamed, selected.
  rewrite (mapM_pure _ (fun s => (target_of s, cells_of df s))); [reflexivity|].
  intros s Hs. destruct (Hk s Hs) as [Hsrc [cells Hc]%has_column_lookup].
  unfold get_column, cells_of. rewrite Hc. cbn [mbind exc_bind].
  rewrite mapping_get_source by assumption. reflexivity.
Qed.

Lemma lookup_selected_present (df : DataFrame) (l : list str) (s : str) :
  In s l -> incl l sources -> In s sources -> has_column df s = true ->
  lookup_column (selected df (List.filter (fun c => has_column df c) l))
    (target_of s) = Some (cells_of df s).
Proof.
  intros Hin Hl Hs Hhas. unfold selected.
  induction l as [|a l IH]; [destruct Hin|].
  assert (incl l sources) as Hl' by (intros x Hx; apply Hl; right; exact Hx).
  cbn [List.filter]. destruct (has_column df a) eqn:Ha.
  - cbn [map lookup_column].
    destruct (str_eqb (target_of a) (target_of s)) eqn:E.
    + apply str_eqb_eq in E.
      apply target_of_injective in E; [subst; reflexivity| |assumption].
      apply Hl. left. reflexivity.
    + destruct Hin as [->|Hin]; [rewrite str_eqb_refl in E; discriminate|].
      auto.
  - destruct Hin as [->|Hin]; [congruence|]. auto.
Qed.

Lemma lookup_selected_absent (df : DataFrame) (l : list str) (s : str) :
  incl l sources -> In s sources -> has_column df s = false ->
  lookup_column (selected df (List.filter (fun c => has_column df c) l))
    (target_of s) = None.
Proof.
  intros Hl Hs Hhas. unfold selected.
  induction l as [|a l IH]; [reflexivity|].
  assert (incl l sources) as Hl' by (intros x Hx; apply Hl; right; exact Hx).
  cbn [List.filter]. destruct (has_column df a) eqn:Ha; [|auto].
  cbn [map lookup_column].
  destruct (str_eqb (target_of a) (target_of s)) eqn:E; [|auto].
  apply str_eqb_eq in E.
  apply target_of_injective in E; [congruence| |assumption].
  apply Hl. left. reflexivity.
Qed.

(** *** Filling the missing columns *)

Lemma lookup_fill_missing (r : DataFrame) (t x : str) :
  lookup_column (columns (fill_missing r t)) x =
  match lookup_column (columns r) x with
  | Some c => Some c
  | None => if str_eqb t x then Some (replicate (nrows r) PNone) else None
  end.
Proof.
  unfold fill_missing. destruct (has_column r t) eqn:Ht; cbn [negb].
  - apply has_column_lookup in Ht as [c Hc].
    destruct (lookup_column (columns r) x) eqn:Hx; [reflexivity|].
    destruct (str_eqb t x) eqn:E; [|reflexivity].
    apply str_eqb_eq in E. congruence.
  - apply has_column_false in Ht.
    unfold set_constant, set_column. cbn [columns]. rewrite lookup_assign.
    destruct (str_eqb t x) eqn:E; [|destruct (lookup_column _ x); reflexivity].
    apply str_eqb_eq in E. subst x. rewrite Ht. reflexivity.
Qed.

Lemma nrows_fill_missing (r : DataFrame) (t : str) :
  nrows (fill_missing r t) = nrows r.
Proof. unfold fill_missing. destruct (negb _); reflexivity. Qed.

Lemma fill_missing_all (ts : list str) (r : DataFrame) :
  nrows (fold_left fill_missing ts r) = nrows r /\
  forall x,
    lookup_column (columns (fold_left fill_missing ts r)) x =
    match lookup_column (columns r) x with
    | Some c => Some c
    | None =>
        if existsb (fun d => str_eqb d x) ts
        then Some (replicate (nrows r) PNone) else None
    end.
Proof.
  revert r. induction ts as [|t ts IH]; intros r; cbn [fold_left existsb].
  - split; [reflexivity|]. intros x. destruct (lookup_column _ x); reflexivity.
  - destruct (IH (fill_missing r t)) as [Hn Hl]. split.
    + rewrite Hn. apply nrows_fill_missing.
    + intros x. rewrite Hl, lookup_fill_missing, nrows_fill_missing.
      destruct (lookup_column (columns r) x); [reflexivity|].
      destruct (str_eqb t x); [reflexivity|].
      destruct (existsb _ ts); reflexivity.
Qed.

(** *** Converting the dates *)

Lemma lookup_labelled (g : str -> list pyval) (l : list str) (x : str) :
  lookup_column (map (fun d => (d, g d)) l) x =
  if existsb (fun d => str_eqb d x) l then Some (g x) else None.
Proof.
  induction l as [|a l IH]; cbn; [reflexivity|].
  destruct (str_eqb a x) eqn:E; [|exact IH].
  apply str_eqb_eq in E. subst. reflexivity.
Qed.

Lemma existsb_str_rev (l : list str) (x : str) :
  existsb (fun d => str_eqb d x) (rev l) = existsb (fun d => str_eqb d x) l.
Proof.
  pose proof (existsb_str_In l x) as H1.
  pose proof (existsb_str_In (rev l) x) as H2.
  rewrite <- in_rev in H2.
  destruct (existsb _ (rev l)), (existsb _ l); try reflexivity.
  - symmetry. apply H1, H2. reflexivity.
  - apply H2, H1. reflexivity.
Qed.

Lemma convert_date_present (F : DataFrame) (d : str) :
  has_column F d = true ->
  convert_date to_datetime F d =
  Ok (set_column F d (to_datetime (cells_of F d))).
Proof.
  intros Hd. unfold convert_date. rewrite Hd.
  apply has_column_lookup in Hd as [c Hc].
  unfold get_column, cells_of. rewrite Hc. reflexivity.
Qed.

Lemma cells_of_set_other (F : DataFrame) (d d' : str) (v : list pyval) :
  str_eqb d d' = false -> cells_of (set_column F d v) d' = cells_of F d'.
Proof.
  intros E. unfold cells_of, set_column. cbn [columns].
  rewrite lookup_assign, E. reflexivity.
Qed.

Lemma for_each_convert_date (ds : list str) (F : DataFrame) :
  NoDup ds ->
  (forall d, In d ds -> has_column F d = true) ->
  Transformation.for_each (convert_date to_datetime) ds F =
  Ok (mkFrame (nrows F)
        (assign_all (columns F)
           (map (fun d => (d, to_datetime (cells_of F d))) ds))).
Proof.
  intros Hnd. revert F.
  induction Hnd as [|d ds Hd Hnd IH]; intros F Hhas.
  - destruct F. reflexivity.
  - cbn [Transformation.for_each].
    rewrite convert_date_present by (apply Hhas; left; reflexivity).
    cbn [mbind exc_bind]. rewrite IH.
    + cbn [set_column nrows columns map]. unfold assign_all.
      cbn [fold_left fst snd]. do 3 f_equal.
      apply map_ext_in. intros d' Hd'.
      rewrite cells_of_set_other; [reflexivity|].
      apply str_eqb_neq. intros ->.
      apply list_elem_of_In in Hd'. contradiction.
    + intros d' Hd'. apply has_column_lookup. cbn [set_column columns].
      rewrite lookup_assign. destruct (str_eqb d d'); [eauto|].
      apply has_column_lookup, Hhas. right. exact Hd'.
Qed.

(** *** The prepared frame *)

Lemma lookup_in_names (cs : list (str * list pyval)) (x : str) :
  In x (map fst cs) -> exists c, lookup_column cs x = Some c.
Proof.
  induction cs as [|[name cells] cs IH]; cbn; [tauto|].
  destruct (str_eqb name x) eqn:E; [eauto|].
  intros [->|Hin]; [rewrite str_eqb_refl in E; discriminate|auto].
Qed.

Lemma lookup_selected_target (df : DataFrame) (kept : list str) (x : str) c :
  incl kept sources ->
  lookup_column (selected df kept) x = Some c -> In x targets.
Proof.
  unfold selected. induction kept as [|a kept IH]; cbn; [discriminate|].
  intros Hk. destruct (str_eqb (target_of a) x) eqn:E.
  - intros _. apply str_eqb_eq in E. subst x.
    apply target_of_target, Hk. left. reflexivity.
  - apply IH. intros y Hy. apply Hk. right. exact Hy.
Qed.

Lemma date_columns_NoDup : NoDup date_columns.
Proof.
  assert (forall a b : str, str_eqb a b = false -> a <> b) as Hne
    by (intros a b; apply str_eqb_neq).
  unfold date_columns. cbn [map].
  repeat (apply NoDup_cons; split;
          [rewrite list_elem_of_In; cbn [In];
           intros H; repeat (destruct H as [H|H]; [revert H; apply Hne;
                                                   vm_compute; reflexivity|]);
           destruct H|]).
  apply NoDup_nil. exact I.
Qed.

(** The frame after the missing columns are filled, [source] is set and
    the dates are converted, from any frame [Sel] of selected columns. *)
Lemma finish_frame (Sel : DataFrame) (tgts dates : list str) :
  NoDup dates ->
  (forall d, In d dates -> In d tgts) ->
  ~ In (u "source") tgts ->
  exists r,
    Transformation.for_each (convert_date to_datetime) dates
      (set_constant (fold_left fill_missing tgts Sel) (u "source")
         (PStr (u "FRANCE_TRAVAIL"))) = Ok r /\
    nrows r = nrows Sel /\
    forall x,
      lookup_column (columns r) x =
      if str_eqb (u "source") x
      then Some (replicate (nrows Sel) (PStr (u "FRANCE_TRAVAIL")))
      else if existsb (fun d => str_eqb d x) tgts
      then Some ((if existsb (fun d => str_eqb d x) dates
                  then to_datetime else fun cells => cells)
                   (match lookup_column (columns Sel) x with
                    | Some c => c
                    | None => replicate (nrows Sel) PNone
                    end))
      else lookup_column (columns Sel) x.
Proof.
  intros Hnd Hdates Hsrc.
  destruct (fill_missing_all tgts Sel) as [HnF HlF].
  revert HnF HlF. generalize (fold_left fill_missing tgts Sel).
  intros F HnF HlF.
  assert (forall x,
            lookup_column
              (columns (set_constant F (u "source") (PStr (u "FRANCE_TRAVAIL"))))
              x =
            if str_eqb (u "source") x
            then Some (replicate (nrows Sel) (PStr (u "FRANCE_TRAVAIL")))
            else lookup_column (columns F) x) as HlFs.
  { intros x. unfold set_constant, set_column. cbn [columns].
    rewrite lookup_assign, HnF. reflexivity. }
  assert (nrows (set_constant F (u "source") (PStr (u "FRANCE_TRAVAIL")))
          = nrows Sel) as HnFs by exact HnF.
  revert HlFs HnFs.
  generalize (set_constant F (u "source") (PStr (u "FRANCE_TRAVAIL"))).
  intros Fs HlFs HnFs.
  rewrite for_each_convert_date; [|exact Hnd|].
  2:{ intros d Hd. apply has_column_lookup. rewrite HlFs.
      destruct (str_eqb (u "source") d); [eauto|].
      rewrite HlF. destruct (lookup_column (columns Sel) d); [eauto|].
      apply Hdates, existsb_str_In in Hd. rewrite Hd. eauto. }
  eexists. split; [reflexivity|].
  cbn [nrows columns]. split; [exact HnFs|].
  intros x. rewrite lookup_assign_all, <- map_rev.
  rewrite (lookup_labelled (fun d => to_datetime (cells_of Fs d))).
  rewrite existsb_str_rev.
  unfold cells_of. rewrite HlFs, HlF.
  destruct (str_eqb (u "source") x) eqn:Esrc.
  - apply str_eqb_eq in Esrc. subst x.
    destruct (existsb (fun d => str_eqb d (u "source")) dates) eqn:Ed;
      [|reflexivity].
    apply existsb_str_In, Hdates in Ed. contradiction.
  - destruct (existsb (fun d => str_eqb d x) dates) eqn:Edate.
    + assert (existsb (fun d => str_eqb d x) tgts = true) as ->
        by (apply existsb_str_In, Hdates, existsb_str_In, Edate).
      destruct (lookup_column (columns Sel) x); reflexivity.
    + destruct (lookup_column (columns Sel) x) eqn:Esel;
        destruct (existsb (fun d => str_eqb d x) tgts); reflexivity.
Qed.

Lemma kept_columns_sources (df : DataFrame) : incl (kept_columns df) sources.
Proof.
  intros s Hs. apply (proj1 (filter_In _ s sources)) in Hs. exact (proj1 Hs).
Qed.

Lemma prepare_frame (df : DataFrame) :
  nrows df <> 0%nat ->
  (exists s, In s sources /\ has_column df s = true) ->
  exists r,
    prepare_job_data_for_loading to_datetime (Some df) = Ok (Some r) /\
    nrows r = nrows df /\
    forall x,
      lookup_column (columns r) x =
      if str_eqb (u "source") x
      then Some (replicate (nrows df) (PStr (u "FRANCE_TRAVAIL")))
      else if existsb (fun d => str_eqb d x) targets
      then Some (convert x
                   (match lookup_column (selected df (kept_columns df)) x with
                    | Some c => c
                    | None => replicate (nrows df) PNone
                    end))
      else None.
Proof.
  intros Hn [s0 [Hs0 Hhas0]].
  assert (In s0 (kept_columns df)) as Hk0
    by (apply filter_In; split; assumption).
  pose proof (kept_columns_sources df) as Hincl.
  assert (forall s, In s (kept_columns df) ->
                    In s sources /\ has_column df s = true) as Hkept
    by (intros s Hs; apply (proj1 (filter_In _ s sources)) in Hs; exact Hs).
  unfold prepare_job_data_for_loading.
  revert Hk0 Hincl Hkept. generalize (kept_columns df). intros kept Hk0 Hincl Hkept.
  destruct (Nat.eqb_spec (nrows df) 0) as [|_]; [contradiction|].
  destruct kept as [|k0 ks] eqn:Ek; [destruct Hk0|].
  cbn [length Nat.eqb]. rewrite <- Ek in *. clear Ek k0 ks Hk0.
  rewrite select_renamed_ok by exact Hkept.
  rewrite bind_ok.
  destruct (finish_frame (mkFrame (nrows df) (selected df kept))
              targets date_columns date_columns_NoDup dates_are_targets
              source_not_target) as [r [Hr [Hnr Hl]]].
  rewrite Hr, bind_ok.
  exists r. split; [reflexivity|]. split; [exact Hnr|].
  intros x. rewrite Hl. cbn [nrows columns]. unfold convert, is_date.
  destruct (str_eqb (u "source") x); [reflexivity|].
  destruct (existsb (fun d => str_eqb d x) targets) eqn:Et.
  { destruct (existsb (fun d => str_eqb d x) date_columns); reflexivity. }
  destruct (lookup_column (selected df kept) x) eqn:Esel; [|reflexivity].
  apply lookup_selected_target in Esel; [|exact Hincl].
  apply existsb_str_In in Esel. congruence.
Qed.

End PrepareFacts.

Section PrepareClaims.
Import Py Frame Loading.
Variable to_datetime : list pyval -> list pyval.

Lemma filter_none {A} (f : A -> bool) (l : list A) :
  (forall x, In x l -> f x = false) -> List.filter f l = [].
Proof.
  induction l as [|a l IH]; cbn; intros Hf; [reflexivity|].
  rewrite (Hf a) by auto. auto.
Qed.

Lemma some_source_or_none (df : DataFrame) :
  (exists s, In s sources /\ has_column df s = true) \/
  (forall s, In s sources -> has_column df s = false).
Proof.
  destruct (existsb (fun s => has_column df s) sources) eqn:E.
  - left. apply existsb_exists in E. exact E.
  - right. intros s Hs. destruct (has_column df s) eqn:Hh; [|reflexivity].
    rewrite <- E. symmetry. apply existsb_exists. eauto.
Qed.

(** C5: [prepare_job_data_for_loading] returns [None] exactly when the
    dataset is [None], has no row, or has none of the source columns of the
    mapping.  Otherwise it returns a frame with the same rows in which each
    column of the mapping present in the input appears under its persisted
    name, each one absent from the input is a column of nulls, the three
    date columns having gone through [pd.to_datetime]; a column [source]
    holds ['FRANCE_TRAVAIL'] in every row; and there is no other column. *)
Theorem prepare_job_data_for_loading_rows :
  (forall odf,
     prepare_job_data_for_loading to_datetime odf = Ok None <->
     odf = None \/
     exists df, odf = Some df /\
       (nrows df = 0%nat \/
        forall s, In s sources -> has_column df s = false)) /\
  (forall df,
     nrows df <> 0%nat ->
     (exists s, In s sources /\ has_column df s = true) ->
     exists r,
       prepare_job_data_for_loading to_datetime (Some df) = Ok (Some r) /\
       nrows r = nrows df /\
       (forall s t, In (s, t) column_mapping ->
          get_column r t =
          Ok (convert to_datetime t
                (match lookup_column (columns df) s with
                 | Some cells => cells
                 | None => replicate (nrows df) PNone
                 end))) /\
       get_column r (u "source") =
         Ok (replicate (nrows df) (PStr (u "FRANCE_TRAVAIL"))) /\
       (forall name, In name (map fst (columns r)) ->
          name = u "source" \/ In name targets) /\
       ((forall n, to_datetime (replicate n PNone) = replicate n PNone) ->
        forall s t, In (s, t) column_mapping -> has_column df s = false ->
          get_column r t = Ok (replicate (nrows df) PNone))).
Proof.
  assert (forall df,
     nrows df <> 0%nat ->
     (exists s, In s sources /\ has_column df s = true) ->
     exists r,
       prepare_job_data_for_loading to_datetime (Some df) = Ok (Some r) /\
       nrows r = nrows df /\
       (forall s t, In (s, t) column_mapping ->
          get_column r t =
          Ok (convert to_datetime t
                (match lookup_column (columns df) s with
                 | Some cells => cells
                 | None => replicate (nrows df) PNone
                 end))) /\
       get_column r (u "source") =
         Ok (replicate (nrows df) (PStr (u "FRANCE_TRAVAIL"))) /\
       (forall name, In name (map fst (columns r)) ->
          name = u "source" \/ In name targets)) as Hrows.
  { intros df Hn Hsome.
    destruct (prepare_frame to_datetime df Hn Hsome) as [r [Hr [Hnr Hl]]].
    exists r. split; [exact Hr|]. split; [exact Hnr|].
    split; [|split].
    - intros s t [Hs <-]%mapping_pairs. apply get_column_found.
      rewrite Hl.
      assert (str_eqb (u "source") (target_of s) = false) as ->.
      { apply str_eqb_neq. intros He. apply source_not_target.
        rewrite He. apply target_of_target, Hs. }
      assert (existsb (fun d => str_eqb d (target_of s)) targets = true) as ->
        by (apply existsb_str_In, target_of_target, Hs).
      destruct (has_column df s) eqn:Hh.
      + rewrite lookup_selected_present; try assumption;
          [|intros a Ha; exact Ha].
        unfold cells_of.
        apply has_column_lookup in Hh as [c ->]. reflexivity.
      + rewrite lookup_selected_absent; try assumption;
          [|intros a Ha; exact Ha].
        apply has_column_false in Hh. rewrite Hh. reflexivity.
    - apply get_column_found. rewrite Hl, str_eqb_refl. reflexivity.
    - intros name [c Hc]%lookup_in_names. rewrite Hl in Hc.
      destruct (str_eqb (u "source") name) eqn:E.
      + left. symmetry. apply str_eqb_eq, E.
      + right. destruct (existsb _ targets) eqn:E'; [|discriminate].
        apply existsb_str_In, E'. }
  split.
  - intros [df|]; [|split; auto].
    split.
    + intros Hnone. right. exists df. split; [reflexivity|].
      destruct (Nat.eq_dec (nrows df) 0%nat) as [|Hn]; [auto|].
      destruct (some_source_or_none df) as [Hsome|Hno]; [|auto].
      destruct (Hrows df Hn Hsome) as [r [Hr _]]. congruence.
    + intros [[=]|[df' [[= <-] [Hn|Hno]]]];
        unfold prepare_job_data_for_loading.
      * rewrite Hn. reflexivity.
      * destruct (nrows df =? 0)%nat; [reflexivity|].
        rewrite (filter_none (fun col => has_column df col) sources Hno).
        reflexivity.
  - intros df Hn Hsome.
    destruct (Hrows df Hn Hsome) as [r [Hr [Hnr [Hcols [Hsrc Hnames]]]]].
    exists r. repeat (split; [assumption|]).
    intros Hnull s t Hst Hh. rewrite (Hcols s t Hst).
    apply has_column_false in Hh. rewrite Hh.
    unfold convert. destruct (is_date t); [rewrite Hnull|]; reflexivity.
Qed.

End PrepareClaims.

(** ** The orchestrator *)

Section PipelineClaims.
Import Py Loading.
Variables frame engine : Type.
Variable today : str.
Variable extract : str -> option str -> option frame.
Variable transform : frame -> option frame.
Variable keywords : frame -> option frame.
Variable prepare : frame -> option frame.
Variable connect : option engine.
Variable create_table : engine -> bool.
Variable load : frame -> engine -> Z.

(** The start date a run uses. *)
Definition effective_start (today : str) (start_date : option str) : str :=
  match start_date with
  | None | Some [] => today
  | Some d => d
  end.

(** C6: [execute_etl_pipeline] returns 0 as soon as a stage gives nothing
    (extraction, transformation, load preparation or the connection
    returning [None], the table creation returning [False]) and runs no
    stage after that one; when every stage succeeds it returns what
    [load_jobs_to_database] reports, all stages having run once, in
    order. *)
Theorem execute_etl_pipeline_short_circuits (start_date end_date : option str) :
  let run :=
    execute_etl_pipeline frame engine today extract transform keywords
      prepare connect create_table load start_date end_date in
  let raw := extract (effective_start today start_date) end_date in
  (raw = None -> run = (0%Z, [extract_by_date_range])) /\
  (forall raw_df,
     raw = Some raw_df -> transform raw_df = None ->
     run = (0%Z, [extract_by_date_range; transform_job_dataframe])) /\
  (forall raw_df t,
     raw = Some raw_df -> transform raw_df = Some t -> keywords t = None ->
     run = (0%Z, [extract_by_date_range; transform_job_dataframe;
                  apply_keyword_analysis])) /\
  (forall raw_df t t',
     raw = Some raw_df -> transform raw_df = Some t -> keywords t = Some t' ->
     prepare t' = None ->
     run = (0%Z, [extract_by_date_range; transform_job_dataframe;
                  apply_keyword_analysis; prepare_job_data])) /\
  (forall raw_df t t' l,
     raw = Some raw_df -> transform raw_df = Some t -> keywords t = Some t' ->
     prepare t' = Some l -> connect = None ->
     run = (0%Z, [extract_by_date_range; transform_job_dataframe;
                  apply_keyword_analysis; prepare_job_data;
                  get_db_connection])) /\
  (forall raw_df t t' l e,
     raw = Some raw_df -> transform raw_df = Some t -> keywords t = Some t' ->
     prepare t' = Some l -> connect = Some e -> create_table e = false ->
     run = (0%Z, [extract_by_date_range; transform_job_dataframe;
                  apply_keyword_analysis; prepare_job_data;
                  get_db_connection; create_jobs_table])) /\
  (forall raw_df t t' l e,
     raw = Some raw_df -> transform raw_df = Some t -> keywords t = Some t' ->
     prepare t' = Some l -> connect = Some e -> create_table e = true ->
     run = (load l e,
            [extract_by_date_range; transform_job_dataframe;
             apply_keyword_analysis; prepare_job_data;
             get_db_connection; create_jobs_table; load_jobs_to_database])).
Proof.
  intros run raw. subst run raw.
  unfold execute_etl_pipeline. fold (effective_start today start_date).
  repeat split; intros;
    repeat match goal with
           | E : _ = _ |- _ => rewrite E; clear E; cbn
           end;
    reflexivity.
Qed.

End PipelineClaims.

(** A run in which every stage succeeds and the load reports 4 rows. *)
Lemma execute_etl_pipeline_short_circuits_witness :
  Loading.execute_etl_pipeline nat unit (Py.u "20240101")
    (fun _ _ => Some 4%nat) (fun f => Some f) (fun f => Some f)
    (fun f => Some f) (Some tt) (fun _ => true) (fun f _ => Z.of_nat f)
    None None =
  (4%Z,
   [Loading.extract_by_date_range; Loading.transform_job_dataframe;
    Loading.apply_keyword_analysis; Loading.prepare_job_data;
    Loading.get_db_connection; Loading.create_jobs_table;
    Loading.load_jobs_to_database]).
Proof.
  pose proof (execute_etl_pipeline_short_circuits nat unit (Py.u "20240101")
                (fun _ _ => Some 4%nat) (fun f => Some f) (fun f => Some f)
                (fun f => Some f) (Some tt) (fun _ => true)
                (fun f _ => Z.of_nat f) None None) as H.
  cbv zeta in H. destruct H as (_ & _ & _ & _ & _ & _ & H).
  exact (H 4%nat 4%nat 4%nat 4%nat tt
           eq_refl eq_refl eq_refl eq_refl eq_refl eq_refl).
Defined.

(** * The rest of the pipeline *)

(** ** transformation.py: [transform_job_dataframe] *)

Module TransformFrame.
Import Py Frame Transformation.

Definition required_columns : list str :=
  map u ["id"; "intitule"; "description"; "dateCreation"]%string.

Definition text_columns : list str :=
  map u ["intitule"; "description"; "lieuTravail"; "entreprise"]%string.

Definition date_columns : list str :=
  map u ["dateCreation"; "dateActualisation"]%string.

Section Transform.
Context `{Unicode}.

(** [pd.to_datetime(column, errors='coerce').dt.strftime('%Y-%m-%d')] on
    the cells of a column, and [datetime.now().strftime('%Y-%m-%d
    %H:%M:%S')]. *)
Variable to_iso_date : list pyval -> list pyval.
Variable now : str.

(** [if col not in result_df.columns: result_df[col] = None] *)
Definition add_required (result_df : DataFrame) (col : str) : DataFrame :=
  if negb (has_column result_df col)
  then set_constant result_df col PNone
  else result_df.

(** [lambda x: clean_text_field(x) if isinstance(x, str) else x] *)
Definition clean_cell (x : pyval) : exc pyval :=
  if isinstance_str x then clean_text_field x else Ok x.

Definition clean_column (result_df : DataFrame) (col : str) : exc DataFrame :=
  if has_column result_df col then
    cells ← get_column result_df col;
    cleaned ← mapM clean_cell cells;
    Ok (set_column result_df (col ++ u "_clean") cleaned)
  else Ok result_df.

Definition salary_columns (result_df : DataFrame) : exc DataFrame :=
  if has_column result_df (u "salaire") then
    cells ← get_column result_df (u "salaire");
    salary_info ← mapM extract_salary_info cells;
    let result_df :=
      set_column result_df (u "min_salary")
        (map (fun info => info.1.1.1) salary_info) in
    let result_df :=
      set_column result_df (u "max_salary")
        (map (fun info => info.1.1.2) salary_info) in
    let result_df :=
      set_column result_df (u "salary_periodicity")
        (map (fun info => info.1.2) salary_info) in
    Ok (set_column result_df (u "currency")
          (map (fun info => info.2) salary_info))
  else Ok result_df.

Definition contract_column (result_df : DataFrame) : exc DataFrame :=
  if has_column result_df (u "typeContrat") then
    cells ← get_column result_df (u "typeContrat");
    std ← mapM categorize_contract_type cells;
    Ok (set_column result_df (u "contract_type_std") std)
  else Ok result_df.

Definition experience_column (result_df : DataFrame) : exc DataFrame :=
  if has_column result_df (u "description") then
    cells ← get_column result_df (u "description");
    levels ← mapM extract_experience_level cells;
    Ok (set_column result_df (u "experience_level") levels)
  else Ok result_df.

Definition iso_column (result_df : DataFrame) (col : str) : exc DataFrame :=
  if has_column result_df col then
    cells ← get_column result_df col;
    Ok (set_column result_df (col ++ u "_iso") (to_iso_date cells))
  else Ok result_df.

Definition transform_job_dataframe (df : option DataFrame)
    : exc (option DataFrame) :=
  match df with
  | None => Ok None
  | Some df =>
      if (nrows df =? 0)%nat then Ok None
      else
        let result_df := fold_left add_required required_columns df in
        result_df ← for_each clean_column text_columns result_df;
        result_df ← salary_columns result_df;
        result_df ← contract_column result_df;
        result_df ← experience_column result_df;
        result_df ← for_each iso_column date_columns result_df;
        Ok (Some (set_constant result_df (u "etl_timestamp") (PStr now)))
  end.

End Transform.
End TransformFrame.

(** ** loading.py: the table and the load *)

Module Schema.
Import Py Frame.

(** The columns of [france_travail_jobs] that [create_jobs_table]
    declares, in order. *)
Definition jobs_table_columns : list str :=
  map u
    ["id"; "intitule"; "description_clean"; "entreprise_clean";
     "lieu_travail"; "type_contrat"; "contract_type_std";
     "experience_level"; "min_salary"; "max_salary"; "salary_periodicity";
     "currency"; "date_creation"; "date_actualisation"; "keyword_count";
     "has_python"; "has_java"; "has_javascript"; "has_sql"; "has_aws";
     "has_machine_learning"; "etl_timestamp"; "source"]%string.

Section Load.

Variable engine : Type.

(** [df.to_sql(...)]: whether the insert went through, [false] standing
    for a [SQLAlchemyError]. *)
Variable to_sql : DataFrame -> engine -> bool.

Definition load_jobs_to_database (df : option DataFrame) (e : option engine)
    : Z :=
  match df, e with
  | Some df, Some e =>
      if to_sql df e then Z.of_nat (nrows df) else 0%Z
  | _, _ => 0%Z
  end.

End Load.
End Schema.

(** ** extraction.py: [extract_by_date_range] *)

Module DateRange.
Import Py Extraction.

(** [s.split(sep)] for a one-character separator. *)
Fixpoint split_on (sep : N) (s : str) : list str :=
  match s with
  | [] => [[]]
  | c :: s' =>
      if c =? sep then [] :: split_on sep s'
      else
        match split_on sep s' with
        | part :: parts => (c :: part) :: parts
        | [] => [[c]]
        end
  end.

(** [os.path.basename(p)], with [/] as the separator. *)
Definition basename (p : str) : str := List.last (split_on 47 p) [].

(** [a <= b] on strings: lexicographic, by code point. *)
Fixpoint str_leb (a b : str) : bool :=
  match a, b with
  | [], _ => true
  | _ :: _, [] => false
  | x :: a', y :: b' =>
      if x <? y then true else if x =? y then str_leb a' b' else false
  end.

Section ByDate.

Variable payload : Type.

(** [c.isdigit()] for a character; the file system and the bucket: the
    local listing, the reading of a file, the keys [list_s3_files()]
    returns, what [download_s3_file] returns for a key; and the day. *)
Variable isdigit : N -> bool.
Variable read_json_file : str -> option (document payload).
Variable list_raw_data_files : list str.
Variable list_s3_files : list str.
Variable download_s3_file : str -> option str.
Variable today : str.

(** The inner loop: the first part of 8 digits, where the loop breaks. *)
Fixpoint file_date (date_parts : list str) : option str :=
  match date_parts with
  | [] => None
  | part :: rest =>
      if (length part =? 8)%nat && forallb isdigit part then Some part
      else file_date rest
  end.

(** Whether the outer loop appends the file. *)
Definition in_range (start_date end_date file_path : str) : bool :=
  match file_date (split_on 95 (basename file_path)) with
  | Some d => str_leb start_date d && str_leb d end_date
  | None => false
  end.

(** The loop over the selected keys of the bucket. *)
Fixpoint download_missing (local_filenames keys : list str) : list str :=
  match keys with
  | [] => []
  | s3_key :: keys' =>
      if negb (existsb (str_eqb (basename s3_key)) local_filenames) then
        match download_s3_file s3_key with
        | Some (c :: p) => (c :: p) :: download_missing local_filenames keys'
        | _ => download_missing local_filenames keys'
        end
      else download_missing local_filenames keys'
  end.

(** The files [extract_by_date_range] hands to
    [extract_jobs_to_dataframe]. *)
Definition all_files (start_date : str) (end_date : option str)
    (include_s3 : bool) : list str :=
  let end_date :=
    match end_date with
    | None | Some [] => today
    | Some d => d
    end in
  let filtered_local_files :=
    List.filter (in_range start_date end_date) list_raw_data_files in
  let downloaded_s3_files :=
    if include_s3 then
      let filtered_s3_files :=
        List.filter (in_range start_date end_date) list_s3_files in
      download_missing (map basename filtered_local_files) filtered_s3_files
    else [] in
  filtered_local_files ++ downloaded_s3_files.

Definition extract_by_date_range (start_date : str) (end_date : option str)
    (include_s3 : bool) : option (list (offer payload)) :=
  extract_jobs_to_dataframe read_json_file list_raw_data_files
    (Some (all_files start_date end_date include_s3)).

End ByDate.
End DateRange.

(** ** run_pipeline.py: [main] *)

Module RunPipeline.
Import Py Loading.

Inductive step :=
| extraction
| transformation
| keyword_analysis
| to_csv
| load_preparation
| db_connection
| table_creation
| load.

Definition ran (A : Type) : Type := A * list step.

#[global] Instance ran_ret : MRet ran := fun A a => (a, []).
#[global] Instance ran_bind : MBind ran := fun A B f m =>
  let '(b, t) := f m.1 in (b, m.2 ++ t).

Definition run {A} (s : step) (result : A) : ran A := (result, [s]).

Section Main.

Variables frame engine : Type.

(** The outcomes of the stages ([len(raw_df)] for the extracted frame),
    and the command line. *)
Variable extract_by_date_range : option frame.
Variable len_raw : frame -> nat.
Variable transform_job_dataframe : frame -> option frame.
Variable apply_keyword_analysis : frame -> frame.
Variable prepare_job_data_for_loading : frame -> option frame.
Variable get_db_connection : option engine.
Variable create_jobs_table : engine -> bool.
Variable load_jobs_to_database : frame -> engine -> Z.
Variables skip_db output_csv : bool.

(** [main], once the prerequisites are met and the imports done, when no
    stage raises: its exit code. *)
Definition main : ran Z :=
  raw_df ← run extraction extract_by_date_range;
  match raw_df with
  | None => mret 0%Z
  | Some raw_df =>
      if (len_raw raw_df =? 0)%nat then mret 0%Z
      else
        transformed_df ← run transformation (transform_job_dataframe raw_df);
        match transformed_df with
        | None => mret 1%Z
        | Some transformed_df =>
            transformed_df ← run keyword_analysis
                               (apply_keyword_analysis transformed_df);
            _ ← (if output_csv then run to_csv tt else mret tt);
            if negb skip_db then
              load_ready_df ← run load_preparation
                                (prepare_job_data_for_loading transformed_df);
              match load_ready_df with
              | None => mret 1%Z
              | Some load_ready_df =>
                  engine ← run db_connection get_db_connection;
                  match engine with
                  | None => mret 1%Z
                  | Some engine =>
                      ok ← run table_creation (create_jobs_table engine);
                      if ok : bool then
                        _ ← run load
                              (load_jobs_to_database load_ready_df engine);
                        mret 0%Z
                      else mret 1%Z
                  end
              end
            else mret 0%Z
        end
  end.

End Main.
End RunPipeline.

(** * Further properties *)

(** ** The unified set: what does not depend on the batches' order, what
    is counted, what is kept *)

Section ExtractionExtras.
Import Py Extraction.
Context {path payload : Type}.
Variable read_json_file : path -> option (document payload).
Variable list_raw_data_files : list path.

(** The rows of a result, none for [None]. *)
Definition rows_of (df : option (list (offer payload))) : list (offer payload) :=
  match df with
  | Some rows => rows
  | None => []
  end.

Lemma rows_of_extract (file_list : option (list path)) :
  rows_of (extract_jobs_to_dataframe read_json_file list_raw_data_files
             file_list) =
  collected ∅ (postings read_json_file
                 (processed list_raw_data_files file_list)).
Proof.
  rewrite extract_jobs_to_dataframe_collected.
  destruct (collected ∅ _); reflexivity.
Qed.

Lemma collected_in (ids : gset key) (l : list (offer payload)) r :
  In r (collected ids l) -> In r l.
Proof.
  intros Hin. destruct (collected_first _ _ _ Hin) as [pre [post [-> _]]].
  apply in_or_app. right. left. reflexivity.
Qed.

Lemma collected_keys (l : list (offer payload)) (k : key) :
  (exists r, In r (collected ∅ l) /\ id_key r = k) <->
  (exists o, In o l /\ has_id o = true /\ id_key o = k).
Proof.
  split.
  - intros [r [Hr Hk]]. exists r.
    pose proof (collected_fresh _ _ _ Hr) as [Hid _].
    split; [eapply collected_in, Hr|]. split; assumption.
  - intros [o [Ho [Hid Hk]]].
    destruct (collected_covers ∅ l o Ho Hid) as [r [Hr Hkr]]; [set_solver|].
    exists r. split; [exact Hr|congruence].
Qed.

Lemma processed_some (files : list path) :
  files <> [] -> processed list_raw_data_files (Some files) = files.
Proof. destruct files; [congruence|reflexivity]. Qed.

(** X1: which ids end up in the dataset does not depend on the order of
    the batch files: two orders of the same files give datasets with the
    same ids (only the posting that stands for an id may differ). *)
Theorem extracted_ids_order_independent (files1 files2 : list path) (k : key) :
  Permutation files1 files2 ->
  (exists r,
     In r (rows_of (extract_jobs_to_dataframe read_json_file
                      list_raw_data_files (Some files1))) /\
     id_key r = k) <->
  (exists r,
     In r (rows_of (extract_jobs_to_dataframe read_json_file
                      list_raw_data_files (Some files2))) /\
     id_key r = k).
Proof.
  intros Hperm. rewrite !rows_of_extract, !collected_keys.
  assert (Permutation
            (postings read_json_file
               (processed list_raw_data_files (Some files1)))
            (postings read_json_file
               (processed list_raw_data_files (Some files2)))) as Hp.
  { destruct files1 as [|f1 files1].
    - apply Permutation_nil in Hperm. subst files2. reflexivity.
    - assert (files2 <> []) as Hne.
      { intros ->. symmetry in Hperm. apply Permutation_nil in Hperm.
        discriminate. }
      rewrite (processed_some files2 Hne).
      rewrite processed_some by discriminate.
      unfold postings. apply Permutation_flat_map, Hperm. }
  split; intros [o [Ho Hrest]]; exists o; (split; [|exact Hrest]).
  - eapply Permutation_in; [exact Hp|exact Ho].
  - eapply Permutation_in; [symmetry; exact Hp|exact Ho].
Qed.

(** X2: the dataset has as many rows as the postings of the processed
    batches have distinct ids. *)
Theorem extracted_count_distinct_ids (file_list : option (list path)) :
  length (rows_of (extract_jobs_to_dataframe read_json_file
                     list_raw_data_files file_list)) =
  size (list_to_set
          (map id_key
             (List.filter has_id
                (postings read_json_file
                   (processed list_raw_data_files file_list))))
        : gset key).
Proof.
  rewrite rows_of_extract.
  set (all := postings read_json_file
                (processed list_raw_data_files file_list)).
  rewrite <- (length_map id_key (collected ∅ all)).
  rewrite <- (size_list_to_set (C := gset key))
    by apply collected_NoDup.
  f_equal. apply set_eq. intros k.
  rewrite !elem_of_list_to_set, !list_elem_of_In, !in_map_iff.
  split.
  - intros [r [Hk Hr]].
    destruct (proj1 (collected_keys all k)) as [o [Ho [Hid Hko]]]; [eauto|].
    exists o. split; [exact Hko|]. apply filter_In. auto.
  - intros [o [Hk [Ho Hid]%filter_In]].
    destruct (proj2 (collected_keys all k)) as [r [Hr Hkr]]; [eauto|].
    eauto.
Qed.

Lemma collected_all (ids : gset key) (l : list (offer payload)) :
  NoDup (map id_key l) ->
  (forall o, In o l -> has_id o = true /\ id_key o ∉ ids) ->
  collected ids l = l.
Proof.
  revert ids. induction l as [|o l IH]; intros ids Hnd Hall; [reflexivity|].
  cbn [map] in Hnd. apply NoDup_cons in Hnd as [Hfresh Hnd].
  destruct (Hall o (or_introl eq_refl)) as [Hid Hn].
  cbn [collected]. rewrite Hid, bool_decide_true by exact Hn. cbn [andb].
  f_equal. apply IH; [exact Hnd|].
  intros x Hx. destruct (Hall x (or_intror Hx)) as [Hidx Hnx].
  split; [exact Hidx|].
  intros [Hin|Hin]%elem_of_union; [|contradiction].
  apply elem_of_singleton in Hin. apply Hfresh.
  rewrite <- Hin. apply list_elem_of_In, in_map, Hx.
Qed.

(** X3: when every posting of the processed batches has an id and no two
    have the same, nothing is dropped: the dataset is the sequence of all
    postings, in order. *)
Theorem unique_ids_nothing_dropped (file_list : option (list path)) :
  postings read_json_file (processed list_raw_data_files file_list) <> [] ->
  NoDup (map id_key
           (postings read_json_file
              (processed list_raw_data_files file_list))) ->
  (forall o,
     In o (postings read_json_file
             (processed list_raw_data_files file_list)) ->
     has_id o = true) ->
  extract_jobs_to_dataframe read_json_file list_raw_data_files file_list =
  Some (postings read_json_file (processed list_raw_data_files file_list)).
Proof.
  intros Hne Hnd Hall. rewrite extract_jobs_to_dataframe_collected.
  rewrite collected_all; [|exact Hnd|].
  - destruct (postings _ _); [congruence|reflexivity].
  - intros o Ho. split; [auto|set_solver].
Qed.


End ExtractionExtras.

(** Three batch files for the examples: two that share the posting 2, and
    one that cannot be read. *)
Definition example_posting (n : Z) : Extraction.offer unit :=
  Extraction.mkOffer (Some (Py.SInt n)) tt.

Definition example_batches (p : nat) : option (Extraction.document unit) :=
  match p with
  | 0%nat =>
      Some (Extraction.mkDocument (Some [example_posting 1; example_posting 2]))
  | 1%nat =>
      Some (Extraction.mkDocument (Some [example_posting 2; example_posting 3]))
  | _ => None
  end.

Lemma extracted_ids_order_independent_witness :
  (exists r,
     In r (rows_of (Extraction.extract_jobs_to_dataframe example_batches []
                      (Some [0; 1]%nat))) /\
     id_key r = Some (inl 2%Z)) <->
  (exists r,
     In r (rows_of (Extraction.extract_jobs_to_dataframe example_batches []
                      (Some [1; 0]%nat))) /\
     id_key r = Some (inl 2%Z)).
Proof.
  exact (extracted_ids_order_independent example_batches []
           [0; 1]%nat [1; 0]%nat (Some (inl 2%Z)) (perm_swap _ _ _)).
Defined.

Lemma unique_ids_nothing_dropped_witness :
  Extraction.extract_jobs_to_dataframe example_batches [] (Some [0%nat]) =
  Some [example_posting 1; example_posting 2].
Proof.
  apply (unique_ids_nothing_dropped example_batches [] (Some [0%nat])).
  - discriminate.
  - cbn. apply NoDup_cons. split.
    + rewrite list_elem_of_In. cbn. intros [H|[]]. discriminate H.
    + apply NoDup_cons. split; [|apply NoDup_nil; exact I].
      rewrite list_elem_of_In. intros [].
  - cbn. intros o [<-|[<-|[]]]; reflexivity.
Defined.


(** ** The batches of a date range *)

Section DateRangeExtras.
Import Py Extraction DateRange.
Context {payload : Type}.
Variable isdigit : N -> bool.
Variable read_json_file : str -> option (document payload).
Variable list_raw_data_files : list str.
Variable list_s3_files : list str.
Variable download_s3_file : str -> option str.
Variable today : str.

(** A part of a file name that reads as a date: 8 characters, all
    digits. *)
Definition date_part (part : str) : bool :=
  (length part =? 8)%nat && forallb isdigit part.

(** The end of the range a call uses. *)
Definition effective_end (end_date : option str) : str :=
  match end_date with
  | None | Some [] => today
  | Some d => d
  end.

Lemma file_date_first (parts : list str) (d : str) :
  file_date isdigit parts = Some d <->
  exists pre post,
    parts = pre ++ d :: post /\ date_part d = true /\
    Forall (fun p => date_part p = false) pre.
Proof.
  induction parts as [|p parts IH]; cbn [file_date].
  - split; [discriminate|]. intros [[|? ?] [post [Heq _]]]; discriminate.
  - fold (date_part p). destruct (date_part p) eqn:Hp.
    + split.
      * intros [= ->]. exists [], parts. auto.
      * intros [[|q pre] [post [Heq [Hd Hpre]]]].
        -- injection Heq as -> _. reflexivity.
        -- injection Heq as -> _. apply Forall_cons_1 in Hpre as [Hq _].
           congruence.
    + rewrite IH. split.
      * intros [pre [post [-> [Hd Hpre]]]].
        exists (p :: pre), post. split; [reflexivity|]. split; [exact Hd|].
        constructor; assumption.
      * intros [[|q pre] [post [Heq [Hd Hpre]]]].
        -- injection Heq as -> _. congruence.
        -- injection Heq as -> ->. apply Forall_cons_1 in Hpre as [_ Hpre].
           eauto.
Qed.

(** X5: a file is in the range exactly when the first part of its base
    name, cut at the underscores, that is made of 8 digits lies between
    the two dates in lexicographic order; a later part of 8 digits is not
    looked at, and a name without such a part is never in the range. *)
Theorem in_range_first_date_part (start_date end_date file_path : str) :
  in_range isdigit start_date end_date file_path = true <->
  exists pre d post,
    split_on 95 (basename file_path) = pre ++ d :: post /\
    date_part d = true /\
    Forall (fun p => date_part p = false) pre /\
    str_leb start_date d = true /\ str_leb d end_date = true.
Proof.
  unfold in_range.
  destruct (file_date isdigit (split_on 95 (basename file_path)))
    as [d|] eqn:E.
  - apply file_date_first in E as [pre [post [Heq [Hd Hpre]]]]. split.
    + intros [H1 H2]%andb_prop. exists pre, d, post. auto.
    + intros [pre' [d' [post' [Heq' [Hd' [Hpre' [H1 H2]]]]]]].
      assert (file_date isdigit (split_on 95 (basename file_path)) = Some d')
        as E' by (apply file_date_first; eauto).
      assert (file_date isdigit (split_on 95 (basename file_path)) = Some d)
        as E'' by (apply file_date_first; eauto).
      rewrite E' in E''. injection E'' as ->. rewrite H1, H2. reflexivity.
  - split; [discriminate|].
    intros [pre [d [post [Heq [Hd [Hpre _]]]]]].
    assert (file_date isdigit (split_on 95 (basename file_path)) = Some d)
      as E' by (apply file_date_first; eauto).
    congruence.
Qed.

Lemma str_leb_trans (a b c : str) :
  str_leb a b = true -> str_leb b c = true -> str_leb a c = true.
Proof.
  revert b c. induction a as [|x a IH]; intros [|y b] [|z c]; cbn;
    try congruence.
  destruct (N.ltb_spec x y), (N.ltb_spec y z), (N.ltb_spec x z);
    try reflexivity; try lia;
    destruct (N.eqb_spec x y), (N.eqb_spec y z), (N.eqb_spec x z);
    try congruence; try lia.
  apply IH.
Qed.

(** X6: widening the range keeps every file that was in it. *)
Theorem in_range_widen (s s' e e' file_path : str) :
  str_leb s' s = true -> str_leb e e' = true ->
  in_range isdigit s e file_path = true ->
  in_range isdigit s' e' file_path = true.
Proof.
  intros Hs He. unfold in_range.
  destruct (file_date isdigit _) as [d|]; [|discriminate].
  intros [H1 H2]%andb_prop.
  rewrite (str_leb_trans _ _ _ Hs H1), (str_leb_trans _ _ _ H2 He).
  reflexivity.
Qed.

Lemma download_missing_in (local_filenames keys : list str) (f : str) :
  In f (download_missing download_s3_file local_filenames keys) ->
  exists s3_key,
    In s3_key keys /\ download_s3_file s3_key = Some f /\
    ~ In (basename s3_key) local_filenames.
Proof.
  induction keys as [|k keys IH]; cbn [download_missing]; [intros []|].
  destruct (existsb (str_eqb (basename k)) local_filenames) eqn:E;
    cbn [negb].
  - intros Hin. destruct (IH Hin) as [k' [Hk' Hrest]].
    exists k'. split; [right; exact Hk'|exact Hrest].
  - assert (~ In (basename k) local_filenames) as Hno.
    { intros Hin. apply not_true_iff_false in E. apply E.
      apply existsb_exists. exists (basename k).
      split; [exact Hin|apply str_eqb_refl]. }
    destruct (download_s3_file k) as [[|c p]|] eqn:Ed.
    + intros Hin. destruct (IH Hin) as [k' [Hk' Hrest]].
      exists k'. split; [right; exact Hk'|exact Hrest].
    + intros [<-|Hin].
      * exists k. split; [left; reflexivity|]. split; assumption.
      * destruct (IH Hin) as [k' [Hk' Hrest]].
        exists k'. split; [right; exact Hk'|exact Hrest].
    + intros Hin. destruct (IH Hin) as [k' [Hk' Hrest]].
      exists k'. split; [right; exact Hk'|exact Hrest].
Qed.

(** X7: every file that [extract_by_date_range] hands to the extraction
    is a local file in the range, or the download of a key of the bucket
    that is in the range and whose base name is that of no selected local
    file; without the bucket only local files are handed over. *)
Theorem all_files_in_range (start_date : str) (end_date : option str)
    (include_s3 : bool) (f : str) :
  In f (all_files isdigit list_raw_data_files list_s3_files
          download_s3_file today start_date end_date include_s3) ->
  (In f list_raw_data_files /\
   in_range isdigit start_date (effective_end end_date) f = true) \/
  (include_s3 = true /\
   exists s3_key,
     In s3_key list_s3_files /\
     in_range isdigit start_date (effective_end end_date) s3_key = true /\
     download_s3_file s3_key = Some f /\
     ~ In (basename s3_key)
         (map basename
            (List.filter
               (in_range isdigit start_date (effective_end end_date))
               list_raw_data_files))).
Proof.
  unfold all_files. fold (effective_end end_date).
  intros [Hin|Hin]%in_app_or.
  - left. apply filter_In in Hin. exact Hin.
  - right. destruct include_s3; [|destruct Hin].
    split; [reflexivity|].
    apply download_missing_in in Hin as [k [Hk [Hd Hno]]].
    apply filter_In in Hk as [Hk Hr]. exists k. auto.
Qed.

(** X8: when no local file is in the range and nothing is downloaded,
    [extract_by_date_range] does not return an empty result: the
    extraction falls back to every file of the local directory, whatever
    its date. *)
Theorem no_file_in_range_processes_all (start_date : str)
    (end_date : option str) (include_s3 : bool) :
  all_files isdigit list_raw_data_files list_s3_files download_s3_file
    today start_date end_date include_s3 = [] ->
  extract_by_date_range payload isdigit read_json_file list_raw_data_files
    list_s3_files download_s3_file today start_date end_date include_s3 =
  extract_jobs_to_dataframe read_json_file list_raw_data_files
    (Some list_raw_data_files).
Proof.
  intros Hnone. unfold extract_by_date_range. rewrite Hnone.
  rewrite !extract_jobs_to_dataframe_collected.
  destruct list_raw_data_files; reflexivity.
Qed.

End DateRangeExtras.

(** A local directory with one dated batch and one undated file, a bucket
    with one dated batch, for the examples. *)
Definition example_local : list Py.str :=
  [Py.u "data/raw/france_travail/france_travail_offres_20240105_093000.json";
   Py.u "data/raw/france_travail/notes.json"].

Definition example_bucket : list Py.str :=
  [Py.u "raw/france_travail/france_travail_offres_20240106_1.json"].

Definition example_download (s3_key : Py.str) : option Py.str :=
  Some (Py.u "data/temp/s3_downloads/" ++ DateRange.basename s3_key).

Lemma in_range_widen_witness :
  DateRange.in_range (Py.between 48 57) (Py.u "20240101") (Py.u "20240131")
    (Py.u "data/raw/france_travail/france_travail_offres_20240105_093000.json")
  = true.
Proof.
  apply (in_range_widen (Py.between 48 57) (Py.u "20240105")
           (Py.u "20240101") (Py.u "20240105") (Py.u "20240131"));
    vm_compute; reflexivity.
Defined.

Lemma all_files_in_range_witness :
  (In (Py.u "data/temp/s3_downloads/france_travail_offres_20240106_1.json")
      example_local /\
   DateRange.in_range (Py.between 48 57) (Py.u "20240101")
     (effective_end (Py.u "20240107") None)
     (Py.u "data/temp/s3_downloads/france_travail_offres_20240106_1.json")
   = true) \/
  (true = true /\
   exists s3_key,
     In s3_key example_bucket /\
     DateRange.in_range (Py.between 48 57) (Py.u "20240101")
       (effective_end (Py.u "20240107") None) s3_key = true /\
     example_download s3_key =
       Some (Py.u "data/temp/s3_downloads/france_travail_offres_20240106_1.json") /\
     ~ In (DateRange.basename s3_key)
         (map DateRange.basename
            (List.filter
               (DateRange.in_range (Py.between 48 57) (Py.u "20240101")
                  (effective_end (Py.u "20240107") None))
               example_local))).
Proof.
  apply (all_files_in_range (Py.between 48 57) example_local example_bucket
           example_download (Py.u "20240107") (Py.u "20240101") None true).
  vm_compute. right. left. reflexivity.
Defined.

Lemma no_file_in_range_processes_all_witness :
  DateRange.extract_by_date_range unit (Py.between 48 57) (fun _ => None)
    example_local example_bucket example_download (Py.u "20240107")
    (Py.u "20250101") None true =
  Extraction.extract_jobs_to_dataframe (fun _ => None) example_local
    (Some example_local).
Proof.
  apply (no_file_in_range_processes_all (Py.between 48 57) (fun _ => None)
           example_local example_bucket example_download (Py.u "20240107")
           (Py.u "20250101") None true).
  vm_compute. reflexivity.
Defined.

(** ** The transformer *)

Section TransformFacts.
Import Py Frame Transformation TransformFrame.
Context {U : Unicode}.
Variable to_iso_date : list pyval -> list pyval.
Variable now : str.










(** A step of the transformation that returns, keeps the rows and the
    columns there are, and writes no column outside [W]. *)
Definition writes (W : list str) (f : DataFrame -> exc DataFrame) : Prop :=
  forall d, exists d',
    f d = Ok d' /\ nrows d' = nrows d /\
    (forall c, has_column d c = true -> has_column d' c = true) /\
    (forall c, ~ In c W ->
       lookup_column (columns d') c = lookup_column (columns d) c).

Lemma writes_nothing (W : list str) : writes W (fun d => Ok d).
Proof. intros d. exists d. auto. Qed.

Lemma has_column_set (d : DataFrame) (col c : str) (cells : list pyval) :
  has_column (set_column d col cells) c = true <->
  col = c \/ has_column d c = true.
Proof.
  rewrite !has_column_lookup. cbn [set_column columns].
  setoid_rewrite lookup_assign.
  destruct (str_eqb col c) eqn:E.
  - apply str_eqb_eq in E. split; eauto.
  - apply str_eqb_neq in E. split; [auto|]. intros [?|?]; [contradiction|auto].
Qed.

Lemma writes_set (W : list str) (col : str)
    (cells : DataFrame -> exc (list pyval)) :
  In col W ->
  (forall d, exists v, cells d = Ok v) ->
  writes W (fun d => v ← cells d; Ok (set_column d col v)).
Proof.
  intros Hcol Hcells d. destruct (Hcells d) as [v Hv].
  exists (set_column d col v). rewrite Hv, bind_ok.
  split; [reflexivity|]. split; [reflexivity|]. split.
  - intros c Hc. apply has_column_set. auto.
  - intros c Hc. cbn [set_column columns]. rewrite lookup_assign.
    destruct (str_eqb col c) eqn:E; [|reflexivity].
    apply str_eqb_eq in E. subst. contradiction.
Qed.

Lemma writes_bind (W : list str) (f g : DataFrame -> exc DataFrame) :
  writes W f -> writes W g -> writes W (fun d => d' ← f d; g d').
Proof.
  intros Hf Hg d. destruct (Hf d) as [d1 [E1 [N1 [M1 K1]]]].
  destruct (Hg d1) as [d2 [E2 [N2 [M2 K2]]]].
  exists d2. rewrite E1, bind_ok, E2.
  split; [reflexivity|]. split; [congruence|]. split.
  - auto.
  - intros c Hc. rewrite K2, K1 by assumption. reflexivity.
Qed.

Lemma writes_for_each (W : list str) (f : DataFrame -> str -> exc DataFrame)
    (xs : list str) :
  (forall x, In x xs -> writes W (fun d => f d x)) ->
  writes W (for_each f xs).
Proof.
  induction xs as [|x xs IH]; intros Hf; cbn [for_each].
  - apply writes_nothing.
  - apply (writes_bind W (fun d => f d x) (for_each f xs)).
    + apply Hf. left. reflexivity.
    + apply IH. intros y Hy. apply Hf. right. exact Hy.
Qed.

Lemma writes_when (W : list str) (test : DataFrame -> bool)
    (f : DataFrame -> exc DataFrame) :
  writes W f -> writes W (fun d => if test d then f d else Ok d).
Proof.
  intros Hf d. destruct (test d); [apply Hf|apply writes_nothing].
Qed.

Lemma get_column_returns (d : DataFrame) (col : str) :
  has_column d col = true -> exists cells, get_column d col = Ok cells.
Proof.
  intros [cells Hc]%has_column_lookup. exists cells.
  apply get_column_found, Hc.
Qed.



(** *** The steps, one by one *)









(** *** The required columns *)



(** *** The whole transformation *)





Ltac in_names := apply existsb_str_In; vm_compute; reflexivity.



End TransformFacts.

Section TransformExtras.
Import Py Frame Transformation TransformFrame.
Context {U : Unicode}.
Variable to_iso_date : list pyval -> list pyval.
Variable now : str.





End TransformExtras.

(** ** From the transformer to the table *)

Section LoadReadyExtras.
Import Py Frame Loading Transformation TransformFrame.
Context {U : Unicode}.
Variable to_iso_date : list pyval -> list pyval.
Variable now : str.
Variable to_datetime : list pyval -> list pyval.



Lemma table_columns_spec (c : str) :
  In c Schema.jobs_table_columns <-> c = u "source" \/ In c targets.
Proof.
  split.
  - intros Hc.
    assert (forallb (fun x => str_eqb (u "source") x
                              || existsb (fun d => str_eqb d x) targets)
              Schema.jobs_table_columns = true) as Hall
      by (vm_compute; reflexivity).
    rewrite forallb_forall in Hall.
    apply Hall, orb_prop in Hc as [Hs|Ht].
    + left. symmetry. apply str_eqb_eq, Hs.
    + right. apply existsb_str_In, Ht.
  - intros [->|Hc].
    + apply existsb_str_In. vm_compute. reflexivity.
    + assert (forallb (fun x => existsb (fun d => str_eqb d x)
                                  Schema.jobs_table_columns)
                targets = true) as Hall by (vm_compute; reflexivity).
      rewrite forallb_forall in Hall. apply existsb_str_In, Hall, Hc.
Qed.

Lemma prepare_some_frame (df r : DataFrame) :
  prepare_job_data_for_loading to_datetime (Some df) = Ok (Some r) ->
  nrows df <> 0%nat /\ exists s, In s sources /\ has_column df s = true.
Proof.
  intros Hr. split.
  - intros Hn. unfold prepare_job_data_for_loading in Hr.
    rewrite Hn in Hr. discriminate.
  - destruct (some_source_or_none df) as [Hs|Hno]; [exact Hs|].
    unfold prepare_job_data_for_loading in Hr.
    destruct (nrows df =? 0)%nat; [discriminate|].
    rewrite (filter_none (fun col => has_column df col) sources Hno) in Hr.
    discriminate.
Qed.

(** X12: the columns of a prepared dataset are exactly the columns that
    [create_jobs_table] declares for [france_travail_jobs], whatever the
    columns of the input. *)
Theorem prepared_columns_are_table_columns (df r : DataFrame) (c : str) :
  prepare_job_data_for_loading to_datetime (Some df) = Ok (Some r) ->
  has_column r c = true <-> In c Schema.jobs_table_columns.
Proof.
  intros Hr. destruct (prepare_some_frame df r Hr) as [Hn Hs].
  destruct (prepare_frame to_datetime df Hn Hs) as [r' [Hr' [_ Hl]]].
  assert (r' = r) as -> by congruence.
  rewrite table_columns_spec, has_column_lookup, Hl.
  destruct (str_eqb (u "source") c) eqn:Es.
  - apply str_eqb_eq in Es. split; eauto.
  - apply str_eqb_neq in Es.
    destruct (existsb (fun d => str_eqb d c) targets) eqn:Et.
    + apply existsb_str_In in Et. split; eauto.
    + split; [intros [? [=]]|].
      intros [->|Ht%existsb_str_In]; [contradiction|congruence].
Qed.

End LoadReadyExtras.

(** ** What the keyword pass writes *)

Section KeywordExtras.
Import Py Frame Transformation.
Context {U : Unicode}.

Lemma lookup_not_in_names (cs : list (str * list pyval)) (c : str) :
  ~ In c (map fst cs) -> lookup_column cs c = None.
Proof.
  induction cs as [|[name cells] cs IH]; cbn; [reflexivity|].
  intros Hc. destruct (str_eqb name c) eqn:E.
  - apply str_eqb_eq in E. tauto.
  - apply IH. tauto.
Qed.

Lemma derived_names (cells : list pyval) :
  map fst (derived_columns cells) = keyword_columns.
Proof.
  unfold derived_columns, keyword_columns, flag_columns.
  cbn [map fst]. rewrite map_app, map_map. reflexivity.
Qed.

(** X13: on a dataset with a [description_clean] column the keyword pass
    keeps the rows and every other column, and writes, row by row: in
    [extracted_keywords] the list [extract_keywords] returns for the
    cleaned description; in [has_python], [has_java], [has_javascript],
    [has_sql], [has_aws] and [has_machine_learning] 1 when that technology
    is in the list and 0 when not; in [keyword_count] the length of the
    list. *)
Theorem keyword_pass_columns (df : DataFrame) (cells : list pyval) :
  lookup_column (columns df) (u "description_clean") = Some cells ->
  exists r,
    apply_keyword_analysis (Some df) = Ok (Some r) /\
    nrows r = nrows df /\
    mapM extract_keywords cells =
      Ok (map (fun v => PList (keyword_list v)) cells) /\
    get_column r (u "extracted_keywords") =
      Ok (map (fun v => PList (keyword_list v)) cells) /\
    (forall tech, In tech main_techs ->
       get_column r (has_column_name tech) =
       Ok (map (fun v =>
                  PInt (if existsb (py_eq (PStr tech)) (keyword_list v)
                        then 1 else 0)) cells)) /\
    get_column r (u "keyword_count") =
      Ok (map (fun v => PInt (Z.of_nat (length (keyword_list v)))) cells) /\
    (forall c, ~ In c keyword_columns ->
       lookup_column (columns r) c = lookup_column (columns df) c).
Proof.
  intros Hd. eexists.
  split; [apply (apply_keyword_analysis_columns _ _ Hd)|].
  split; [reflexivity|].
  split; [apply mapM_pure; intros; apply extract_keywords_list|].
  pose proof (derived_columns_found (columns df) cells) as Hall.
  rewrite Forall_forall in Hall.
  assert (forall p, In p (derived_columns cells) ->
            get_column
              (mkFrame (nrows df)
                 (assign_all (columns df) (derived_columns cells))) p.1
            = Ok p.2) as Hget.
  { intros p Hp. apply get_column_found. cbn [columns].
    apply Hall, list_elem_of_In, Hp. }
  split; [|split; [|split]].
  - rewrite (Hget (u "extracted_keywords",
                   map PList (map keyword_list cells)))
      by (left; reflexivity).
    cbn [snd]. rewrite map_map. reflexivity.
  - intros tech Ht.
    rewrite (Hget (has_column_name tech,
                   map (flag tech) (map keyword_list cells))).
    + cbn [snd]. rewrite map_map. reflexivity.
    + right. apply in_or_app. left. unfold flag_columns.
      apply (in_map (fun t => (has_column_name t,
                               map (flag t) (map keyword_list cells)))
               main_techs tech Ht).
  - rewrite (Hget (u "keyword_count",
                   map count (map keyword_list cells))).
    + cbn [snd]. rewrite map_map. reflexivity.
    + right. apply in_or_app. right. left. reflexivity.
  - intros c Hc. cbn [columns]. rewrite lookup_assign_all.
    rewrite lookup_not_in_names; [reflexivity|].
    rewrite map_rev, <- in_rev, derived_names. exact Hc.
Qed.

End KeywordExtras.

(** ** The command-line run *)

Section RunPipelineExtras.
Import Py RunPipeline.
Variables frame engine : Type.
Variable extract : option frame.
Variable len_raw : frame -> nat.
Variable transform : frame -> option frame.
Variable keywords : frame -> frame.
Variable prepare : frame -> option frame.
Variable connect : option engine.
Variable create_table : engine -> bool.
Variable load_rows : frame -> engine -> Z.
Variables skip_db output_csv : bool.

(** X14: [main] exits with 0 or 1.  With [--skip-db] it runs none of the
    database stages; the CSV is written only with [--output-csv]; and
    whenever the load stage runs the exit code is 0 whatever number of
    rows the load reports, so that an exit code 1 means that nothing was
    loaded. *)
Theorem main_exit_code :
  let result :=
    main frame engine extract len_raw transform keywords prepare connect
      create_table load_rows skip_db output_csv in
  (result.1 = 0%Z \/ result.1 = 1%Z) /\
  (skip_db = true ->
   forall s, In s result.2 ->
     In s [extraction; transformation; keyword_analysis; to_csv]) /\
  (output_csv = false -> ~ In to_csv result.2) /\
  (In load result.2 -> result.1 = 0%Z) /\
  (result.1 = 1%Z -> ~ In load result.2).
Proof.
  unfold main.
  destruct extract as [raw|]; cbn; [|intuition discriminate].
  destruct (len_raw raw =? 0)%nat; cbn; [intuition discriminate|].
  destruct (transform raw) as [t|]; cbn; [|intuition discriminate].
  destruct output_csv, skip_db; cbn; try (intuition discriminate);
    (destruct (prepare (keywords t)) as [l|]; cbn; [|intuition discriminate];
     destruct connect as [e|]; cbn; [|intuition discriminate];
     destruct (create_table e); cbn; intuition discriminate).
Qed.

End RunPipelineExtras.

(** A raw dataset of two postings, the second without description, for
    the examples. *)
Definition example_frame : Frame.DataFrame :=
  Frame.mkFrame 2
    [(Py.u "id", [Py.PStr (Py.u "A1"); Py.PStr (Py.u "B2")]);
     (Py.u "description",
      [Py.PStr (Py.u "<p>Dev Python  junior</p>"); Py.PNone])].





(** What the preparation makes of the example dataset. *)
Definition example_prepared : Frame.DataFrame :=
  match Loading.prepare_job_data_for_loading (fun cells => cells)
          (Some example_frame) with
  | Py.Ok (Some r) => r
  | _ => Frame.mkFrame 0 []
  end.

Lemma prepared_columns_are_table_columns_witness :
  Frame.has_column example_prepared (Py.u "has_sql") = true <->
  In (Py.u "has_sql") Schema.jobs_table_columns.
Proof.
  apply (prepared_columns_are_table_columns (fun cells => cells)
           example_frame example_prepared (Py.u "has_sql")).
  vm_compute. reflexivity.
Defined.

Lemma keyword_pass_columns_witness :
  exists r,
    @Transformation.apply_keyword_analysis Py.latin1
      (Some (Frame.mkFrame 1
               [(Py.u "description_clean",
                 [Py.PStr (Py.u "Dev Python et SQL")])]))
    = Py.Ok (Some r) /\
    Frame.get_column r (Py.u "keyword_count") = Py.Ok [Py.PInt 2].
Proof.
  destruct (keyword_pass_columns (U := Py.latin1)
              (Frame.mkFrame 1
                 [(Py.u "description_clean",
                   [Py.PStr (Py.u "Dev Python et SQL")])])
              [Py.PStr (Py.u "Dev Python et SQL")] eq_refl)
    as (r & Hr & _ & _ & _ & _ & Hcount & _).
  exists r. split; [exact Hr|]. rewrite Hcount. vm_compute. reflexivity.
Defined.

(** ** Amounts and their separators *)

Section AmountExtras.
Import Py Re Transformation.
Context {U : Unicode}.

Lemma scan_chr (p : N -> bool) (prev : option N) (s : str) :
  scan (Chr p) 0 prev s =
  map (fun c => if p c then inr (Matched [c] None) else inl c) s.
Proof.
  revert prev. induction s as [|c s IH]; intros prev; [reflexivity|].
  cbn [scan rmatch m_rest map]. destruct (p c); cbn [m_len take].
  - rewrite IH. reflexivity.
  - rewrite IH. reflexivity.
Qed.

Lemma sub_str_chr (p : N -> bool) (s : str) :
  sub_str (Chr p) [] s = List.filter (fun c => negb (p c)) s.
Proof.
  unfold sub_str. rewrite scan_chr.
  induction s as [|c s IH]; [reflexivity|].
  cbn [map flat_map List.filter]. destruct (p c); cbn [negb app]; congruence.
Qed.

(** The separators of an amount: its commas and dots. *)
Definition separators (a : str) : nat :=
  length (List.filter (fun c => (c =? 44) || (c =? 46)) a).

Definition dots (s : str) : nat := length (List.filter (N.eqb 46) s).

Definition digit_or_dot (c : N) : bool := is_decimal c || (c =? 46).

Lemma digits_value_rest (acc : N) (s : str) :
  (digits_value acc s).2 = drop_while is_decimal s.
Proof.
  revert acc. induction s as [|c s IH]; intros acc; [reflexivity|].
  cbn [digits_value drop_while]. unfold is_decimal at 1.
  destruct (u_decimal c); [apply IH|reflexivity].
Qed.

Lemma drop_while_head (p : N -> bool) (s : str) (c : N) (r : str) :
  drop_while p s = c :: r -> p c = false /\ In c s.
Proof.
  induction s as [|x s IH]; cbn [drop_while]; [discriminate|].
  destruct (p x) eqn:E.
  - intros H. destruct (IH H). split; [assumption|right; assumption].
  - intros [= -> ->]. split; [exact E|left; reflexivity].
Qed.

Lemma drop_while_all (p : N -> bool) (s : str) (r : str) :
  drop_while p s = r -> Forall (fun c => digit_or_dot c = true) s ->
  Forall (fun c => digit_or_dot c = true) r.
Proof.
  intros <-. induction s as [|x s IH]; cbn [drop_while]; [auto|].
  intros Hall. destruct (p x); [|exact Hall].
  apply IH. apply Forall_cons_1 in Hall. tauto.
Qed.

Hypothesis dot_not_decimal : u_decimal 46 = None.
Hypothesis comma_not_decimal : u_decimal 44 = None.

Lemma dots_drop_digits (s : str) :
  dots (drop_while is_decimal s) = dots s.
Proof.
  unfold dots. induction s as [|c s IH]; [reflexivity|].
  cbn [drop_while]. destruct (is_decimal c) eqn:E; [|reflexivity].
  rewrite IH. cbn [List.filter].
  destruct (N.eqb_spec 46 c) as [<-|_]; [|reflexivity].
  unfold is_decimal in E. rewrite dot_not_decimal in E. discriminate.
Qed.

Lemma no_dots_all_digits (s : str) :
  Forall (fun c => digit_or_dot c = true) s ->
  dots s = 0%nat -> drop_while is_decimal s = [].
Proof.
  intros Hall Hd. destruct (drop_while is_decimal s) as [|c r] eqn:E;
    [reflexivity|].
  destruct (drop_while_head _ _ _ _ E) as [Hc Hin].
  rewrite Forall_forall in Hall.
  apply list_elem_of_In, Hall in Hin. unfold digit_or_dot in Hin.
  rewrite Hc in Hin. cbn in Hin. apply N.eqb_eq in Hin. subst c.
  rewrite <- dots_drop_digits, E in Hd. unfold dots in Hd. cbn in Hd.
  discriminate.
Qed.

Lemma float_of_text_dots (d : N) (s : str) :
  is_decimal d = true ->
  Forall (fun c => digit_or_dot c = true) s ->
  (float_of_text (d :: s) = Raise ValueError <-> (2 <= dots s)%nat) /\
  ((dots s < 2)%nat -> exists q, float_of_text (d :: s) = Ok q).
Proof.
  intros Hd Hall. unfold float_of_text.
  pose proof (digits_value_rest 0 (d :: s)) as Hrest.
  destruct (digits_value 0 (d :: s)) as [ip rest]. cbn [snd] in Hrest.
  cbn [drop_while] in Hrest. rewrite Hd in Hrest. subst rest.
  destruct (drop_while is_decimal s) as [|c frac] eqn:E.
  - assert (dots s = 0%nat) as Hz
      by (rewrite <- dots_drop_digits, E; reflexivity).
    split; [split; [discriminate|lia]|eauto].
  - destruct (drop_while_head _ _ _ _ E) as [Hc Hin].
    pose proof (drop_while_all _ _ _ E Hall) as Hall'.
    apply Forall_cons_1 in Hall' as [Hcdd Hfrac].
    unfold digit_or_dot in Hcdd. rewrite Hc in Hcdd. cbn in Hcdd.
    rewrite Hcdd. apply N.eqb_eq in Hcdd. subst c.
    assert (dots s = S (dots frac)) as Hs.
    { rewrite <- dots_drop_digits, E. unfold dots. cbn. reflexivity. }
    pose proof (digits_value_rest ip frac) as Hrest'.
    destruct (digits_value ip frac) as [n rest']. cbn [snd] in Hrest'.
    subst rest'.
    destruct (drop_while is_decimal frac) as [|c' r'] eqn:E'.
    + assert (dots frac = 0%nat) as Hz
        by (rewrite <- dots_drop_digits, E'; reflexivity).
      destruct s as [|x s']; [discriminate|].
      split; [split; [discriminate|lia]|eauto].
    + assert (dots frac <> 0%nat) as Hnz.
      { intros Hz. rewrite (no_dots_all_digits frac Hfrac Hz) in E'.
        discriminate. }
      split; [split; [lia|reflexivity]|lia].
Qed.

Lemma cleaned_amount (a : str) :
  Forall (fun c => digit_or_dot c = true)
    (sub_str not_digit_dot_re [] (replace_char 44 [46] a)) /\
  dots (sub_str not_digit_dot_re [] (replace_char 44 [46] a)) = separators a.
Proof.
  unfold not_digit_dot_re. rewrite sub_str_chr.
  unfold dots, separators, replace_char.
  induction a as [|c a [IH1 IH2]]; [split; [constructor|reflexivity]|].
  cbn [flat_map]. destruct (N.eqb_spec c 44) as [->|Hc44].
  - cbn [app List.filter]. rewrite negb_involutive.
    replace (is_decimal 46 || (46 =? 46)) with true
      by (rewrite N.eqb_refl, orb_true_r; reflexivity).
    cbn [List.filter]. rewrite N.eqb_refl.
    replace ((44 =? 44) || (44 =? 46)) with true by reflexivity.
    cbn [length]. split; [|congruence].
    constructor; [|exact IH1].
    unfold digit_or_dot. rewrite N.eqb_refl, orb_true_r. reflexivity.
  - cbn [app List.filter]. rewrite negb_involutive.
    fold (digit_or_dot c).
    replace (c =? 44) with false by (symmetry; apply N.eqb_neq, Hc44).
    rewrite orb_false_l.
    destruct (digit_or_dot c) eqn:Edd.
    + split; [constructor; assumption|].
      cbn [List.filter]. rewrite (N.eqb_sym 46 c).
      destruct (c =? 46); cbn [length]; congruence.
    + split; [exact IH1|].
      unfold digit_or_dot in Edd. apply orb_false_elim in Edd as [_ E46].
      rewrite E46. exact IH2.
Qed.

Lemma cleaned_amount_head (d : N) (rest : str) :
  is_decimal d = true ->
  sub_str not_digit_dot_re [] (replace_char 44 [46] (d :: rest)) =
  d :: sub_str not_digit_dot_re [] (replace_char 44 [46] rest).
Proof.
  intros Hd. unfold not_digit_dot_re. rewrite !sub_str_chr.
  unfold replace_char. cbn [flat_map].
  destruct (N.eqb_spec d 44) as [->|_].
  - unfold is_decimal in Hd. rewrite comma_not_decimal in Hd. discriminate.
  - cbn [app List.filter]. rewrite Hd. reflexivity.
Qed.

(** X15.  An amount is turned into a number by replacing its commas by
    dots, deleting what is neither digit nor dot, and calling [float].  For
    an amount that starts with a digit, as every matched amount does, this
    fails exactly when the amount has two or more separators (commas and
    dots together): a thousands separator next to a decimal separator, as
    in 1.500,00, makes the amount unreadable, and any amount with at most
    one separator is read. *)
Theorem amount_value_separators (d : N) (rest : str) :
  is_decimal d = true ->
  (amount_value (d :: rest) = Raise ValueError <-> (2 <= separators rest)%nat)
  /\ ((separators rest < 2)%nat ->
      exists q, amount_value (d :: rest) = Ok (PFloat q)).
Proof.
  intros Hd. unfold amount_value. rewrite (cleaned_amount_head d rest Hd).
  destruct (cleaned_amount rest) as [Hall Hdots].
  destruct (float_of_text_dots d _ Hd Hall) as [Hiff Hok].
  rewrite Hdots in Hiff, Hok. split.
  - rewrite <- Hiff.
    destruct (float_of_text _) as [q|e]; cbn; [split; discriminate|].
    split; intros [= ->]; reflexivity.
  - intros Hlt. destruct (Hok Hlt) as [q ->]. exists q. reflexivity.
Qed.

End AmountExtras.

Lemma amount_value_separators_witness :
  @Transformation.amount_value Py.latin1 (Py.u "1.500,00") =
    Py.Raise Py.ValueError /\
  exists q, @Transformation.amount_value Py.latin1 (Py.u "1500,50") =
    Py.Ok (Py.PFloat q).
Proof.
  destruct (@amount_value_separators Py.latin1 eq_refl eq_refl 49
              (Py.u ".500,00") eq_refl) as [[_ H] _].
  destruct (@amount_value_separators Py.latin1 eq_refl eq_refl 49
              (Py.u "500,50") eq_refl) as [_ H'].
  split; [apply H; vm_compute; lia|apply H'; vm_compute; lia].
Defined.

(** ** Searching a text *)

Section SearchFacts.
Import Py Re Transformation.
Context {U : Unicode}.

(** The character before the position that follows [pre], when the
    character before [pre] is [prev]. *)
Definition before (prev : option N) (pre : str) : option N :=
  match last pre with
  | Some c => Some c
  | None => prev
  end.

Lemma before_cons (prev : option N) (c : N) (pre : str) :
  before prev (c :: pre) = before (Some c) pre.
Proof.
  unfold before. destruct pre as [|x pre]; [reflexivity|].
  rewrite last_cons_cons. destruct (last (x :: pre)) eqn:E; [reflexivity|].
  apply last_None in E. discriminate.
Qed.

(** The pattern matches somewhere in the text. *)
Definition matches_somewhere (r : regex) (prev : option N) (s : str) : Prop :=
  exists pre suf,
    s = pre ++ suf /\
    rmatch r (MState (before prev pre) suf 0 None) Some <> None.

Lemma scan_match_somewhere (r : regex) (m : rmatched) (s : str) :
  forall (k : nat) (prev : option N),
    In (inr m) (scan r k prev s) -> matches_somewhere r prev s.
Proof.
  induction s as [|c s IH]; intros k prev Hin.
  - destruct k as [|k]; cbn [scan] in Hin; [|destruct Hin].
    destruct (rmatch r (MState prev [] 0 None) Some) eqn:E; [|destruct Hin].
    exists [], []. split; [reflexivity|]. cbn. rewrite E. discriminate.
  - assert (forall k', In (inr m) (scan r k' (Some c) s) ->
                       matches_somewhere r prev (c :: s)) as Hnext.
    { intros k' H'. destruct (IH _ _ H') as (pre & suf & -> & Hm).
      exists (c :: pre), suf. split; [reflexivity|].
      rewrite before_cons. exact Hm. }
    destruct k as [|k]; cbn [scan] in Hin; [|eauto].
    destruct (rmatch r (MState prev (c :: s) 0 None) Some) as [st|] eqn:E.
    + destruct Hin as [_|Hin].
      * exists [], (c :: s). split; [reflexivity|]. cbn. rewrite E.
        discriminate.
      * destruct (m_len st); [destruct Hin as [Hin|Hin]; [discriminate|]|];
          eauto.
    + destruct Hin as [Hin|Hin]; [discriminate|eauto].
Qed.

Lemma match_somewhere_scan (r : regex) (pre suf : str) :
  forall prev : option N,
    rmatch r (MState (before prev pre) suf 0 None) Some <> None ->
    exists m, In (inr m) (scan r 0 prev (pre ++ suf)).
Proof.
  induction pre as [|c pre IH]; intros prev Hm.
  - cbn [app]. cbn in Hm.
    destruct suf as [|x suf]; cbn [scan];
      destruct (rmatch r _ Some) as [st|]; try congruence;
      eexists; left; reflexivity.
  - rewrite before_cons in Hm. destruct (IH _ Hm) as [m Hin].
    cbn [app scan].
    destruct (rmatch r (MState prev (c :: pre ++ suf) 0 None) Some) as [st|].
    + eexists; left; reflexivity.
    + exists m. right. exact Hin.
Qed.

Lemma matches_nonempty (r : regex) (s : str) :
  matches r s <> [] <-> exists m, In (inr m) (scan r 0 None s).
Proof.
  unfold matches. generalize (scan r 0 None s) as l.
  induction l as [|[c|m] l IH]; cbn.
  - split; [congruence|intros [m []]].
  - rewrite IH. split; intros [m Hm]; exists m.
    + right; exact Hm.
    + destruct Hm as [Hm|Hm]; [discriminate|exact Hm].
  - split; [intros _; exists m; left; reflexivity|discriminate].
Qed.

Lemma search_str_somewhere (r : regex) (s : str) :
  search_str r s = true <-> matches_somewhere r None s.
Proof.
  unfold search_str. split.
  - intros Hs. assert (matches r s <> []) as Hne
      by (destruct (matches r s); congruence).
    apply matches_nonempty in Hne as [m Hin].
    exact (scan_match_somewhere _ _ _ _ _ Hin).
  - intros (pre & suf & -> & Hm).
    apply match_somewhere_scan in Hm. apply matches_nonempty in Hm.
    destruct (matches r (pre ++ suf)); congruence.
Qed.

(** A pattern that matches at no position leaves the text as it is and
    finds nothing. *)
Lemma scan_no_match (r : regex) (s : str) :
  (forall prev suf, suffix suf s ->
     rmatch r (MState prev suf 0 None) Some = None) ->
  forall prev, scan r 0 prev s = map inl s.
Proof.
  induction s as [|c s IH]; intros Hno prev; cbn [scan map].
  - rewrite Hno by reflexivity. reflexivity.
  - rewrite Hno by reflexivity. f_equal. apply IH.
    intros p suf Hsuf. apply Hno. apply suffix_cons_r, Hsuf.
Qed.

Lemma no_match_findall (r : regex) (s : str) :
  (forall prev suf, suffix suf s ->
     rmatch r (MState prev suf 0 None) Some = None) ->
  findall_str r s = [] /\ forall repl, sub_str r repl s = s.
Proof.
  intros Hno. unfold findall_str, matches, sub_str.
  rewrite (scan_no_match r s Hno). clear Hno.
  split; [|intros repl]; induction s as [|c s IH]; cbn; congruence.
Qed.

(** A run of literal characters in a pattern. *)
Definition lit_then (w : str) (tail : regex) : regex :=
  fold_right (fun c r => Seq (Chr (N.eqb c)) r) tail w.

Lemma is_prefix_app (w s : str) :
  is_prefix w s = true <-> exists post, s = w ++ post.
Proof.
  revert s. induction w as [|c w IH]; intros s; cbn.
  - split; [intros _; exists s; reflexivity|reflexivity].
  - destruct s as [|x s]; [split; [discriminate|intros [? [=]]]|].
    rewrite andb_true_iff, N.eqb_eq, IH. split.
    + intros [-> [post ->]]. exists post. reflexivity.
    + intros [post [= -> ->]]. eauto.
Qed.

Lemma rmatch_lit_then (w : str) (tail : regex) (k : mstate -> option mstate) :
  forall (prev : option N) (s : str) (n : nat) (g : option str),
    rmatch (lit_then w tail) (MState prev s n g) k =
    if is_prefix w s
    then rmatch tail
           (MState (before prev w) (drop (length w) s) (n + length w) g) k
    else None.
Proof.
  induction w as [|c w IH]; intros prev s n g.
  - cbn. rewrite Nat.add_0_r. reflexivity.
  - cbn [lit_then fold_right rmatch m_rest m_len m_group is_prefix].
    destruct s as [|x s]; [reflexivity|].
    destruct (N.eqb_spec c x) as [->|Hne]; cbn [andb]; [|reflexivity].
    fold (lit_then w tail). rewrite IH, before_cons.
    cbn [length drop]. rewrite Nat.add_succ_r. reflexivity.
Qed.

(** The text holds the word [w] between two word boundaries. *)
Definition word_bounded (w text : str) : Prop :=
  exists pre post,
    text = pre ++ w ++ post /\
    xorb (word_at (last pre)) (word_at (head w)) = true /\
    xorb (word_at (last w)) (word_at (head post)) = true.

Lemma search_word (w text : str) :
  w <> [] ->
  search_str (Seq WordB (lit_then w (Seq WordB Eps))) text = true <->
  word_bounded w text.
Proof.
  intros Hw. rewrite search_str_somewhere.
  assert (forall pre : str, before None pre = last pre) as Hb0
    by (intros pre; unfold before; destruct (last pre); reflexivity).
  assert (forall p, before p w = last w) as Hbw.
  { intros p. unfold before. destruct (last w) eqn:E; [reflexivity|].
    apply last_None in E. contradiction. }
  split.
  - intros (pre & suf & -> & Hm). cbn [rmatch m_prev m_rest] in Hm.
    rewrite Hb0 in Hm.
    destruct (xorb _ _) eqn:E1 in Hm; [|congruence].
    rewrite rmatch_lit_then in Hm.
    destruct (is_prefix w suf) eqn:E2; [|congruence].
    apply is_prefix_app in E2 as [post ->].
    cbn [rmatch m_prev m_rest] in Hm.
    destruct (xorb _ _) eqn:E3 in Hm; [|congruence].
    rewrite drop_app_length, Hbw in E3.
    exists pre, post. split; [reflexivity|]. split; [|exact E3].
    rewrite <- E1. f_equal. destruct w; [contradiction|reflexivity].
  - intros (pre & post & -> & E1 & E3).
    exists pre, (w ++ post). split; [reflexivity|].
    cbn [rmatch m_prev m_rest].
    replace (head (w ++ post)) with (head w)
      by (destruct w; [contradiction|reflexivity]).
    rewrite Hb0, E1.
    rewrite rmatch_lit_then.
    replace (is_prefix w (w ++ post)) with true
      by (symmetry; apply is_prefix_app; eauto).
    cbn [rmatch m_prev m_rest]. rewrite drop_app_length, Hbw, E3.
    discriminate.
Qed.

End SearchFacts.

(** ** The keywords found in a description *)

Section KeywordSearchExtras.
Import Py Re Frame Transformation.
Context {U : Unicode}.

(** The text a keyword of the default list stands for: the keyword without
    the backslashes that escape its punctuation. *)
Definition keyword_text (k : str) : str :=
  List.filter (fun c => negb (c =? 92)) k.

Lemma keyword_patterns :
  Forall (fun k =>
            compile (u "\b" ++ k ++ u "\b") =
              Seq WordB (lit_then (keyword_text k) (Seq WordB Eps)) /\
            keyword_text k <> [])
    default_keywords.
Proof.
  unfold default_keywords. cbn [map].
  repeat (constructor; [split; [reflexivity|vm_compute; discriminate]|]).
  constructor.
Qed.

Lemma keyword_search (k d : str) :
  In k default_keywords ->
  search_str (compile (u "\b" ++ k ++ u "\b")) d = true <->
  word_bounded (keyword_text k) d.
Proof.
  intros Hk. pose proof keyword_patterns as Hall.
  rewrite Forall_forall in Hall.
  destruct (Hall k) as [-> Hne]; [apply list_elem_of_In, Hk|].
  apply search_word, Hne.
Qed.

(** The keywords found in a text, in the order of the default list. *)
Definition found_in (d : str) : list str :=
  List.filter
    (fun keyword => search_str (compile (u "\b" ++ keyword ++ u "\b")) d)
    default_keywords.

Lemma extract_keywords_str (c : N) (d : str) :
  extract_keywords (PStr (c :: d)) =
  Ok (PList (map (fun k => PStr k) (found_in (u_lower (c :: d))))).
Proof.
  unfold extract_keywords, found_in.
  cbn [isinstance_str truthy scalar_truthy negb orb lower].
  generalize (u_lower (c :: d)) as low. intros low.
  generalize default_keywords as ks. intros ks. reflexivity.
Qed.

Lemma filter_sublist_of {A} (f : A -> bool) (l : list A) :
  sublist (List.filter f l) l.
Proof.
  induction l as [|x l IH]; cbn; [constructor|].
  destruct (f x); [apply sublist_skip|apply sublist_cons]; exact IH.
Qed.

(** X16.  On a non-empty description [extract_keywords] returns a
    sub-sequence of its default list, so keywords in the order of that
    list, and a keyword is returned exactly when the lower-cased
    description holds its text with a word boundary on each side: the
    character before the text and its first character are not both word
    characters (letter, digit, underscore) nor both something else, and
    the same for its last character and the character after. *)
Theorem extract_keywords_word_bounded (d : str) :
  d <> [] ->
  exists l,
    extract_keywords (PStr d) = Ok (PList (map (fun k => PStr k) l)) /\
    sublist l default_keywords /\
    forall k, In k l <->
              In k default_keywords /\
              word_bounded (keyword_text k) (u_lower d).
Proof.
  intros Hd. destruct d as [|c d]; [contradiction|].
  exists (found_in (u_lower (c :: d))). split; [apply extract_keywords_str|].
  split; [apply filter_sublist_of|].
  intros k. unfold found_in. rewrite filter_In. split.
  - intros [Hk Hs]. split; [exact Hk|]. apply keyword_search; assumption.
  - intros [Hk Hw]. split; [exact Hk|]. apply keyword_search; assumption.
Qed.

(** X17.  A keyword that ends with a symbol, as c++ and c# do, is only
    found where a letter, digit or underscore follows it at once: at the
    end of the description, or before a space or a comma, it is missed. *)
Theorem keyword_ending_in_symbol (d k : str) :
  d <> [] ->
  In k default_keywords ->
  word_at (last (keyword_text k)) = false ->
  exists l,
    extract_keywords (PStr d) = Ok (PList (map (fun k => PStr k) l)) /\
    (In k l ->
     exists pre c post,
       u_lower d = pre ++ keyword_text k ++ c :: post /\ u_word c = true).
Proof.
  intros Hd Hk Hlast. destruct d as [|x d]; [contradiction|].
  exists (found_in (u_lower (x :: d))). split; [apply extract_keywords_str|].
  unfold found_in. rewrite filter_In. intros [_ Hs].
  apply keyword_search in Hs; [|exact Hk].
  destruct Hs as (pre & post & Heq & _ & Hb).
  rewrite Hlast in Hb. cbn [xorb] in Hb.
  destruct post as [|c post]; [discriminate|].
  exists pre, c, post. split; [exact Heq|exact Hb].
Qed.

Lemma main_techs_keywords (tech : str) :
  In tech main_techs -> In tech default_keywords /\ keyword_text tech = tech.
Proof.
  unfold main_techs. cbn [map In]. intros Ht.
  repeat (destruct Ht as [<-|Ht];
          [split; [vm_compute; tauto|reflexivity]|]).
  destruct Ht.
Qed.

Lemma existsb_py_eq_str (tech : str) (l : list str) :
  existsb (py_eq (PStr tech)) (map (fun k => PStr k) l) = true <-> In tech l.
Proof.
  induction l as [|k l IH]; cbn [map existsb In]; [split; [discriminate|tauto]|].
  rewrite orb_true_iff, IH. cbn [py_eq]. rewrite str_eqb_eq.
  split; intros [E|E]; auto.
Qed.

Lemma keyword_list_str (c : N) (d : str) :
  keyword_list (PStr (c :: d)) =
  map (fun k => PStr k) (found_in (u_lower (c :: d))).
Proof.
  unfold keyword_list. rewrite extract_keywords_str.
  generalize (found_in (u_lower (c :: d))) as l. intros l. reflexivity.
Qed.

Lemma found_in_tech (tech low : str) :
  In tech main_techs -> In tech (found_in low) <-> word_bounded tech low.
Proof.
  intros Ht. destruct (main_techs_keywords tech Ht) as [Hk Htext].
  pose proof (keyword_search tech low Hk) as Hs. rewrite Htext in Hs.
  unfold found_in. rewrite filter_In. tauto.
Qed.

Lemma flag_word_bounded (tech : str) (c : N) (d : str) :
  In tech main_techs ->
  (flag tech (keyword_list (PStr (c :: d))) = PInt 1 \/
   flag tech (keyword_list (PStr (c :: d))) = PInt 0) /\
  (flag tech (keyword_list (PStr (c :: d))) = PInt 1 <->
   word_bounded tech (u_lower (c :: d))).
Proof.
  intros Ht. rewrite keyword_list_str.
  pose proof (found_in_tech tech (u_lower (c :: d)) Ht) as Hin.
  revert Hin. generalize (found_in (u_lower (c :: d))) as l.
  generalize (word_bounded tech (u_lower (c :: d))) as P.
  intros P l Hin. unfold flag.
  pose proof (existsb_py_eq_str tech l) as Hex.
  destruct (existsb (py_eq (PStr tech)) (map (fun k => PStr k) l)).
  - split; [left; reflexivity|]. split; [|reflexivity].
    intros _. apply Hin, Hex. reflexivity.
  - split; [right; reflexivity|]. split; [discriminate|].
    intros Hw. apply Hin, Hex in Hw. discriminate.
Qed.

Lemma flag_column_found
    (cs : list (str * list pyval)) (cells : list pyval) (tech : str) :
  In tech main_techs ->
  lookup_column (assign_all cs (derived_columns cells)) (has_column_name tech)
  = Some (map (flag tech) (map keyword_list cells)).
Proof.
  intros Ht.
  pose proof (derived_columns_found cs cells) as Hall.
  rewrite Forall_forall in Hall.
  assert (In (has_column_name tech,
              map (flag tech) (map keyword_list cells))
            (derived_columns cells)) as Hin.
  { right. apply in_or_app. left. unfold flag_columns.
    apply (in_map (fun t => (has_column_name t,
                             map (flag t) (map keyword_list cells)))
             main_techs tech Ht). }
  apply list_elem_of_In in Hin.
  revert Hall Hin. generalize (derived_columns cells) as cols.
  intros cols Hall Hin.
  exact (Hall _ Hin).
Qed.

(** X18.  After the keyword pass, on a row whose cleaned description is a
    non-empty text, each of [has_python], [has_java], [has_javascript],
    [has_sql], [has_aws] and [has_machine_learning] holds 1 or 0, and 1
    exactly when the lower-cased description holds the technology's name
    between two word boundaries: the name inside a longer word, or with a
    digit appended, does not count. *)
Theorem tech_flag_word_bounded
    (df : DataFrame) (cells : list pyval) (tech : str) (i : nat) (d : str) :
  lookup_column (columns df) (u "description_clean") = Some cells ->
  In tech main_techs ->
  cells !! i = Some (PStr d) ->
  d <> [] ->
  exists r flags,
    apply_keyword_analysis (Some df) = Ok (Some r) /\
    get_column r (has_column_name tech) = Ok flags /\
    (flags !! i = Some (PInt 1) \/ flags !! i = Some (PInt 0)) /\
    (flags !! i = Some (PInt 1) <-> word_bounded tech (u_lower d)).
Proof.
  intros Hd Ht Hi Hne.
  exists (mkFrame (nrows df) (assign_all (columns df) (derived_columns cells))),
    (map (flag tech) (map keyword_list cells)).
  split; [apply (apply_keyword_analysis_columns _ _ Hd)|].
  split.
  { apply get_column_found. cbn [columns].
    apply flag_column_found, Ht. }
  destruct d as [|c d]; [contradiction|].
  destruct (flag_word_bounded tech c d Ht) as [Hor Hiff].
  assert (map (flag tech) (map keyword_list cells) !! i =
          Some (flag tech (keyword_list (PStr (c :: d))))) as ->.
  { rewrite !list_lookup_fmap, Hi. reflexivity. }
  revert Hor Hiff.
  generalize (flag tech (keyword_list (PStr (c :: d)))) as v.
  generalize (word_bounded tech (u_lower (c :: d))) as P.
  intros P v Hor Hiff. split.
  - destruct Hor as [->| ->]; [left|right]; reflexivity.
  - rewrite <- Hiff. split; [intros [= ->]; reflexivity|intros ->; reflexivity].
Qed.

End KeywordSearchExtras.

Lemma extract_keywords_word_bounded_witness :
  exists l,
    @Transformation.extract_keywords Py.latin1
      (Py.PStr (Py.u "Dev Python3 ou python, C++")) =
      Py.Ok (Py.PList (map (fun k => Py.PStr k) l)) /\
    sublist l Transformation.default_keywords /\
    forall k, In k l <->
              In k Transformation.default_keywords /\
              @word_bounded Py.latin1 (keyword_text k)
                (@Py.u_lower Py.latin1 (Py.u "Dev Python3 ou python, C++")).
Proof.
  apply (@extract_keywords_word_bounded Py.latin1
           (Py.u "Dev Python3 ou python, C++")).
  discriminate.
Defined.

Lemma keyword_ending_in_symbol_witness :
  exists l,
    @Transformation.extract_keywords Py.latin1 (Py.PStr (Py.u "C++ et C#")) =
      Py.Ok (Py.PList (map (fun k => Py.PStr k) l)) /\
    (In (Py.u "c\+\+") l ->
     exists pre c post,
       @Py.u_lower Py.latin1 (Py.u "C++ et C#") =
         pre ++ keyword_text (Py.u "c\+\+") ++ c :: post /\
       @Py.u_word Py.latin1 c = true).
Proof.
  apply (@keyword_ending_in_symbol Py.latin1 (Py.u "C++ et C#")
           (Py.u "c\+\+")).
  - discriminate.
  - vm_compute. tauto.
  - reflexivity.
Defined.

Definition example_descriptions : Frame.DataFrame :=
  Frame.mkFrame 2
    [(Py.u "description_clean",
      [Py.PStr (Py.u "Python3 et Java"); Py.PStr (Py.u "SQL, python")])].

Lemma tech_flag_word_bounded_witness :
  exists r flags,
    @Transformation.apply_keyword_analysis Py.latin1
      (Some example_descriptions) = Py.Ok (Some r) /\
    Frame.get_column r (Transformation.has_column_name (Py.u "python")) =
      Py.Ok flags /\
    (flags !! 0%nat = Some (Py.PInt 1) \/ flags !! 0%nat = Some (Py.PInt 0)) /\
    (flags !! 0%nat = Some (Py.PInt 1) <->
     @word_bounded Py.latin1 (Py.u "python")
       (@Py.u_lower Py.latin1 (Py.u "Python3 et Java"))).
Proof.
  apply (@tech_flag_word_bounded Py.latin1 example_descriptions
           [Py.PStr (Py.u "Python3 et Java"); Py.PStr (Py.u "SQL, python")]
           (Py.u "python") 0%nat (Py.u "Python3 et Java")).
  - reflexivity.
  - left. reflexivity.
  - reflexivity.
  - discriminate.
Defined.

(** ** What a salary text must hold *)

Section SalaryMarkerExtras.
Import Py Re Transformation.
Context {U : Unicode}.

(** A successful match has called its continuation, on what was left of
    the text at that point. *)
Lemma rmatch_calls (r : regex) :
  forall (st : mstate) (k : mstate -> option mstate) (x : mstate),
    rmatch r st k = Some x ->
    exists st', suffix (m_rest st') (m_rest st) /\ k st' = Some x.
Proof.
  induction r as [p| |a IHa b IHb|a IHa b IHb|g a IHa|a IHa|];
    intros st k x Hm; cbn [rmatch] in Hm.
  - destruct (m_rest st) as [|c s'] eqn:E; [discriminate|].
    destruct (p c); [|discriminate].
    eexists. split; [|exact Hm]. cbn [m_rest]. apply suffix_cons_r.
    reflexivity.
  - exists st. split; [reflexivity|exact Hm].
  - apply IHa in Hm as (st1 & Hs1 & Hm). apply IHb in Hm as (st2 & Hs2 & Hm).
    exists st2. split; [etrans; eassumption|exact Hm].
  - destruct (rmatch a st k) eqn:E.
    + injection Hm as ->. apply IHa in E. exact E.
    + apply IHb in Hm. exact Hm.
  - revert Hm. generalize (length (m_rest st)) as fuel. intros fuel.
    revert st x. induction fuel as [|fuel IH]; intros st x Hm.
    + destruct g.
      * destruct (rmatch a st _) as [y|] eqn:E in Hm.
        -- injection Hm as ->. apply IHa in E as (st1 & Hs1 & E).
           destruct (m_len st <? m_len st1)%nat; [|discriminate].
           exists st1. split; [exact Hs1|exact E].
        -- exists st. split; [reflexivity|exact Hm].
      * destruct (k st) as [y|] eqn:E.
        -- injection Hm as ->. exists st. split; [reflexivity|exact E].
        -- apply IHa in Hm as (st1 & Hs1 & Hm).
           destruct (m_len st <? m_len st1)%nat; [|discriminate].
           exists st1. split; [exact Hs1|exact Hm].
    + destruct g.
      * destruct (rmatch a st _) as [y|] eqn:E in Hm.
        -- injection Hm as ->. apply IHa in E as (st1 & Hs1 & E).
           destruct (m_len st <? m_len st1)%nat; [|discriminate].
           destruct (IH st1 x E) as (st2 & Hs2 & E2).
           exists st2. split; [etrans; eassumption|exact E2].
        -- exists st. split; [reflexivity|exact Hm].
      * destruct (k st) as [y|] eqn:E.
        -- injection Hm as ->. exists st. split; [reflexivity|exact E].
        -- apply IHa in Hm as (st1 & Hs1 & Hm).
           destruct (m_len st <? m_len st1)%nat; [|discriminate].
           destruct (IH st1 x Hm) as (st2 & Hs2 & E2).
           exists st2. split; [etrans; eassumption|exact E2].
  - apply IHa in Hm as (st1 & Hs1 & Hm).
    eexists. split; [|exact Hm]. exact Hs1.
  - destruct (xorb _ _); [|discriminate].
    exists st. split; [reflexivity|exact Hm].
Qed.

Lemma substr_suffix (w t s : str) :
  suffix t s -> is_prefix w t = true -> substr w s = true.
Proof.
  intros [pre ->] Hp. induction pre as [|c pre IH]; cbn [app].
  - destruct t; cbn [substr]; rewrite Hp; reflexivity.
  - cbn [substr]. rewrite IH. apply orb_true_r.
Qed.

Lemma substr_skip (w pre s : str) :
  substr w s = true -> substr w (pre ++ s) = true.
Proof.
  intros Hw. induction pre as [|c pre IH]; [exact Hw|].
  cbn [app substr]. rewrite IH. apply orb_true_r.
Qed.

(** The signs of the euro, the dollar and the pound. *)
Definition currency_sign (c : N) : bool :=
  (c =? 8364) || (c =? 36) || (c =? 163).

Lemma rmatch_seq (a b : regex) (st : mstate) (k : mstate -> option mstate) :
  rmatch (Seq a b) st k = rmatch a st (fun st' => rmatch b st' k).
Proof. reflexivity. Qed.

Lemma rmatch_alt (a b : regex) (st : mstate) (k : mstate -> option mstate) :
  rmatch (Alt a b) st k =
  match rmatch a st k with
  | Some x => Some x
  | None => rmatch b st k
  end.
Proof. reflexivity. Qed.

Lemma rmatch_then_sign (r : regex) (st : mstate) (x : mstate) :
  rmatch (Seq r (Chr currency_sign)) st Some = Some x ->
  exists c, In c (m_rest st) /\ currency_sign c = true.
Proof.
  intros Hm. rewrite rmatch_seq in Hm.
  apply rmatch_calls in Hm as (st1 & [pre Hs1] & Hm).
  cbn [rmatch] in Hm.
  destruct (m_rest st1) as [|c s'] eqn:E; [discriminate|].
  destruct (currency_sign c) eqn:Ec; [|discriminate].
  exists c. split; [|exact Ec]. rewrite Hs1. apply in_or_app. right.
  left. reflexivity.
Qed.

Lemma rmatch_then_word
    (r : regex) (w : str) (st : mstate) (k : mstate -> option mstate)
    (x : mstate) :
  rmatch r st (fun st' => rmatch (lit w) st' k) = Some x ->
  substr w (m_rest st) = true.
Proof.
  intros Hm.
  apply rmatch_calls in Hm as (st1 & Hs1 & Hm).
  destruct st1 as [prev s n g]. change (lit w) with (lit_then w Eps) in Hm.
  rewrite rmatch_lit_then in Hm. cbn [m_rest] in Hs1.
  destruct (is_prefix w s) eqn:E; [|discriminate].
  exact (substr_suffix _ _ _ Hs1 E).
Qed.

Lemma amount_re_needs (st : mstate) (x : mstate) :
  rmatch amount_re st Some = Some x ->
  (exists c, In c (m_rest st) /\ is_decimal c = true) /\
  ((exists c, In c (m_rest st) /\ currency_sign c = true) \/
   substr (u "euro") (m_rest st) = true).
Proof.
  intros Hm. split.
  - unfold amount_re, Plus in Hm. cbn [rmatch] in Hm.
    destruct (m_rest st) as [|c s']; [discriminate|].
    destruct (is_decimal c) eqn:E; [|discriminate].
    exists c. split; [left; reflexivity|exact E].
  - unfold amount_re in Hm.
    change (fun c : N => (c =? 8364) || (c =? 36) || (c =? 163))
      with currency_sign in Hm.
    revert Hm.
    generalize (Group
       (Seq (Plus (Chr is_decimal))
          (Seq (Star true (Chr (fun c => u_space c || is_decimal c)))
             (Star true
                (Chr (fun c => is_decimal c || (c =? 44) || (c =? 46)))))))
      as grp.
    generalize (Star true (Chr u_space)) as sp.
    generalize (Opt (Chr (N.eqb 115))) as opt.
    generalize (u "euro") as w.
    intros w opt sp grp Hm. rewrite rmatch_seq in Hm.
    apply rmatch_calls in Hm as (st1 & [pre Hs1] & Hm).
    assert (forall c, In c (m_rest st1) -> In c (m_rest st)) as Hin
      by (intros c Hc; rewrite Hs1; apply in_or_app; right; exact Hc).
    assert (substr w (m_rest st1) = true ->
            substr w (m_rest st) = true) as Hsub.
    { intros Hw. rewrite Hs1. apply substr_skip, Hw. }
    rewrite rmatch_alt in Hm.
    destruct (rmatch (Seq sp (Chr currency_sign)) st1 Some) as [y|] eqn:E1.
    { left. destruct (rmatch_then_sign sp st1 y E1) as (c & Hc & Hcur).
      exists c. split; [apply Hin, Hc|exact Hcur]. }
    right. apply Hsub. rewrite rmatch_alt in Hm.
    destruct (rmatch (Seq sp (Seq (lit w) opt)) st1 Some) as [y|] eqn:E2.
    { rewrite rmatch_seq in E2.
      assert (rmatch sp st1
                (fun st' => rmatch (lit w) st'
                              (fun st'' => rmatch opt st'' Some)) = Some y)
        as E2' by exact E2.
      exact (rmatch_then_word sp w st1 _ y E2'). }
    rewrite rmatch_seq in Hm.
    exact (rmatch_then_word sp w st1 Some x Hm).
Qed.

(** X19.  [extract_salary_info] finds no salary in a text that holds no
    decimal digit, and none in a text that holds neither the sign of the
    euro, the dollar or the pound nor the word euro, whatever numbers it
    holds: both bounds are [None]. *)
Theorem extract_salary_info_needs_digit_and_currency (s : str) :
  Forall (fun c => is_decimal c = false) (u_lower s) \/
  (Forall (fun c => currency_sign c = false) (u_lower s) /\
   substr (u "euro") (u_lower s) = false) ->
  exists p cur, extract_salary_info (PStr s) = Ok (PNone, PNone, p, cur).
Proof.
  intros Hno. destruct s as [|c s]; [eexists _, _; reflexivity|].
  rewrite extract_salary_info_str.
  assert (findall_str amount_re (u_lower (c :: s)) = []) as ->;
    [|eexists _, _; reflexivity].
  revert Hno. generalize (u_lower (c :: s)) as low. intros low Hno.
  apply no_match_findall. intros prev suf [pre ->].
  destruct (rmatch amount_re (MState prev suf 0 None) Some) as [x|] eqn:E;
    [exfalso|reflexivity].
  apply amount_re_needs in E as [(d & Hd & Hdec) Hcur]. cbn [m_rest] in *.
  destruct Hno as [Hall|[Hall Heuro]]; rewrite Forall_forall in Hall.
  - rewrite (Hall d) in Hdec; [discriminate|].
    apply list_elem_of_In, in_or_app. right. exact Hd.
  - destruct Hcur as [(y & Hy & Hsign)|Hsub].
    + rewrite (Hall y) in Hsign; [discriminate|].
      apply list_elem_of_In, in_or_app. right. exact Hy.
    + rewrite (substr_skip (u "euro") pre suf Hsub) in Heuro. discriminate.
Qed.

End SalaryMarkerExtras.

Lemma extract_salary_info_needs_digit_and_currency_witness :
  exists p cur,
    @Transformation.extract_salary_info Py.latin1
      (Py.PStr (Py.u "30000 par an")) = Py.Ok (Py.PNone, Py.PNone, p, cur).
Proof.
  apply (@extract_salary_info_needs_digit_and_currency Py.latin1
           (Py.u "30000 par an")).
  right. split; [|reflexivity].
  vm_compute. repeat constructor.
Defined.

(** ** The cleaned text *)

Section CleanTextExtras.
Import Py Re Transformation.
Context {U : Unicode}.

(** A text with each run of characters of the class [p] replaced by
    [repl]; [in_run] tells that the character before belonged to a run. *)
Fixpoint squeeze (p : N -> bool) (repl : str) (in_run : bool) (s : str) : str :=
  match s with
  | [] => []
  | c :: s' =>
      if p c then
        if in_run then squeeze p repl true s'
        else repl ++ squeeze p repl true s'
      else c :: squeeze p repl false s'
  end.

Fixpoint run_length (p : N -> bool) (s : str) : nat :=
  match s with
  | c :: s' => if p c then S (run_length p s') else 0%nat
  | [] => 0%nat
  end.

Lemma drop_run (p : N -> bool) (s : str) :
  drop (run_length p s) s = drop_while p s.
Proof.
  induction s as [|c s IH]; [reflexivity|].
  cbn [run_length drop_while]. destruct (p c); [exact IH|reflexivity].
Qed.

Lemma run_length_le (p : N -> bool) (s : str) :
  (run_length p s <= length s)%nat.
Proof.
  induction s as [|c s IH]; cbn [run_length length]; [lia|].
  destruct (p c); lia.
Qed.

Lemma drop_while_length (p : N -> bool) (s : str) :
  (length (drop_while p s) <= length s)%nat.
Proof. rewrite <- drop_run, length_drop. lia. Qed.

Lemma squeeze_in_run (p : N -> bool) (repl s : str) :
  squeeze p repl true s = squeeze p repl false (drop_while p s).
Proof.
  induction s as [|c s IH]; [reflexivity|].
  cbn [squeeze drop_while]. destruct (p c) eqn:E; [exact IH|].
  cbn [squeeze]. rewrite E. reflexivity.
Qed.

Lemma star_chr_cons
    (p : N -> bool) (prev : option N) (x : N) (s : str) (n : nat)
    (g : option str) (k : mstate -> option mstate) :
  rmatch (Star true (Chr p)) (MState prev (x :: s) n g) k =
  match (if p x
         then if (n <? S n)%nat
              then rmatch (Star true (Chr p)) (MState (Some x) s (S n) g) k
              else None
         else None) with
  | Some y => Some y
  | None => k (MState prev (x :: s) n g)
  end.
Proof. reflexivity. Qed.

Lemma star_chr_run (p : N -> bool) (s : str) :
  forall (prev : option N) (n : nat) (g : option str),
  exists st',
    rmatch (Star true (Chr p)) (MState prev s n g) Some = Some st' /\
    m_len st' = (n + run_length p s)%nat /\ m_group st' = g.
Proof.
  induction s as [|x s IH]; intros prev n g.
  - eexists. split; [reflexivity|]. cbn. split; [lia|reflexivity].
  - rewrite star_chr_cons. cbn [run_length]. destruct (p x).
    + replace (n <? S n)%nat with true by (symmetry; apply Nat.ltb_lt; lia).
      destruct (IH (Some x) (S n) g) as (st' & -> & Hlen & Hg).
      exists st'. split; [reflexivity|]. split; [lia|exact Hg].
    + eexists. split; [reflexivity|]. cbn. split; [lia|reflexivity].
Qed.

Lemma plus_chr_cons (p : N -> bool) (prev : option N) (x : N) (s : str) :
  rmatch (Plus (Chr p)) (MState prev (x :: s) 0 None) Some =
  if p x then rmatch (Star true (Chr p)) (MState (Some x) s 1 None) Some
  else None.
Proof. reflexivity. Qed.

Lemma scan_skip (r : regex) (n : nat) :
  forall (prev : option N) (s : str),
    (n <= length s)%nat ->
    exists prev', scan r n prev s = scan r 0 prev' (drop n s).
Proof.
  induction n as [|n IH]; intros prev s Hn.
  - exists prev. reflexivity.
  - destruct s as [|c s]; cbn [length] in Hn; [lia|].
    cbn [scan drop]. apply IH. lia.
Qed.

Lemma sub_plus_chr (p : N -> bool) (repl : str) (m : nat) :
  forall (s : str) (prev : option N),
    (length s <= m)%nat ->
    flat_map (fun x => match x with inl c => [c] | inr _ => repl end)
      (scan (Plus (Chr p)) 0 prev s) =
    squeeze p repl false s.
Proof.
  induction m as [|m IH]; intros s prev Hm.
  - destruct s; [reflexivity|cbn [length] in Hm; lia].
  - destruct s as [|c s]; [reflexivity|]. cbn [length] in Hm.
    cbn [scan squeeze]. rewrite plus_chr_cons. destruct (p c).
    + destruct (star_chr_run p s (Some c) 1 None) as (st' & -> & Hlen & Hg).
      rewrite Hlen. cbn [Nat.add flat_map].
      destruct (scan_skip (Plus (Chr p)) (run_length p s) (Some c) s
                  (run_length_le p s)) as [prev' ->].
      rewrite drop_run, squeeze_in_run, IH; [reflexivity|].
      pose proof (drop_while_length p s). lia.
    + cbn [flat_map app]. rewrite IH by lia. reflexivity.
Qed.

Lemma sub_str_spaces (s : str) :
  sub_str spaces_re (u " ") s = squeeze u_space (u " ") false s.
Proof. unfold sub_str, spaces_re. apply (sub_plus_chr _ _ (length s)). lia. Qed.

Lemma clean_text_field_str (s : str) :
  clean_text_field (PStr s) =
  Ok (PStr (strip (squeeze u_space (u " ") false
                     (sub_str tag_re (u " ") s)))).
Proof.
  unfold clean_text_field. cbn [isinstance_str negb sub].
  rewrite ?bind_ok. cbn [sub]. rewrite ?bind_ok, sub_str_spaces. reflexivity.
Qed.

(** No character of the class is next to another one. *)
Definition spaced (p : N -> bool) (t : str) : Prop :=
  forall l1 x y l2, t = l1 ++ x :: y :: l2 -> p x = true -> p y = false.

Fixpoint spaced_after (p : N -> bool) (before_p : bool) (t : str) : Prop :=
  match t with
  | [] => True
  | c :: t' => (before_p = true -> p c = false) /\ spaced_after p (p c) t'
  end.

Lemma spaced_after_weaken (p : N -> bool) (b : bool) (t : str) :
  spaced_after p true t -> spaced_after p b t.
Proof.
  destruct t as [|c t]; [exact id|]. cbn. intros [H1 H2]. split; [|exact H2].
  intros _. apply H1. reflexivity.
Qed.

Lemma spaced_after_spaced (p : N -> bool) (t : str) :
  forall b, spaced_after p b t -> spaced p t.
Proof.
  induction t as [|c t IH]; intros b Ht l1 x y l2 Heq Hx.
  - destruct l1; discriminate.
  - destruct l1 as [|z l1]; cbn [app] in Heq.
    + injection Heq as -> ->. cbn in Ht. destruct Ht as (_ & Hy & _).
      apply Hy, Hx.
    + injection Heq as -> ->. cbn [spaced_after] in Ht.
      exact (IH _ (proj2 Ht) l1 x y l2 eq_refl Hx).
Qed.

Lemma squeeze_spaced_after (p : N -> bool) (c : N) (s : str) :
  spaced_after p true (squeeze p [c] true s) /\
  spaced_after p false (squeeze p [c] false s).
Proof.
  induction s as [|x s [IH1 IH2]]; [cbn; tauto|].
  cbn [squeeze]. destruct (p x) eqn:E.
  - split; [exact IH1|]. cbn [app spaced_after].
    split; [discriminate|]. apply spaced_after_weaken, IH1.
  - cbn [spaced_after]. rewrite E. split; (split; [auto|exact IH2]).
Qed.

Lemma squeeze_class (p : N -> bool) (c : N) (b : bool) (s : str) (x : N) :
  In x (squeeze p [c] b s) -> p x = true -> x = c.
Proof.
  revert b. induction s as [|y s IH]; intros b; cbn [squeeze]; [intros []|].
  destruct (p y) eqn:E.
  - destruct b; [apply IH|]. cbn [app]. intros [->|Hin] Hx; [reflexivity|].
    exact (IH _ Hin Hx).
  - intros [->|Hin] Hx; [congruence|]. exact (IH _ Hin Hx).
Qed.

Lemma drop_while_suffix (p : N -> bool) (s : str) :
  suffix (drop_while p s) s.
Proof.
  induction s as [|c s IH]; [reflexivity|]. cbn [drop_while].
  destruct (p c); [apply suffix_cons_r, IH|reflexivity].
Qed.

Lemma strip_parts (s : str) :
  exists l1 l2,
    drop_while u_space s = strip s ++ l2 /\ s = l1 ++ strip s ++ l2.
Proof.
  unfold strip.
  destruct (drop_while_suffix u_space s) as [l1 H1].
  destruct (drop_while_suffix u_space (rev (drop_while u_space s)))
    as [k H2].
  exists l1, (rev k).
  assert (drop_while u_space s =
          rev (drop_while u_space (rev (drop_while u_space s))) ++ rev k)
    as H3.
  { rewrite <- rev_app_distr, <- H2, rev_involutive. reflexivity. }
  split; [exact H3|]. rewrite <- H3. exact H1.
Qed.

Lemma strip_head (s : str) (c : N) :
  head (strip s) = Some c -> u_space c = false.
Proof.
  destruct (strip_parts s) as (l1 & l2 & H1 & _). intros Hh.
  destruct (strip s) as [|x r]; [discriminate|]. injection Hh as ->.
  cbn [app] in H1. apply drop_while_head in H1. tauto.
Qed.

Lemma strip_last (s : str) (c : N) :
  last (strip s) = Some c -> u_space c = false.
Proof.
  unfold strip.
  destruct (drop_while u_space (rev (drop_while u_space s))) as [|x r] eqn:E;
    [discriminate|].
  cbn [rev]. rewrite last_snoc. intros [= ->].
  apply drop_while_head in E. tauto.
Qed.

Lemma stripped_squeezed_normal (t : str) :
  (forall c, head (strip (squeeze u_space [32] false t)) = Some c ->
             u_space c = false) /\
  (forall c, last (strip (squeeze u_space [32] false t)) = Some c ->
             u_space c = false) /\
  spaced u_space (strip (squeeze u_space [32] false t)) /\
  (forall c, In c (strip (squeeze u_space [32] false t)) ->
             u_space c = true -> c = 32).
Proof.
  split; [apply strip_head|]. split; [apply strip_last|].
  destruct (strip_parts (squeeze u_space [32] false t)) as (l1 & l2 & _ & Heq).
  split.
  - intros k1 x y k2 Hr.
    apply (spaced_after_spaced u_space _ false
             (proj2 (squeeze_spaced_after u_space 32 t))
             (l1 ++ k1) x y (k2 ++ l2)).
    rewrite Heq, Hr, <- !app_assoc. reflexivity.
  - intros c Hin. apply (squeeze_class u_space 32 false t).
    rewrite Heq. apply in_or_app. right. apply in_or_app. left. exact Hin.
Qed.

(** X20.  [clean_text_field] returns a text in normal form: it neither
    starts nor ends with a whitespace character, no two whitespace
    characters follow each other, and the only whitespace character left
    is the plain space. *)
Theorem clean_text_field_normal_form (s : str) :
  exists r,
    clean_text_field (PStr s) = Ok (PStr r) /\
    (forall c, head r = Some c -> u_space c = false) /\
    (forall c, last r = Some c -> u_space c = false) /\
    (forall l1 x y l2,
       r = l1 ++ x :: y :: l2 -> u_space x = true -> u_space y = false) /\
    (forall c, In c r -> u_space c = true -> c = 32).
Proof.
  eexists. split; [apply clean_text_field_str|].
  change (u " ") with [32].
  destruct (stripped_squeezed_normal (sub_str tag_re [32] s))
    as (Hh & Hl & Hsp & Hc).
  split; [exact Hh|]. split; [exact Hl|]. split; [exact Hsp|exact Hc].
Qed.

Lemma filter_drop_while (p : N -> bool) (s : str) :
  List.filter (fun c => negb (p c)) (drop_while p s) =
  List.filter (fun c => negb (p c)) s.
Proof.
  induction s as [|c s IH]; [reflexivity|]. cbn [drop_while List.filter].
  destruct (p c) eqn:E; [exact IH|].
  cbn [List.filter]. rewrite E. reflexivity.
Qed.

Lemma filter_rev {A} (f : A -> bool) (l : list A) :
  List.filter f (rev l) = rev (List.filter f l).
Proof.
  induction l as [|x l IH]; [reflexivity|]. cbn [rev List.filter].
  rewrite List.filter_app, IH. cbn [List.filter].
  destruct (f x); [reflexivity|apply app_nil_r].
Qed.

Lemma filter_strip (s : str) :
  List.filter (fun c => negb (u_space c)) (strip s) =
  List.filter (fun c => negb (u_space c)) s.
Proof.
  unfold strip.
  rewrite filter_rev, filter_drop_while, filter_rev, filter_drop_while.
  apply rev_involutive.
Qed.

Lemma filter_squeeze (p : N -> bool) (c : N) (b : bool) (s : str) :
  p c = true ->
  List.filter (fun x => negb (p x)) (squeeze p [c] b s) =
  List.filter (fun x => negb (p x)) s.
Proof.
  intros Hc. revert b. induction s as [|y s IH]; intros b; [reflexivity|].
  cbn [squeeze List.filter]. destruct (p y) eqn:E; cbn [negb].
  - destruct b; [apply IH|]. cbn [app List.filter]. rewrite Hc. cbn [negb].
    apply IH.
  - cbn [List.filter]. rewrite E. cbn [negb]. f_equal. apply IH.
Qed.

Lemma rmatch_chr_fail
    (p : N -> bool) (st : mstate) (k : mstate -> option mstate) :
  (forall c, head (m_rest st) = Some c -> p c = false) ->
  rmatch (Chr p) st k = None.
Proof.
  intros Hh. cbn [rmatch]. destruct (m_rest st) as [|c s']; [reflexivity|].
  rewrite (Hh c eq_refl). reflexivity.
Qed.

Lemma sub_tag_free (s : str) :
  ~ In 60 s -> sub_str tag_re (u " ") s = s.
Proof.
  intros Hno. apply no_match_findall. intros prev suf [pre ->].
  unfold tag_re. rewrite rmatch_seq. apply rmatch_chr_fail.
  cbn [m_rest]. intros c Hc. apply N.eqb_neq. intros <-.
  apply Hno, in_or_app. right. destruct suf; [discriminate|].
  injection Hc as ->. left. reflexivity.
Qed.

(** X21.  On a text without the character [<], [clean_text_field] changes
    nothing but whitespace: each run of whitespace becomes one space,
    the whole is stripped, and the other characters are kept as they are,
    in their order. *)
Theorem clean_text_field_tag_free (s : str) :
  ~ In 60 s ->
  u_space 32 = true ->
  clean_text_field (PStr s) =
    Ok (PStr (strip (squeeze u_space (u " ") false s))) /\
  exists r,
    clean_text_field (PStr s) = Ok (PStr r) /\
    List.filter (fun c => negb (u_space c)) r =
    List.filter (fun c => negb (u_space c)) s.
Proof.
  intros Hno Hsp. rewrite clean_text_field_str, (sub_tag_free s Hno).
  split; [reflexivity|]. eexists. split; [reflexivity|].
  rewrite filter_strip. apply filter_squeeze. exact Hsp.
Qed.

End CleanTextExtras.

Lemma clean_text_field_tag_free_witness :
  @Transformation.clean_text_field Py.latin1
    (Py.PStr (Py.u "  Data   engineer  ")) =
    Py.Ok (Py.PStr (Py.u "Data engineer")) /\
  exists r,
    @Transformation.clean_text_field Py.latin1
      (Py.PStr (Py.u "  Data   engineer  ")) = Py.Ok (Py.PStr r) /\
    List.filter (fun c => negb (@Py.u_space Py.latin1 c)) r =
    List.filter (fun c => negb (@Py.u_space Py.latin1 c))
      (Py.u "  Data   engineer  ").
Proof.
  destruct (@clean_text_field_tag_free Py.latin1 (Py.u "  Data   engineer  "))
    as [H1 H2].
  - vm_compute. intuition discriminate.
  - reflexivity.
  - split; [rewrite H1; vm_compute; reflexivity|exact H2].
Defined.

(** ** The tags of a one-line text *)

Section TagExtras.
Import Py Re Transformation.
Context {U : Unicode}.

(** The number of characters before the first [>]. *)
Definition gt_index (s : str) : nat :=
  run_length (fun c => negb (62 =? c)) s.

Lemma gt_index_lt (s : str) :
  existsb (N.eqb 62) s = true -> (S (gt_index s) <= length s)%nat.
Proof.
  unfold gt_index. induction s as [|c s IH]; cbn [existsb]; [discriminate|].
  cbn [run_length length]. destruct (62 =? c); cbn [negb orb]; [lia|].
  intros H. apply IH in H. lia.
Qed.

Lemma lazy_chr_cons
    (p : N -> bool) (prev : option N) (x : N) (s : str) (n : nat)
    (g : option str) (k : mstate -> option mstate) :
  rmatch (Star false (Chr p)) (MState prev (x :: s) n g) k =
  match k (MState prev (x :: s) n g) with
  | Some y => Some y
  | None =>
      if p x
      then if (n <? S n)%nat
           then rmatch (Star false (Chr p)) (MState (Some x) s (S n) g) k
           else None
      else None
  end.
Proof. reflexivity. Qed.

Lemma lazy_until (s : str) :
  forall (prev : option N) (n : nat) (g : option str),
    Forall (fun c => c <> 10) s ->
    (existsb (N.eqb 62) s = true ->
     exists st',
       rmatch (Star false (Chr (fun c => negb (c =? 10)))) (MState prev s n g)
         (fun st' => rmatch (Chr (N.eqb 62)) st' Some) = Some st' /\
       m_len st' = (n + S (gt_index s))%nat) /\
    (existsb (N.eqb 62) s = false ->
     rmatch (Star false (Chr (fun c => negb (c =? 10)))) (MState prev s n g)
       (fun st' => rmatch (Chr (N.eqb 62)) st' Some) = None).
Proof.
  induction s as [|x s IH]; intros prev n g Hnl.
  - split; [discriminate|reflexivity].
  - rewrite lazy_chr_cons. apply Forall_cons_1 in Hnl as [Hx Hs].
    cbv beta.
    change (rmatch (Chr (N.eqb 62)) (MState prev (x :: s) n g) Some)
      with (if 62 =? x then Some (MState (Some x) s (S n) g) else None).
    cbn [existsb]. unfold gt_index.
    cbn [run_length]. fold (gt_index s).
    destruct (62 =? x); cbn [negb orb].
    + split; [|discriminate]. intros _. eexists. split; [reflexivity|].
      cbn [m_len]. lia.
    + replace (x =? 10) with false by (symmetry; apply N.eqb_neq, Hx).
      cbn [negb].
      replace (n <? S n)%nat with true by (symmetry; apply Nat.ltb_lt; lia).
      destruct (IH (Some x) (S n) g Hs) as [IH1 IH2]. split.
      * intros E. destruct (IH1 E) as (st' & -> & Hlen).
        exists st'. split; [reflexivity|]. lia.
      * exact IH2.
Qed.

Lemma tag_re_cons (prev : option N) (x : N) (s : str) :
  rmatch tag_re (MState prev (x :: s) 0 None) Some =
  if 60 =? x
  then rmatch (Star false (Chr (fun c => negb (c =? 10))))
         (MState (Some x) s 1 None)
         (fun st' => rmatch (Chr (N.eqb 62)) st' Some)
  else None.
Proof. reflexivity. Qed.

(** After a [<] there is no [>]. *)
Definition no_tag (t : str) : Prop :=
  forall l1 l2, t = l1 ++ 60 :: l2 -> ~ In 62 l2.

Lemma no_tag_cons (c : N) (t : str) :
  (c = 60 -> ~ In 62 t) -> no_tag t -> no_tag (c :: t).
Proof.
  intros Hc Ht l1 l2 Heq. destruct l1 as [|x l1]; cbn [app] in Heq.
  - injection Heq as -> ->. apply Hc. reflexivity.
  - injection Heq as -> ->. exact (Ht l1 l2 eq_refl).
Qed.

Lemma sub_tags_one_line (m : nat) :
  forall (s : str) (prev : option N),
    (length s <= m)%nat ->
    Forall (fun c => c <> 10) s ->
    no_tag (flat_map (fun x => match x with inl c => [c] | inr _ => u " " end)
              (scan tag_re 0 prev s)) /\
    forall c,
      In c (flat_map (fun x => match x with inl c => [c] | inr _ => u " " end)
              (scan tag_re 0 prev s)) ->
      c = 32 \/ In c s.
Proof.
  induction m as [|m IH]; intros s prev Hm Hnl.
  - destruct s; [|cbn [length] in Hm; lia].
    split; [intros [|? ?] ? [=]|intros c []].
  - destruct s as [|x s].
    { split; [intros [|? ?] ? [=]|intros c []]. }
    cbn [length] in Hm. pose proof Hnl as Hnl'.
    apply Forall_cons_1 in Hnl' as [Hx Hs].
    cbn [scan]. rewrite tag_re_cons.
    destruct (N.eqb_spec 60 x) as [<-|Hne].
    + destruct (lazy_until s (Some 60) 1 None Hs) as [Hyes Hno].
      destruct (existsb (N.eqb 62) s) eqn:E.
      * destruct (Hyes eq_refl) as (st' & -> & Hlen). rewrite Hlen.
        cbn [Nat.add flat_map].
        destruct (scan_skip tag_re (S (gt_index s)) (Some 60) s
                    (gt_index_lt s E)) as [prev' ->].
        destruct (IH (drop (S (gt_index s)) s) prev') as [IH1 IH2].
        { rewrite length_drop. lia. }
        { apply Forall_drop, Hs. }
        change (u " ") with [32]. cbn [app]. split.
        -- apply no_tag_cons; [discriminate|exact IH1].
        -- intros c [<-|Hc]; [left; reflexivity|].
           destruct (IH2 c Hc) as [->|Hin]; [left; reflexivity|].
           right. right. apply list_elem_of_In.
           apply list_elem_of_In in Hin.
           exact (subseteq_drop _ _ _ Hin).
      * rewrite (Hno eq_refl). cbn [flat_map app].
        destruct (IH s (Some 60)) as [IH1 IH2]; [lia|exact Hs|].
        split.
        -- apply no_tag_cons; [|exact IH1]. intros _ Hin.
           destruct (IH2 62 Hin) as [[=]|Hin'].
           assert (existsb (N.eqb 62) s = true) as E'.
           { apply existsb_exists. exists 62. split; [exact Hin'|].
             apply N.eqb_refl. }
           congruence.
        -- intros c [<-|Hc]; [right; left; reflexivity|].
           destruct (IH2 c Hc) as [->|Hin]; [left; reflexivity|].
           right. right. exact Hin.
    + replace (60 =? x) with false by (symmetry; apply N.eqb_neq, Hne).
      cbn [flat_map app].
      destruct (IH s (Some x)) as [IH1 IH2]; [lia|exact Hs|].
      split.
      * apply no_tag_cons; [congruence|exact IH1].
      * intros c [<-|Hc]; [right; left; reflexivity|].
        destruct (IH2 c Hc) as [->|Hin]; [left; reflexivity|].
        right. right. exact Hin.
Qed.

(** The angle brackets of a text, in their order. *)
Definition angles (t : str) : str :=
  List.filter (fun c => (c =? 60) || (c =? 62)) t.

Lemma filter_split {A} (f : A -> bool) (t a b : list A) (x : A) :
  List.filter f t = a ++ x :: b ->
  exists l1 l2,
    t = l1 ++ x :: l2 /\ List.filter f l1 = a /\ List.filter f l2 = b.
Proof.
  revert a. induction t as [|y t IH]; intros a; cbn [List.filter].
  - destruct a; discriminate.
  - destruct (f y) eqn:E.
    + destruct a as [|z a]; cbn [app].
      * intros [= -> Hb]. exists [], t. cbn [List.filter]. auto.
      * intros [= -> Ht]. destruct (IH a Ht) as (l1 & l2 & -> & H1 & H2).
        exists (z :: l1), l2. cbn [List.filter app]. rewrite E, H1. auto.
    + intros Ht. destruct (IH a Ht) as (l1 & l2 & -> & H1 & H2).
      exists (y :: l1), l2. cbn [List.filter app]. rewrite E. auto.
Qed.

Lemma no_tag_angles (t r : str) :
  angles r = angles t -> no_tag t -> no_tag r.
Proof.
  intros Heq Ht l1 l2 -> Hin.
  unfold angles in Heq. rewrite List.filter_app in Heq.
  cbn [List.filter] in Heq. change (60 =? 60) with true in Heq.
  cbn [orb] in Heq. symmetry in Heq.
  apply filter_split in Heq as (k1 & k2 & -> & _ & H2).
  apply (Ht k1 k2 eq_refl).
  assert (In 62 (List.filter (fun c => (c =? 60) || (c =? 62)) l2)) as Hf
    by (apply filter_In; split; [exact Hin|reflexivity]).
  rewrite <- H2 in Hf. apply filter_In in Hf. tauto.
Qed.

Lemma filter_drop_class (f p : N -> bool) (s : str) :
  (forall c, p c = true -> f c = false) ->
  List.filter f (drop_while p s) = List.filter f s.
Proof.
  intros Hp. induction s as [|c s IH]; [reflexivity|].
  cbn [drop_while]. destruct (p c) eqn:E; [|reflexivity].
  cbn [List.filter]. rewrite (Hp c E). exact IH.
Qed.

Lemma filter_squeeze_class (f p : N -> bool) (c : N) (b : bool) (s : str) :
  (forall x, p x = true -> f x = false) ->
  f c = false ->
  List.filter f (squeeze p [c] b s) = List.filter f s.
Proof.
  intros Hp Hc. revert b. induction s as [|y s IH]; intros b; [reflexivity|].
  cbn [squeeze]. destruct (p y) eqn:E.
  - cbn [List.filter]. rewrite (Hp y E).
    destruct b; [apply IH|]. cbn [app List.filter]. rewrite Hc. apply IH.
  - cbn [List.filter]. destruct (f y); [f_equal|]; apply IH.
Qed.

Lemma one_line_no_tag (s : str) :
  ~ In 10 s ->
  u_space 60 = false ->
  u_space 62 = false ->
  no_tag (strip (squeeze u_space [32] false (sub_str tag_re [32] s))).
Proof.
  intros Hnl H60 H62.
  assert (forall x, u_space x = true -> (x =? 60) || (x =? 62) = false)
    as Hclass.
  { intros x Hx. destruct (N.eqb_spec x 60) as [->|_]; [congruence|].
    destruct (N.eqb_spec x 62) as [->|_]; [congruence|reflexivity]. }
  apply (no_tag_angles (sub_str tag_re [32] s)).
  - unfold angles, strip.
    rewrite filter_rev, (filter_drop_class _ _ _ Hclass), filter_rev,
      (filter_drop_class _ _ _ Hclass), rev_involutive.
    apply filter_squeeze_class; [exact Hclass|reflexivity].
  - unfold sub_str. apply (sub_tags_one_line (length s)); [lia|].
    apply Forall_forall. intros c Hc ->. apply Hnl, list_elem_of_In, Hc.
Qed.

(** X22.  From a text without line break [clean_text_field] removes every
    tag: in what it returns no [<] has a [>] anywhere after it. *)
Theorem clean_text_field_removes_tags (s : str) :
  ~ In 10 s ->
  u_space 60 = false ->
  u_space 62 = false ->
  exists r,
    clean_text_field (PStr s) = Ok (PStr r) /\
    forall l1 l2, r = l1 ++ 60 :: l2 -> ~ In 62 l2.
Proof.
  intros Hnl H60 H62. eexists. split; [apply clean_text_field_str|].
  change (u " ") with [32]. exact (one_line_no_tag s Hnl H60 H62).
Qed.

Lemma tag_re_needs (st : mstate) (x : mstate) :
  rmatch tag_re st Some = Some x ->
  exists s', m_rest st = 60 :: s' /\ In 62 s'.
Proof.
  unfold tag_re. rewrite rmatch_seq. intros Hm.
  revert Hm.
  generalize (Star false (Chr (fun c => negb (c =? 10)))) as body.
  intros body Hm. cbn [rmatch] in Hm.
  destruct (m_rest st) as [|c s'] eqn:E; [discriminate|].
  destruct (N.eqb_spec 60 c) as [<-|_]; [|discriminate].
  exists s'. split; [reflexivity|].
  apply rmatch_calls in Hm as (st1 & [pre Hs1] & Hm). cbn [m_rest] in Hs1.
  destruct (m_rest st1) as [|y s''] eqn:E1; [discriminate|].
  destruct (N.eqb_spec 62 y) as [<-|_]; [|discriminate].
  rewrite Hs1. apply in_or_app. right. left. reflexivity.
Qed.

Lemma sub_no_tag (r : str) :
  no_tag r -> sub_str tag_re [32] r = r.
Proof.
  intros Hr. apply no_match_findall. intros prev suf [pre ->].
  destruct (rmatch tag_re (MState prev suf 0 None) Some) as [x|] eqn:E;
    [exfalso|reflexivity].
  apply tag_re_needs in E as (s' & Hs & Hin). cbn [m_rest] in Hs. subst suf.
  exact (Hr pre s' eq_refl Hin).
Qed.

Lemma spaced_tail (p : N -> bool) (y : N) (r : str) :
  spaced p (y :: r) -> spaced p r.
Proof. intros H l1 a b l2 ->. exact (H (y :: l1) a b l2 eq_refl). Qed.

Lemma squeeze_id (p : N -> bool) (c : N) (r : str) :
  spaced p r ->
  (forall x, In x r -> p x = true -> x = c) ->
  squeeze p [c] false r = r /\
  ((forall hd, head r = Some hd -> p hd = false) ->
   squeeze p [c] true r = r).
Proof.
  induction r as [|y r IH]; intros Hsp Hc; [split; reflexivity|].
  destruct IH as [IH1 IH2];
    [exact (spaced_tail _ _ _ Hsp)|intros x Hx; apply Hc; right; exact Hx|].
  cbn [squeeze]. destruct (p y) eqn:E.
  - split.
    + assert (y = c) as -> by (apply Hc; [left; reflexivity|exact E]).
      cbn [app]. f_equal.
      apply IH2. intros hd Hhd. destruct r as [|z r]; [discriminate|].
      injection Hhd as <-. exact (Hsp [] c z r eq_refl E).
    + intros Hh. rewrite (Hh y eq_refl) in E. discriminate.
  - split; [|intros _]; f_equal; exact IH1.
Qed.

Lemma drop_while_id (p : N -> bool) (r : str) :
  (forall hd, head r = Some hd -> p hd = false) -> drop_while p r = r.
Proof.
  intros Hh. destruct r as [|y r]; [reflexivity|].
  cbn [drop_while]. rewrite (Hh y eq_refl). reflexivity.
Qed.

Lemma head_rev (r : str) : head (rev r) = last r.
Proof.
  rewrite <- (rev_involutive r) at 2.
  destruct (rev r) as [|z q]; [reflexivity|].
  cbn [rev head]. rewrite last_snoc. reflexivity.
Qed.

Lemma strip_id (r : str) :
  (forall c, head r = Some c -> u_space c = false) ->
  (forall c, last r = Some c -> u_space c = false) ->
  strip r = r.
Proof.
  intros Hh Hl. unfold strip. rewrite (drop_while_id _ r Hh).
  rewrite drop_while_id; [apply rev_involutive|].
  intros c Hc. rewrite head_rev in Hc. exact (Hl c Hc).
Qed.

(** X24.  On a text without line break [clean_text_field] is idempotent:
    cleaning what it returned gives the same text again. *)
Theorem clean_text_field_idempotent (s : str) :
  ~ In 10 s ->
  u_space 60 = false ->
  u_space 62 = false ->
  exists r,
    clean_text_field (PStr s) = Ok (PStr r) /\
    clean_text_field (PStr r) = Ok (PStr r).
Proof.
  intros Hnl H60 H62. eexists. split; [apply clean_text_field_str|].
  rewrite clean_text_field_str. change (u " ") with [32].
  pose proof (one_line_no_tag s Hnl H60 H62) as Htag.
  destruct (stripped_squeezed_normal (sub_str tag_re [32] s))
    as (Hh & Hl & Hsp & Hc).
  revert Htag Hh Hl Hsp Hc.
  generalize (strip (squeeze u_space [32] false (sub_str tag_re [32] s)))
    as r.
  intros r Htag Hh Hl Hsp Hc.
  rewrite (sub_no_tag r Htag).
  rewrite (proj1 (squeeze_id u_space 32 r Hsp Hc)).
  rewrite (strip_id r Hh Hl). reflexivity.
Qed.

End TagExtras.

Lemma clean_text_field_removes_tags_witness :
  exists r,
    @Transformation.clean_text_field Py.latin1
      (Py.PStr (Py.u "<p>Data <b>engineer</b> > 2 ans</p>")) =
      Py.Ok (Py.PStr r) /\
    forall l1 l2, r = l1 ++ 60 :: l2 -> ~ In 62 l2.
Proof.
  apply (@clean_text_field_removes_tags Py.latin1
           (Py.u "<p>Data <b>engineer</b> > 2 ans</p>")).
  - vm_compute. intuition discriminate.
  - reflexivity.
  - reflexivity.
Defined.

(** ** The bounds of the salary, from the amounts matched *)

Section SalaryBoundsExtras.
Import Py Re Transformation.
Context {U : Unicode}.

Fixpoint group_free (r : regex) : bool :=
  match r with
  | Group _ => false
  | Seq a b | Alt a b => group_free a && group_free b
  | Star _ a => group_free a
  | Chr _ | Eps | WordB => true
  end.

(** From [st] to [st']: the match has not shrunk and the group is as it
    was. *)
Definition advances (st st' : mstate) : Prop :=
  (m_len st <= m_len st')%nat /\ m_group st' = m_group st.

Lemma advances_refl (st : mstate) : advances st st.
Proof. split; [lia|reflexivity]. Qed.

Lemma advances_trans (a b c : mstate) :
  advances a b -> advances b c -> advances a c.
Proof. intros [H1 H2] [H3 H4]. split; [lia|congruence]. Qed.

Lemma rmatch_advances (r : regex) :
  group_free r = true ->
  forall (st : mstate) (k : mstate -> option mstate) (x : mstate),
    rmatch r st k = Some x ->
    exists st', advances st st' /\ k st' = Some x.
Proof.
  induction r as [p| |a IHa b IHb|a IHa b IHb|g a IHa|a IHa|];
    intros Hgf st k x Hm; cbn [rmatch] in Hm; cbn [group_free] in Hgf.
  - destruct (m_rest st) as [|c s'] eqn:E; [discriminate|].
    destruct (p c); [|discriminate].
    eexists. split; [|exact Hm]. split; cbn; [lia|reflexivity].
  - exists st. split; [apply advances_refl|exact Hm].
  - apply andb_prop in Hgf as [Ha Hb].
    apply (IHa Ha) in Hm as (st1 & Hs1 & Hm).
    apply (IHb Hb) in Hm as (st2 & Hs2 & Hm).
    exists st2. split; [exact (advances_trans _ _ _ Hs1 Hs2)|exact Hm].
  - apply andb_prop in Hgf as [Ha Hb]. destruct (rmatch a st k) eqn:E.
    + injection Hm as ->. exact (IHa Ha _ _ _ E).
    + exact (IHb Hb _ _ _ Hm).
  - specialize (IHa Hgf).
    revert Hm. generalize (length (m_rest st)) as fuel. intros fuel.
    revert st x. induction fuel as [|fuel IH]; intros st x Hm.
    + destruct g.
      * destruct (rmatch a st _) as [y|] eqn:E in Hm.
        -- injection Hm as ->. apply IHa in E as (st1 & Hs1 & E).
           destruct (m_len st <? m_len st1)%nat; [|discriminate].
           exists st1. split; [exact Hs1|exact E].
        -- exists st. split; [apply advances_refl|exact Hm].
      * destruct (k st) as [y|] eqn:E.
        -- injection Hm as ->. exists st. split; [apply advances_refl|exact E].
        -- apply IHa in Hm as (st1 & Hs1 & Hm).
           destruct (m_len st <? m_len st1)%nat; [|discriminate].
           exists st1. split; [exact Hs1|exact Hm].
    + destruct g.
      * destruct (rmatch a st _) as [y|] eqn:E in Hm.
        -- injection Hm as ->. apply IHa in E as (st1 & Hs1 & E).
           destruct (m_len st <? m_len st1)%nat; [|discriminate].
           destruct (IH st1 x E) as (st2 & Hs2 & E2).
           exists st2. split; [exact (advances_trans _ _ _ Hs1 Hs2)|exact E2].
        -- exists st. split; [apply advances_refl|exact Hm].
      * destruct (k st) as [y|] eqn:E.
        -- injection Hm as ->. exists st. split; [apply advances_refl|exact E].
        -- apply IHa in Hm as (st1 & Hs1 & Hm).
           destruct (m_len st <? m_len st1)%nat; [|discriminate].
           destruct (IH st1 x Hm) as (st2 & Hs2 & E2).
           exists st2. split; [exact (advances_trans _ _ _ Hs1 Hs2)|exact E2].
  - discriminate.
  - destruct (xorb _ _); [|discriminate].
    exists st. split; [apply advances_refl|exact Hm].
Qed.

(** An amount: a text that starts with a decimal digit. *)
Definition starts_with_digit (a : str) : Prop :=
  exists d t, a = d :: t /\ is_decimal d = true.

Lemma amount_re_group (prev : option N) (suf : str) (x : mstate) :
  rmatch amount_re (MState prev suf 0 None) Some = Some x ->
  exists a, m_group x = Some a /\ starts_with_digit a.
Proof.
  unfold amount_re, Plus.
  assert (group_free (Star true (Chr is_decimal)) = true) as Hsa
    by reflexivity.
  assert (group_free
            (Seq (Star true (Chr (fun c => u_space c || is_decimal c)))
               (Star true
                  (Chr (fun c => is_decimal c || (c =? 44) || (c =? 46)))))
          = true) as Hsb by reflexivity.
  assert (group_free
            (Alt
               (Seq (Star true (Chr u_space))
                  (Chr (fun c => (c =? 8364) || (c =? 36) || (c =? 163))))
               (Alt
                  (Seq (Star true (Chr u_space))
                     (Seq (lit (u "euro")) (Opt (Chr (N.eqb 115)))))
                  (Seq (Star true (Chr u_space)) (lit (u "euro")))))
          = true) as Halt by reflexivity.
  revert Hsa Hsb Halt.
  generalize (Alt
               (Seq (Star true (Chr u_space))
                  (Chr (fun c => (c =? 8364) || (c =? 36) || (c =? 163))))
               (Alt
                  (Seq (Star true (Chr u_space))
                     (Seq (lit (u "euro")) (Opt (Chr (N.eqb 115)))))
                  (Seq (Star true (Chr u_space)) (lit (u "euro"))))) as alt.
  generalize (Seq (Star true (Chr (fun c => u_space c || is_decimal c)))
               (Star true
                  (Chr (fun c => is_decimal c || (c =? 44) || (c =? 46)))))
    as sb.
  generalize (Star true (Chr is_decimal)) as sa.
  intros sa sb alt Hsa Hsb Halt Hm.
  cbn [rmatch m_rest m_len m_group m_prev] in Hm.
  destruct suf as [|c s']; [discriminate|].
  destruct (is_decimal c) eqn:Ec; [|discriminate].
  apply (rmatch_advances sa Hsa) in Hm as (st1 & [Hl1 _] & Hm).
  apply (rmatch_advances sb Hsb) in Hm as (st2 & [Hl2 _] & Hm).
  apply (rmatch_advances alt Halt) in Hm as (st3 & [_ Hg3] & Hm).
  injection Hm as <-. cbn [m_len m_group] in *.
  destruct (m_len st2 - 0)%nat as [|n] eqn:En; [lia|].
  rewrite Hg3. eexists. split; [reflexivity|].
  exists c, (take n s'). split; [reflexivity|exact Ec].
Qed.

Lemma scan_amounts (s : str) :
  forall (k : nat) (prev : option N) (m : rmatched),
    In (inr m) (scan amount_re k prev s) ->
    exists a, group1 m = Some a /\ starts_with_digit a.
Proof.
  induction s as [|c s IH]; intros k prev m Hin.
  - destruct k as [|k]; cbn [scan] in Hin; [|destruct Hin].
    destruct (rmatch amount_re (MState prev [] 0 None) Some) eqn:E;
      [|destruct Hin].
    destruct Hin as [[= <-]|[]]. exact (amount_re_group _ _ _ E).
  - destruct k as [|k]; cbn [scan] in Hin; [|exact (IH _ _ _ Hin)].
    destruct (rmatch amount_re (MState prev (c :: s) 0 None) Some)
      as [st|] eqn:E.
    + destruct Hin as [[= <-]|Hin]; [exact (amount_re_group _ _ _ E)|].
      destruct (m_len st); [destruct Hin as [Hin|Hin]; [discriminate|]|];
        exact (IH _ _ _ Hin).
    + destruct Hin as [Hin|Hin]; [discriminate|exact (IH _ _ _ Hin)].
Qed.

Lemma findall_amounts (s : str) :
  Forall starts_with_digit (findall_str amount_re s).
Proof.
  unfold findall_str, matches.
  pose proof (scan_amounts s 0 None) as Hall. revert Hall.
  generalize (scan amount_re 0 None s) as l.
  induction l as [|[c|m] l IH]; intros Hall; cbn [omap map].
  - constructor.
  - apply IH. intros m Hm. apply Hall. right. exact Hm.
  - cbn. constructor.
    + destruct (Hall m) as (a & -> & Ha); [left; reflexivity|exact Ha].
    + apply IH. intros m' Hm. apply Hall. right. exact Hm.
Qed.

Hypothesis dot_not_decimal : u_decimal 46 = None.
Hypothesis comma_not_decimal : u_decimal 44 = None.

Lemma amount_value_unread (a : str) :
  starts_with_digit a ->
  (exists q, amount_value a = Ok (PFloat q)) /\ (separators a < 2)%nat \/
  amount_value a = Raise ValueError /\ (2 <= separators a)%nat.
Proof.
  intros (d & t & -> & Hd).
  assert (separators (d :: t) = separators t) as ->.
  { unfold separators. cbn [List.filter].
    destruct (N.eqb_spec d 44) as [->|_];
      [unfold is_decimal in Hd; rewrite comma_not_decimal in Hd;
       discriminate|].
    destruct (N.eqb_spec d 46) as [->|_];
      [unfold is_decimal in Hd; rewrite dot_not_decimal in Hd;
       discriminate|].
    reflexivity. }
  unfold amount_value.
  rewrite (cleaned_amount_head comma_not_decimal d t Hd).
  destruct (cleaned_amount t) as [Hall Hdots].
  destruct (float_of_text_dots dot_not_decimal d _ Hd Hall) as [Hiff Hok].
  rewrite Hdots in Hiff, Hok.
  destruct (le_lt_dec 2 (separators t)) as [Hge|Hlt].
  - right. split; [|exact Hge]. apply Hiff in Hge. rewrite Hge. reflexivity.
  - left. split; [|exact Hlt]. destruct (Hok Hlt) as [q ->]. exists q.
    reflexivity.
Qed.

(** X23.  Every amount [extract_salary_info] matches starts with a decimal
    digit, and the bounds it returns are decided by the separators (commas
    and dots) of the first two amounts: the minimum is [None] exactly when
    no amount is matched or the first one has two or more separators; the
    maximum is [None] exactly when fewer than two amounts are matched or
    one of the first two has two or more separators. *)
Theorem extract_salary_info_bounds (c : N) (s : str) :
  exists mn mx p cur,
    extract_salary_info (PStr (c :: s)) = Ok (mn, mx, p, cur) /\
    Forall starts_with_digit (findall_str amount_re (u_lower (c :: s))) /\
    (mn = PNone <->
     match findall_str amount_re (u_lower (c :: s)) with
     | [] => True
     | a :: _ => (2 <= separators a)%nat
     end) /\
    (mx = PNone <->
     match findall_str amount_re (u_lower (c :: s)) with
     | a :: b :: _ => (2 <= separators a)%nat \/ (2 <= separators b)%nat
     | _ => True
     end).
Proof.
  eexists _, _, _, _. split; [apply extract_salary_info_str|].
  pose proof (findall_amounts (u_lower (c :: s))) as Hall.
  split; [exact Hall|].
  revert Hall. generalize (findall_str amount_re (u_lower (c :: s))) as l.
  intros l Hall. unfold min_max_of.
  destruct l as [|a [|b l]].
  - cbn. tauto.
  - apply Forall_cons_1 in Hall as [Ha _].
    destruct (amount_value_unread a Ha) as [[[q ->] Hlt]|[-> Hge]]; cbn.
    + split; [|tauto]. split; [discriminate|lia].
    + tauto.
  - apply Forall_cons_1 in Hall as [Ha Hall].
    apply Forall_cons_1 in Hall as [Hb _].
    destruct (amount_value_unread a Ha) as [[[q ->] Hlt]|[-> Hge]].
    + destruct (amount_value_unread b Hb) as [[[q' ->] Hlt']|[-> Hge']]; cbn.
      * split; (split; [discriminate|lia]).
      * split; [split; [discriminate|lia]|tauto].
    + cbn. tauto.
Qed.

End SalaryBoundsExtras.

Lemma extract_salary_info_bounds_witness :
  exists mn mx p cur,
    @Transformation.extract_salary_info Py.latin1
      (Py.PStr (Py.u "De 1.500,00 euros a 2000 euros")) =
      Py.Ok (mn, mx, p, cur) /\
    Forall (@starts_with_digit Py.latin1)
      (@Re.findall_str Py.latin1 (@Transformation.amount_re Py.latin1)
         (@Py.u_lower Py.latin1 (Py.u "De 1.500,00 euros a 2000 euros"))) /\
    (mn = Py.PNone <->
     match @Re.findall_str Py.latin1 (@Transformation.amount_re Py.latin1)
             (@Py.u_lower Py.latin1 (Py.u "De 1.500,00 euros a 2000 euros"))
     with
     | [] => True
     | a :: _ => (2 <= separators a)%nat
     end) /\
    (mx = Py.PNone <->
     match @Re.findall_str Py.latin1 (@Transformation.amount_re Py.latin1)
             (@Py.u_lower Py.latin1 (Py.u "De 1.500,00 euros a 2000 euros"))
     with
     | a :: b :: _ => (2 <= separators a)%nat \/ (2 <= separators b)%nat
     | _ => True
     end).
Proof.
  exact (@extract_salary_info_bounds Py.latin1 eq_refl eq_refl 68
           (Py.u "e 1.500,00 euros a 2000 euros")).
Defined.

Lemma clean_text_field_idempotent_witness :
  exists r,
    @Transformation.clean_text_field Py.latin1
      (Py.PStr (Py.u " <p>Data  <b>engineer</b> </p> ")) =
      Py.Ok (Py.PStr r) /\
    @Transformation.clean_text_field Py.latin1 (Py.PStr r) =
      Py.Ok (Py.PStr r).
Proof.
  apply (@clean_text_field_idempotent Py.latin1
           (Py.u " <p>Data  <b>engineer</b> </p> ")).
  - vm_compute. intuition discriminate.
  - reflexivity.
  - reflexivity.
Defined.
